(** * DEX-quotes: on-chain quote aggregation and ranking engine

    A shallow embedding of the quoting and ranking core of
    [src/services/onChainQuoteService.ts], of the aggregator adapter
    [zeroXQuoteService.ts] and of the RPC rate limiter [utils/rateLimiter.ts],
    together with the properties the specification states about them; then of
    the V3, V4 and Curve quoters of the same file, of the protocol ranking of
    the aggregator client [zeroXApi.ts], of the comparison service
    [enhancedDexComparisonService.ts] and of the quote log, with properties
    read off the code.

    What the embedding keeps and what it leaves out:
    - amounts are integers ([bigint], or the integer that a decimal string
      denotes); numbers are doubles, see [JSNumber];
    - asynchronous code is sequential state passing over the state of the
      outside world; contract calls and HTTP requests are parameters;
    - console output, timestamps and the timing fields of the quote log kept
      on [window] are left out;
    - [ethers.formatUnits] renders amounts for the console and the log; the
      strings are left out, the calls are not, since [formatUnits] throws
      for an amount outside 512 signed bits and for more than 80 decimals:
      every call is kept where the code has it, as a parameter that gives
      the string or the exception. *)

From Stdlib Require Import ZArith QArith Qabs Qminmax Qround Qpower List Bool Ascii String Lia Lqa.
From Stdlib Require Import Permutation Sorted DecimalString DecimalZ.
Import ListNotations.

Local Open Scope Z_scope.

(** ** JavaScript numbers

    A JavaScript [number] is an IEEE-754 binary64.  Every finite double is a
    rational, so a number is modelled as a [Q] and each arithmetic operation is
    the exact operation followed by rounding to 53 significant bits, ties to
    even.  The exponent range is not modelled: the quantities of this program
    are token amounts (uint256 values) and ratios of them, far inside it, so
    no operation overflows to Infinity or underflows. *)
Module JSNumber.

(** [scaled p d e] is the integer part and the remainder situation of
    [p / (d * 2^e)], as the pair (numerator, denominator) of that quotient. *)
Definition scaled (p d e : Z) : Z * Z :=
  if 0 <=? e then (p, d * 2 ^ e) else (p * 2 ^ (- e), d).

(** Exponent [e] of the unit in the last place of [p / d]:
    [2^52 <= p / (d * 2^e) < 2^53]. *)
Definition ulp_exp (p d : Z) : Z :=
  let e := Z.log2 p - Z.log2 d - 52 in
  let '(n, m) := scaled p d e in
  if 2 ^ 52 <=? n / m then e else e - 1.

(** Round to nearest, ties to even, of the quotient [n / m]. *)
Definition nearest_even (n m : Z) : Z :=
  let q := n / m in
  let r := n mod m in
  if (m <? 2 * r) || ((m =? 2 * r) && Z.odd q) then q + 1 else q.

(** [m * 2^e] as a rational. *)
Definition ldexp (m e : Z) : Q :=
  if 0 <=? e then inject_Z (m * 2 ^ e) else Qmake m (Z.to_pos (2 ^ (- e))).

(** Rounding of a positive rational [p / d] to the nearest double. *)
Definition round_pos (p d : Z) : Q :=
  let e := ulp_exp p d in
  let '(n, m) := scaled p d e in
  Qred (ldexp (nearest_even n m) e).

(** Rounding of any rational to the nearest double. *)
Definition rnd (x : Q) : Q :=
  match Qnum x with
  | Z0 => 0%Q
  | Zpos p => round_pos (Zpos p) (Zpos (Qden x))
  | Zneg p => Qopp (round_pos (Zpos p) (Zpos (Qden x)))
  end.

(** The four operations, correctly rounded. *)
Definition fadd (x y : Q) : Q := rnd (x + y)%Q.
Definition fsub (x y : Q) : Q := rnd (x - y)%Q.
Definition fmul (x y : Q) : Q := rnd (x * y)%Q.
Definition fdiv (x y : Q) : Q := rnd (x / y)%Q.

(** [parseFloat] of the decimal rendering of an integer, and [Number] of a
    bigint: the nearest double. *)
Definition parseFloat (n : Z) : Q := rnd (inject_Z n).

(** [a < b] on numbers. *)
Definition ltb (x y : Q) : bool := negb (Qle_bool y x).

(** [isFinite]: every number of this model is finite. *)
Definition isFinite (_ : Q) : bool := true.

(** The relative error of one rounding is at most [eps = 2^-52]. *)
Definition eps : Q := 1 # 4503599627370496.

End JSNumber.

Import JSNumber.


(** ** Data model ([src/services/database.ts], [onChainQuoteService.ts])

    The display-only fields are not part of the model: [volume_24h] and
    [liquidity_usd] of a pool, [pricePerToken], [executionPrice],
    [gasEstimate] and [timestamp] of a quote. *)

Record Token : Type := mkToken {
  token_address : string;
  symbol : string;
  decimals : Z
}.

Record PoolInfo : Type := mkPool {
  address : string;
  name : string;
  dex : string;
  network : string;
  tokens_base : Token;
  tokens_quote : Token;
  fee_tier : option string
}.

Record TokenPair : Type := mkTokenPair {
  pair_id : string;
  sellToken : Token;
  buyToken : Token;
  sellAmount : string
}.

(** [OnChainQuote].  The amounts are decimal strings in the source.  The
    engine only stores [bigint.toString()] there and reads it back with
    [parseFloat], so the engine instance keeps the integer ([Amount := Z]);
    the aggregator adapter passes API strings through ([Amount := string]). *)
Record OnChainQuote {Amount : Type} : Type := mkQuote {
  pool : PoolInfo;
  inputAmount : Amount;
  outputAmount : Amount;
  success : bool;
  error : option string;
  protocolDetails : option string
}.
Arguments OnChainQuote : clear implicits.

Definition Quote : Type := OnChainQuote Z.

Record PoolRanking : Type := mkRanking {
  rank : Z;
  ranking_pool : PoolInfo;
  quote : Quote;
  priceAdvantage : Q
}.

Record SwapSimulation : Type := mkSimulation {
  quotes : list Quote;
  bestQuote : option Quote;
  rankings : list PoolRanking
}.

(** ** Ranking engine: [calculateRankings] *)
Module Ranking.

(** [Array.prototype.sort] with a comparator: a stable sort (ECMAScript 2019),
    here by insertion.  [compareFn x y > 0] puts [x] after [y]; the element
    inserted comes before every element of the list in the original order,
    so on a tie it stays in front. *)
Fixpoint insertBy {A : Type} (compareFn : A -> A -> Q) (x : A) (l : list A) : list A :=
  match l with
  | [] => [x]
  | y :: l' => if ltb 0 (compareFn x y) then y :: insertBy compareFn x l' else x :: l
  end.

Definition sort {A : Type} (compareFn : A -> A -> Q) (l : list A) : list A :=
  fold_right (insertBy compareFn) [] l.

(** The same sort as V8 runs it on a short array, by insertion from the
    left: every element in turn is the pivot, the comparator is called with
    the pivot first and an element of the part already sorted second, and
    the pivot is put in front of the first of these elements for which the
    answer is negative.  (V8 finds that element by bisection, and puts an
    array of more elements than the arrays sorted here together from such
    runs.)  With a comparator that orders by a key the result is the one of
    [sort] ([binaryInsertionSort_consistent] below); it is the definition to
    use with a comparator that is not consistent, where ECMAScript leaves
    the order to the implementation. *)
Fixpoint insertPivot {A : Type} (compareFn : A -> A -> Q) (pivot : A) (sorted : list A)
  : list A :=
  match sorted with
  | [] => [pivot]
  | element :: rest =>
    if ltb (compareFn pivot element) 0 then pivot :: sorted
    else element :: insertPivot compareFn pivot rest
  end.

Definition binaryInsertionSort {A : Type} (compareFn : A -> A -> Q) (l : list A) : list A :=
  fold_left (fun sorted pivot => insertPivot compareFn pivot sorted) l [].

(** [Array.prototype.map] with the index as second argument. *)
Fixpoint mapi_from {A B : Type} (f : A -> Z -> B) (i : Z) (l : list A) : list B :=
  match l with
  | [] => []
  | x :: l' => f x i :: mapi_from f (i + 1) l'
  end.

Definition mapi {A B : Type} (f : A -> Z -> B) (l : list A) : list B := mapi_from f 0 l.

(** [q => q.success && parseFloat(q.outputAmount) > 0] *)
Definition rankable (q : Quote) : bool :=
  success q && ltb 0 (parseFloat (outputAmount q)).

(** [(a, b) => parseFloat(b.outputAmount) - parseFloat(a.outputAmount)] *)
Definition byOutputDesc (a b : Quote) : Q :=
  fsub (parseFloat (outputAmount b)) (parseFloat (outputAmount a)).

(** The body of the [map] callback that computes one price advantage. *)
Definition computePriceAdvantage (worstOutput bestOutput currentOutput : Q) : Q :=
  if ltb 0 worstOutput && isFinite worstOutput && isFinite currentOutput then
    let priceAdvantage := fmul (fdiv (fsub currentOutput worstOutput) worstOutput) 100 in
    let priceAdvantage := Qmin priceAdvantage 1000 in
    let priceAdvantage := Qmax 0 priceAdvantage in
    if ltb (fdiv (Qabs (fsub currentOutput worstOutput)) bestOutput) (rnd (1 # 10000))
    then 0%Q
    else priceAdvantage
  else 0%Q.

Definition calculateRankings (quotes : list Quote) : list PoolRanking :=
  match quotes with
  | [] => []
  | _ :: _ =>
    let sortedQuotes := sort byOutputDesc (filter rankable quotes) in
    match sortedQuotes with
    | [] => []
    | first :: _ =>
      let worstOutput := parseFloat (outputAmount (last sortedQuotes first)) in
      let bestOutput := parseFloat (outputAmount first) in
      mapi (fun quote index =>
              let currentOutput := parseFloat (outputAmount quote) in
              {| rank := index + 1;
                 ranking_pool := pool quote;
                 quote := quote;
                 priceAdvantage := computePriceAdvantage worstOutput bestOutput currentOutput |})
           sortedQuotes
    end
  end.

(** The amount of a quote as the ranking reads it. *)
Definition key (q : Quote) : Q := parseFloat (outputAmount q).

(** [desc a b]: [a] may stand before [b] in the ranking. *)
Definition desc (a b : Quote) : Prop := (key b <= key a)%Q.

(** The quotes of the ranking, in rank order. *)
Definition ranked (quotes : list Quote) : list Quote :=
  sort byOutputDesc (filter rankable quotes).

(** The ranking entry built by the [map] callback. *)
Definition rankingOf (worstOutput bestOutput : Q) (q : Quote) (index : Z) : PoolRanking :=
  {| rank := index + 1;
     ranking_pool := pool q;
     quote := q;
     priceAdvantage := computePriceAdvantage worstOutput bestOutput (key q) |}.

End Ranking.

(** ** Effects

    A quoter reads chain state over RPC and may throw.  A computation is a
    function of the state of the outside world (the chain, the remote APIs)
    that returns a value or a thrown error together with the new state; the
    state reached before a throw is kept, as it is in JavaScript. *)

Record JsError : Type := mkError {
  isError : bool;              (* [error instanceof Error] *)
  message : string;
  status : option Z;
  code : option string
}.

Definition Error (msg : string) : JsError :=
  {| isError := true; message := msg; status := None; code := None |}.

Inductive Result (A : Type) : Type :=
| Ok (value : A)
| Throw (e : JsError).
Arguments Ok {A} value.
Arguments Throw {A} e.

Definition M (World A : Type) : Type := World -> Result A * World.

Definition ret {World A : Type} (a : A) : M World A := fun w => (Ok a, w).

Definition throw {World A : Type} (e : JsError) : M World A := fun w => (Throw e, w).

Definition bind {World A B : Type} (c : M World A) (k : A -> M World B) : M World B :=
  fun w => match c w with
           | (Ok a, w') => k a w'
           | (Throw e, w') => (Throw e, w')
           end.

(** [try { c } catch (e) { handler(e) }] *)
Definition try_catch {World A : Type} (c : M World A) (handler : JsError -> M World A)
  : M World A :=
  fun w => match c w with
           | (Ok a, w') => (Ok a, w')
           | (Throw e, w') => handler e w'
           end.

Declare Scope js_scope.
Delimit Scope js_scope with js.
Notation "x <- c ;; k" := (bind c (fun x => k))
  (at level 61, c at next level, right associativity) : js_scope.

(** A call that does not touch the world: its value, or what it throws. *)
Definition lift {World A : Type} (r : Result A) : M World A := fun w => (r, w).

(** [error instanceof Error ? error.message : 'Unknown error'] *)
Definition errorMessage (e : JsError) : string :=
  if isError e then message e else "Unknown error"%string.

(** [BigInt(x)] of a number that is not an integer: a RangeError (the
    message is the one of V8). *)
Definition notAnInteger : JsError :=
  Error "The number NaN cannot be converted to a BigInt because it is not an integer".

(** The names that every object inherits from [Object.prototype]: looking one
    of them up in an object literal finds the inherited member, not
    [undefined]. *)
Definition objectPrototypeKeys : list string :=
  ["constructor"; "__defineGetter__"; "__defineSetter__"; "hasOwnProperty";
   "__lookupGetter__"; "__lookupSetter__"; "isPrototypeOf"; "propertyIsEnumerable";
   "toString"; "valueOf"; "__proto__"; "toLocaleString"]%string.

(** ** Strings *)

Definition lower_ascii (c : Ascii.ascii) : Ascii.ascii :=
  let n := Ascii.nat_of_ascii c in
  if (65 <=? n)%nat && (n <=? 90)%nat then Ascii.ascii_of_nat (n + 32) else c.

Fixpoint toLowerCase (s : string) : string :=
  match s with
  | EmptyString => EmptyString
  | String c s' => String (lower_ascii c) (toLowerCase s')
  end.

(** [array.includes(s)] *)
Definition includes (l : list string) (s : string) : bool := existsb (String.eqb s) l.

(** ** Protocol quoters that need no chain state *)
Module Quoters.

(** [10 ** d] as a number, and [BigInt(10 ** d)]. *)
Definition pow10 (d : Z) : Q := rnd (Qpower 10 d).
Definition bigPow10 (d : Z) : Z := Qfloor (pow10 d).

(** Decimal-adjusted 1:1 conversion: the shared tail of the Balancer quoter
    and of the Fluid estimates.  Bigint division truncates. *)
Definition decimalAdjust (pool : PoolInfo) (amount : Z) : Z :=
  let decimalDiff := decimals (tokens_quote pool) - decimals (tokens_base pool) in
  if 0 <? decimalDiff then amount * bigPow10 decimalDiff
  else if decimalDiff <? 0 then Z.quot amount (bigPow10 (Z.abs decimalDiff))
  else amount.

(** [getBalancerQuote]: the [try] body and the [catch] block compute the same
    estimate, so whatever the body throws the result is this value. *)
Definition getBalancerQuote (pool : PoolInfo) (inputAmount : Z) : Z :=
  decimalAdjust pool inputAmount.

(** [fallbackPrices[symbol] || 1] *)
Definition fallbackPrices : list (string * Q) :=
  [("WETH", 4700); ("ETH", 4700); ("USDT", 1); ("USDC", 1); ("WBTC", 115000);
   ("UNI", 18); ("LINK", 25); ("USDe", 1); ("DAI", 1)]%string%Q.

Fixpoint lookupPrice (table : list (string * Q)) (sym : string) : option Q :=
  match table with
  | [] => None
  | (k, v) :: t => if String.eqb k sym then Some v else lookupPrice t sym
  end.

(** [fallbackPrices[symbol] || 1] as a number: [None] where the lookup finds
    an inherited member, with which the arithmetic gives NaN. *)
Definition priceOr1 (sym : string) : option Q :=
  match lookupPrice fallbackPrices sym with
  | Some p => Some (if Qeq_bool p 0 then 1%Q else p)
  | None => if includes objectPrototypeKeys sym then None else Some 1%Q
  end.

Definition stablecoins : list string := ["USDC"; "USDT"; "DAI"; "USDe"]%string.

(** The estimate computed in the [try] body of [getFluidEstimatedQuote]; it
    throws where a NaN reaches [BigInt]. *)
Definition fluidEstimate (pool : PoolInfo) (inputAmount : Z) : Result Z :=
  let isStablecoinPair :=
    includes stablecoins (symbol (tokens_base pool)) &&
    includes stablecoins (symbol (tokens_quote pool)) in
  if isStablecoinPair then
    let baseFee := rnd (1 # 10000) in
    let slippageEstimate := rnd (1 # 10000) in
    let totalFeeRate := fsub 1 (fadd baseFee slippageEstimate) in
    let feeAdjustedAmount := Qfloor (fmul (parseFloat inputAmount) totalFeeRate) in
    Ok (decimalAdjust pool feeAdjustedAmount)
  else
    match priceOr1 (symbol (tokens_base pool)), priceOr1 (symbol (tokens_quote pool)) with
    | Some basePrice, Some quotePrice =>
      let priceRatio := fdiv basePrice quotePrice in
      let inputAmountFloat :=
        fdiv (parseFloat inputAmount) (pow10 (decimals (tokens_base pool))) in
      let swapSizeUSD := fmul inputAmountFloat basePrice in
      let slippageRate := rnd (1 # 10000) in
      let slippageRate := if ltb 100000 swapSizeUSD then rnd (1 # 1000) else slippageRate in
      let slippageRate := if ltb 1000000 swapSizeUSD then rnd (5 # 1000) else slippageRate in
      let baseFee := rnd (1 # 10000) in
      let totalFeeRate := fsub 1 (fadd baseFee slippageRate) in
      let outputAmountFloat := fmul (fmul inputAmountFloat priceRatio) totalFeeRate in
      Ok (Qfloor (fmul outputAmountFloat (pow10 (decimals (tokens_quote pool)))))
    | _, _ => Throw notAnInteger
    end.

(** The [catch] block of [getFluidEstimatedQuote]: 1:1 with the basic fee. *)
Definition fluidUltimateFallback (pool : PoolInfo) (inputAmount : Z) : Z :=
  let basicFeeRate := rnd (9998 # 10000) in
  let basicAmount := Qfloor (fmul (parseFloat inputAmount) basicFeeRate) in
  decimalAdjust pool basicAmount.

End Quoters.

(** ** External-aggregator adapter: [ZeroXQuoteService] (zeroXQuoteService.ts) *)
Module ZeroX.

Record Fill : Type := mkFill {
  source : option string;
  proportionBps : option string
}.

(** The fields of the aggregator's response that the adapter reads. *)
Record ZeroXResponse : Type := mkResponse {
  liquidityAvailable : bool;
  buyAmount : string;
  resp_sellAmount : string;
  zeroExFee_amount : option string;   (* [fees?.zeroExFee?.amount] *)
  fills : list Fill                   (* [route?.fills || []] *)
}.

Record ZeroXProtocolInfo : Type := mkProtocol {
  protocol_name : string;
  percentage : Z
}.

Record ZeroXQuoteResult : Type := mkResult {
  result_quote : OnChainQuote string;
  protocols : list ZeroXProtocolInfo;
  totalFillCount : Z;
  result_protocolDetails : string
}.

(** What the adapter takes from outside: the HTTP client [zeroXApi.getQuote],
    [ethers.getBigInt] ([None] when it throws) and the display helpers of the
    same file, which do not touch the amounts. *)
Record Env {World : Type} : Type := mkEnv {
  zeroXApi_getQuote : TokenPair -> M World (option ZeroXResponse);
  getBigInt : string -> option Z;
  extractProtocolInfo : list Fill -> list ZeroXProtocolInfo;
  formatProtocolName : list ZeroXProtocolInfo -> string;
  getProtocolDetails : list ZeroXProtocolInfo -> list Fill -> TokenPair -> string
}.
Arguments Env : clear implicits.

(** [bigint.toString()] *)
Definition toString (z : Z) : string := NilZero.string_of_int (Z.to_int z).

Section Service.
Context {World : Type} (env : Env World).

(** [calculateNetQuoteAmount(buyAmount, zeroExFeeAmount?)] *)
Definition calculateNetQuoteAmount (buyAmount : string) (zeroExFeeAmount : option string)
  : string :=
  match zeroExFeeAmount with
  | None => buyAmount
  | Some fee =>
    if String.eqb fee EmptyString || String.eqb fee "0" then buyAmount
    else
      match getBigInt env buyAmount, getBigInt env fee with
      | Some buyAmountBN, Some feeAmountBN =>
        let netAmount := buyAmountBN + feeAmountBN in
        toString netAmount
      | _, _ => buyAmount
      end
  end.

(** [x || '0'] on an optional string *)
Definition orZero (x : option string) : string :=
  match x with
  | Some s => if String.eqb s EmptyString then "0"%string else s
  | None => "0"%string
  end.

Definition getZeroXQuote (tokenPair : TokenPair) : M World (option ZeroXQuoteResult) :=
  try_catch
    (zeroXResponse <- zeroXApi_getQuote env tokenPair ;;
     match zeroXResponse with
     | None => ret None
     | Some r =>
       if negb (liquidityAvailable r) then ret None
       else
         let protocols := extractProtocolInfo env (fills r) in
         match protocols with
         | [] => ret None
         | _ :: _ =>
           let zeroExFeeAmount := orZero (zeroExFee_amount r) in
           let netBuyAmount := calculateNetQuoteAmount (buyAmount r) (Some zeroExFeeAmount) in
           let protocolName := formatProtocolName env protocols in
           let poolInfo :=
             {| address := "zeroX-aggregator-" ++ pair_id tokenPair;
                name := protocolName;
                dex := protocolName;
                network := "ethereum";
                tokens_base := sellToken tokenPair;
                tokens_quote := buyToken tokenPair;
                fee_tier := Some "variable"%string |} in
           let quote :=
             {| pool := poolInfo;
                inputAmount := resp_sellAmount r;
                outputAmount := netBuyAmount;
                success := true;
                error := None;
                protocolDetails := None |} in
           ret (Some {| result_quote := quote;
                        protocols := protocols;
                        totalFillCount := Z.of_nat (List.length (fills r));
                        result_protocolDetails :=
                          getProtocolDetails env protocols (fills r) tokenPair |})
         end
     end)%js
    (fun _ => ret None).

End Service.
End ZeroX.

(** ** Quoting engine and simulation orchestrator (onChainQuoteService.ts) *)
Module Engine.

(** What the engine takes from outside.  The router, quoter and pool reads go
    over RPC and are left as computations on the world; so are the two
    chain-backed Fluid tiers.  [formatUnits value decimals] is
    [ethers.formatUnits]: a function of its two arguments that gives the
    decimal rendering of the amount, or throws where the fixed-point format of
    the library does not hold the value or the decimals.  The rendering goes
    to the console and to the log only; the exception goes where the code
    lets it go.  [amountOf] is the integer that a decimal amount string of
    the aggregator denotes. *)
Record Env {World : Type} : Type := mkEnv {
  getUniswapV2Quote : PoolInfo -> Z -> M World Z;
  getUniswapV3Quote : PoolInfo -> Z -> M World Z;
  getUniswapV4Quote : PoolInfo -> Z -> M World Z;
  getCurveQuote : PoolInfo -> Z -> M World Z;
  getFluidRealPriceImpactQuote : PoolInfo -> Z -> M World Z;
  getFluidLiveQuote : PoolInfo -> Z -> M World Z;
  formatUnits : Z -> Z -> Result string;
  zeroX : ZeroX.Env World;
  amountOf : string -> Z
}.
Arguments Env : clear implicits.

Section WithEnv.
Context {World : Type} (env : Env World).

(** [getFluidEstimatedQuote]: the input is formatted before the [try]; then
    the estimate, formatted for the log, and on any exception of the two the
    ultimate fallback of the [catch] block. *)
Definition getFluidEstimatedQuote (pool : PoolInfo) (inputAmount : Z) : M World Z :=
  (_inputFormatted <- lift (formatUnits env inputAmount (decimals (tokens_base pool))) ;;
   try_catch
     (estimatedOut <- lift (Quoters.fluidEstimate pool inputAmount) ;;
      _outputFormatted <- lift (formatUnits env estimatedOut (decimals (tokens_quote pool))) ;;
      ret estimatedOut)
     (fun _ => ret (Quoters.fluidUltimateFallback pool inputAmount)))%js.

(** The one pool that gets the chain-backed tiers. *)
Definition isEnhancedFluidPool (pool : PoolInfo) : bool :=
  let addressMatch :=
    String.eqb (toLowerCase (address pool)) "0xf063bd202e45d6b2843102cb4ece339026645d4a" in
  let baseSymbolMatch := String.eqb (symbol (tokens_base pool)) "USDe" in
  let quoteSymbolMatch := String.eqb (symbol (tokens_quote pool)) "USDT" in
  addressMatch && baseSymbolMatch && quoteSymbolMatch.

(** [getFluidQuote]: the input is formatted before the [try]. *)
Definition getFluidQuote (pool : PoolInfo) (inputAmount : Z) : M World Z :=
  (_inputFormatted <- lift (formatUnits env inputAmount (decimals (tokens_base pool))) ;;
   try_catch
     (if isEnhancedFluidPool pool then
        try_catch
          (getFluidRealPriceImpactQuote env pool inputAmount)
          (fun _priceImpactError =>
             try_catch
               (getFluidLiveQuote env pool inputAmount)
               (fun _liveQuoteError => getFluidEstimatedQuote pool inputAmount))
      else
        getFluidEstimatedQuote pool inputAmount)
     (fun _ => getFluidEstimatedQuote pool inputAmount))%js.

Definition successQuote (pool : PoolInfo) (inputAmount outputAmount : Z) : Quote :=
  {| pool := pool;
     inputAmount := inputAmount;
     outputAmount := outputAmount;
     success := true;
     error := None;
     protocolDetails := None |}.

Definition failedQuote (pool : PoolInfo) (inputAmount : Z) (e : JsError) : Quote :=
  {| pool := pool;
     inputAmount := inputAmount;
     outputAmount := 0;
     success := false;
     error := Some (errorMessage e);
     protocolDetails := None |}.

(** [{ ...zeroXResult.quote, protocolDetails: zeroXResult.protocolDetails }] *)
Definition zeroXQuote (r : ZeroX.ZeroXQuoteResult) : Quote :=
  let q := ZeroX.result_quote r in
  {| pool := pool q;
     inputAmount := amountOf env (inputAmount q);
     outputAmount := amountOf env (outputAmount q);
     success := success q;
     error := error q;
     protocolDetails := Some (ZeroX.result_protocolDetails r) |}.

Definition dexIs (pool : PoolInfo) (tag : string) : bool := String.eqb (dex pool) tag.

(** The [switch] on [pool.dex] of [getQuoteForPoolWithAmount]: the amount
    that the quoter of the protocol returns ([break]), or the complete quote
    of the aggregator ([return]). *)
Definition protocolQuote (pool : PoolInfo) (inputAmount : Z) (tokenPair : TokenPair)
  : M World (Z + Quote) :=
  (if dexIs pool "uniswap_v2" || dexIs pool "sushiswap" then
     outputAmount <- getUniswapV2Quote env pool inputAmount ;;
     ret (inl outputAmount)
   else if dexIs pool "uniswap_v3" then
     outputAmount <- getUniswapV3Quote env pool inputAmount ;;
     ret (inl outputAmount)
   else if dexIs pool "uniswap_v4" then
     outputAmount <- getUniswapV4Quote env pool inputAmount ;;
     ret (inl outputAmount)
   else if dexIs pool "curve" then
     outputAmount <- getCurveQuote env pool inputAmount ;;
     ret (inl outputAmount)
   else if dexIs pool "balancer" then
     ret (inl (Quoters.getBalancerQuote pool inputAmount))
   else if dexIs pool "fluid" then
     outputAmount <- getFluidQuote pool inputAmount ;;
     ret (inl outputAmount)
   else if dexIs pool "zerox" then
     zeroXResult <- ZeroX.getZeroXQuote (zeroX env) tokenPair ;;
     match zeroXResult with
     | None => throw (Error "ZeroX quote failed")
     | Some r => ret (inr (zeroXQuote r))
     end
   else
     throw (Error ("Unsupported DEX: " ++ dex pool)))%js.

(** [getQuoteForPoolWithAmount]: inside the [try], the [switch] and then the
    formatting of the two amounts for the log; the [catch] formats the input
    again and turns the exception into a failed quote. *)
Definition getQuoteForPoolWithAmount (pool : PoolInfo) (inputAmount : Z)
  (tokenPair : TokenPair) : M World Quote :=
  try_catch
    (quoted <- protocolQuote pool inputAmount tokenPair ;;
     match quoted with
     | inr quote => ret quote
     | inl outputAmount =>
       _inputAmountFormatted <-
         lift (formatUnits env inputAmount (decimals (tokens_base pool))) ;;
       _outputAmountFormatted <-
         lift (formatUnits env outputAmount (decimals (tokens_quote pool))) ;;
       ret (successQuote pool inputAmount outputAmount)
     end)%js
    (fun error =>
       (_inputFormatted <- lift (formatUnits env inputAmount (decimals (tokens_base pool))) ;;
        ret (failedQuote pool inputAmount error))%js).

(** The [for (const pool of pools)] loop of [simulateSwapsWithAmount];
    [quotes] is the array being filled by [push].  Its [catch] makes the
    same failed quote of an exception that leaves [getQuoteForPoolWithAmount]. *)
Fixpoint collectQuotes (pools : list PoolInfo) (inputAmount : Z) (tokenPair : TokenPair)
  (quotes : list Quote) : M World (list Quote) :=
  match pools with
  | [] => ret quotes
  | pool :: rest =>
    (quote <- try_catch
                (getQuoteForPoolWithAmount pool inputAmount tokenPair)
                (fun error => ret (failedQuote pool inputAmount error)) ;;
     collectQuotes rest inputAmount tokenPair (quotes ++ [quote]))%js
  end.

(** [simulateSwapsWithAmount]: the input is formatted for the console before
    the loop, outside any [try]. *)
Definition simulateSwapsWithAmount (pools : list PoolInfo) (inputAmount : Z)
  (tokenPair : TokenPair) : M World SwapSimulation :=
  (_inputFormatted <-
     lift (formatUnits env inputAmount (decimals (sellToken tokenPair))) ;;
   quotes <- collectQuotes pools inputAmount tokenPair [] ;;
   let successfulQuotes := filter success quotes in
   let rankings := Ranking.calculateRankings successfulQuotes in
   let bestQuote := match rankings with
                    | first :: _ => Some (quote first)
                    | [] => None
                    end in
   ret {| quotes := quotes; bestQuote := bestQuote; rankings := rankings |})%js.


End WithEnv.

(** A failed quote carries no output. *)
Definition failureHasNoOutput (q : Quote) : Prop :=
  success q = false -> outputAmount q = 0.

End Engine.

(** ** Rate-limited call executor: [AlchemyRateLimiter] (utils/rateLimiter.ts) *)
Module RateLimiter.

Definition retryDelays : list Z := [1000; 2000; 4000; 8000; 16000].

Definition option_eqb {A : Type} (eqb : A -> A -> bool) (x : option A) (y : A) : bool :=
  match x with
  | Some a => eqb a y
  | None => false
  end.

(** [error?.status === 429 || error?.code === 'RATE_LIMIT_EXCEEDED'] *)
Definition isRateLimitError (e : JsError) : bool :=
  option_eqb Z.eqb (status e) 429 || option_eqb String.eqb (code e) "RATE_LIMIT_EXCEEDED"%string.

Section Limiter.
Context {World T : Type}.

(** [await new Promise(resolve => setTimeout(resolve, ms))]: what the passage
    of [ms] milliseconds does to the world. *)
Variable elapse : Z -> World -> World.

(** The retry loop, by recursion on the delays that are still available:
    [executeWithRetry(fn, attempt)] sees [retryDelays.slice(attempt)], the test
    [attempt < retryDelays.length] is the test that this list is not empty and
    [retryDelays[attempt]] is its head.  The third component of the result is
    the list of the delays awaited, in order. *)
Fixpoint retryFrom (delays : list Z) (fn : M World T) (w : World)
  : Result T * World * list Z :=
  match fn w with
  | (Ok value, w') => (Ok value, w', [])
  | (Throw error, w') =>
    if isRateLimitError error then
      match delays with
      | delay :: rest =>
        let '(r, w'', awaited) := retryFrom rest fn (elapse delay w') in
        (r, w'', delay :: awaited)
      | [] => (Throw error, w', [])
      end
    else (Throw error, w', [])
  end.

Definition executeWithRetry (fn : M World T) (attempt : nat) (w : World)
  : Result T * World * list Z :=
  retryFrom (skipn attempt retryDelays) fn w.

(** [execute(fn)]: the queued request runs [executeWithRetry(fn)] and settles
    the caller's promise with its outcome.  Queueing and the per-second window
    of [processQueue] only postpone the start of the request. *)
Definition execute (fn : M World T) (w : World) : Result T * World * list Z :=
  executeWithRetry fn 0 w.

End Limiter.
End RateLimiter.

(** ** Tick alignment step of [getUniswapV3Quote] *)
Module TickAlign.

Definition MIN_TICK : Z := -887272.
Definition MAX_TICK : Z := 887272.

(** [Math.round]: nearest integer, halves towards plus infinity. *)
Definition Math_round (x : Q) : Z := Qfloor (x + (1 # 2)).

(** [Math.round(tick / tickSpacing) * tickSpacing]; the product of two
    integers of this size is exact. *)
Definition roundToSpacing (tick tickSpacing : Z) : Z :=
  Math_round (fdiv (inject_Z tick) (inject_Z tickSpacing)) * tickSpacing.

(** [nearestUsableTick] of the Uniswap V3 SDK, a dependency that is not part
    of the repository, after its published source: it throws ([None]) unless
    the spacing is positive and the tick within the bounds, and it steps one
    spacing inwards when rounding leaves the bounds. *)
Definition nearestUsableTick (tick tickSpacing : Z) : option Z :=
  if (0 <? tickSpacing) && (MIN_TICK <=? tick) && (tick <=? MAX_TICK) then
    let rounded := roundToSpacing tick tickSpacing in
    if rounded <? MIN_TICK then Some (rounded + tickSpacing)
    else if MAX_TICK <? rounded then Some (rounded - tickSpacing)
    else Some rounded
  else None.

(** The manual alignment of the [catch] block. *)
Definition manualAlign (rawTick tickSpacing : Z) : Z :=
  let aligned := roundToSpacing rawTick tickSpacing in
  Z.max MIN_TICK (Z.min MAX_TICK aligned).

(** The alignment step: the SDK function, and the manual alignment when the
    SDK function throws. *)
Definition validTick (sdk : Z -> Z -> option Z) (rawTick tickSpacing : Z) : Z :=
  match sdk rawTick tickSpacing with
  | Some v => v
  | None => manualAlign rawTick tickSpacing
  end.

End TickAlign.

(** ** First success of a chain of strategies

    The specification describes the Fluid quoter as strategies "attempted in
    order, with the result of the first success returned".  [firstSuccess]
    states that reading: each tier is tried where the one before threw, and
    the terminal fallback runs only when every tier has thrown. *)
Fixpoint firstSuccess {World A : Type} (tiers : list (M World A)) (fallback : M World A)
  : M World A :=
  match tiers with
  | [] => fallback
  | tier :: later => try_catch tier (fun _ => firstSuccess later fallback)
  end.

(** ** Runs of the retry loop

    [Throttled elapse fn delays awaited w w']: from the world [w], with the
    backoff delays [delays] still available, successive invocations of [fn]
    were each answered with a rate-limit error and followed by a wait; the
    waits were [awaited], in this order, and the world is then [w']. *)
Inductive Throttled {World T : Type} (elapse : Z -> World -> World) (fn : M World T)
  : list Z -> list Z -> World -> World -> Prop :=
| Throttled_nil : forall delays w, Throttled elapse fn delays [] w w
| Throttled_cons : forall delay rest awaited w error w1 w',
    fn w = (Throw error, w1) ->
    RateLimiter.isRateLimitError error = true ->
    Throttled elapse fn rest awaited (elapse delay w1) w' ->
    Throttled elapse fn (delay :: rest) (delay :: awaited) w w'.

(** [settles o awaited]: the outcome [o] of the invocation made after the
    waits [awaited] ends the loop: a value, an error that is no rate-limit
    signal, or any error once the five delays are used up. *)
Definition settles {T : Type} (o : Result T) (awaited : list Z) : Prop :=
  match o with
  | Ok _ => True
  | Throw error =>
    RateLimiter.isRateLimitError error = false \/ awaited = RateLimiter.retryDelays
  end.

(** ** Quotes of one pool

    [quoteFor env inputAmount pool outcome] is the quote that stands for the
    outcome of the protocol quoter of [pool]: the successful quote of the
    amount returned, the quote of the aggregator as it is, and the failed
    quote of an exception, be it the exception of the quoter or the one that
    [formatUnits] throws when it is given the amounts for the log. *)
Definition quoteFor {World : Type} (env : Engine.Env World) (inputAmount : Z)
  (pool : PoolInfo) (outcome : Result (Z + Quote)) : Quote :=
  match outcome with
  | Ok (inr quote) => quote
  | Ok (inl outputAmount) =>
    match Engine.formatUnits env inputAmount (decimals (tokens_base pool)),
          Engine.formatUnits env outputAmount (decimals (tokens_quote pool)) with
    | Ok _, Ok _ => Engine.successQuote pool inputAmount outputAmount
    | Ok _, Throw e => Engine.failedQuote pool inputAmount e
    | Throw e, _ => Engine.failedQuote pool inputAmount e
    end
  | Throw e =>
    match Engine.formatUnits env inputAmount (decimals (tokens_base pool)) with
    | Ok _ => Engine.failedQuote pool inputAmount e
    | Throw e' => Engine.failedQuote pool inputAmount e'
    end
  end.

(** [Collected env inputAmount tokenPair pools w quotes w']: the protocol
    quoters of [pools] are run one after the other from the world [w], in
    the order of the list, each on the world that the one before has left,
    and [quotes] are the quotes that stand for their outcomes, in the same
    order. *)
Inductive Collected {World : Type} (env : Engine.Env World) (inputAmount : Z)
  (tokenPair : TokenPair) : list PoolInfo -> World -> list Quote -> World -> Prop :=
| Collected_nil w : Collected env inputAmount tokenPair [] w [] w
| Collected_cons pool pools w outcome w1 quotes w' :
    Engine.protocolQuote env pool inputAmount tokenPair w = (outcome, w1) ->
    Collected env inputAmount tokenPair pools w1 quotes w' ->
    Collected env inputAmount tokenPair (pool :: pools) w
      (quoteFor env inputAmount pool outcome :: quotes) w'.

(** The simulation that is made of the quotes collected: the ranking of
    the quotes flagged successful, and the quote of its first entry. *)
Definition simulationOf (qs : list Quote) : SwapSimulation :=
  {| quotes := qs;
     bestQuote := match Ranking.calculateRankings (filter success qs) with
                  | first :: _ => Some (quote first)
                  | [] => None
                  end;
     rankings := Ranking.calculateRankings (filter success qs) |}.

(** ** The range of [formatUnits] and of the numbers

    [ethers.formatUnits] keeps an amount in a signed fixed-point format of
    512 bits with at most 80 decimals.  [formattable value decimals] holds of
    the amounts and decimals inside that format; [Renders formatUnits] says
    of a [formatUnits] that it renders them, as the one of the library does.
    [inRange pool inputAmount] holds of the inputs of a quoter that the
    library can format; with them the arithmetic of the estimates stays
    inside the range of doubles, which the model of numbers presupposes. *)
Definition formattable (value decimals : Z) : Prop :=
  Z.abs value < 2 ^ 511 /\ 0 <= decimals <= 80.

Definition Renders (formatUnits : Z -> Z -> Result string) : Prop :=
  forall value decimals,
    formattable value decimals -> exists rendered, formatUnits value decimals = Ok rendered.

Definition inRange (pool : PoolInfo) (inputAmount : Z) : Prop :=
  formattable inputAmount (decimals (tokens_base pool)) /\
  0 <= decimals (tokens_quote pool) <= 80.

(** ** Concrete pools and environments used in the examples *)
Module Examples.

Definition USDe : Token :=
  {| token_address := "0x4c9EDD5852cd905f086C759E8383e09bff1E68B3";
     symbol := "USDe"; decimals := 18 |}.
Definition USDT : Token :=
  {| token_address := "0xdAC17F958D2ee523a2206206994597C13D831ec7";
     symbol := "USDT"; decimals := 6 |}.
Definition WETH : Token :=
  {| token_address := "0xC02aaA39b223FE8D0A0e5C4F27eAD9083C756Cc2";
     symbol := "WETH"; decimals := 18 |}.

Definition poolOf (dexTag addr : string) (base quoteTok : Token) : PoolInfo :=
  {| address := addr; name := dexTag; dex := dexTag; network := "ethereum";
     tokens_base := base; tokens_quote := quoteTok; fee_tier := Some "3000"%string |}.

Definition pairOf (base quoteTok : Token) : TokenPair :=
  {| pair_id := "pair"; sellToken := base; buyToken := quoteTok; sellAmount := "0" |}.

(** The confirmed USDe/USDT Fluid pool, and another Fluid pool. *)
Definition fluidUSDe : PoolInfo :=
  poolOf "fluid" "0xF063BD202E45d6b2843102cb4EcE339026645D4a" USDe USDT.
Definition fluidOther : PoolInfo :=
  poolOf "fluid" "0x0000000000000000000000000000000000000001" USDe USDT.

(** A weighted pool quoting an 18-decimal token in a 6-decimal one. *)
Definition balancerPool : PoolInfo :=
  poolOf "balancer" "0x0000000000000000000000000000000000000002" USDe USDT.

Fixpoint lookup (table : list (string * Z)) (k : string) : option Z :=
  match table with
  | [] => None
  | (k', v) :: t => if String.eqb k' k then Some v else lookup t k
  end.

(** A chain whose contracts answer by pool address and revert for any other
    pool; every call is recorded in the world. *)
Definition scripted (tag : string) (table : list (string * Z))
  : PoolInfo -> Z -> M (list string) Z :=
  fun pool _ w =>
    match lookup table (address pool) with
    | Some out => (Ok out, w ++ [tag])
    | None => (Throw (Error "execution reverted"), w ++ [tag])
    end.

(** Decimal reading of [ethers.getBigInt]. *)
Definition decimalBigInt (s : string) : option Z :=
  option_map Z.of_int (NilZero.int_of_string s).

(** [ethers.formatUnits] for the examples: it refuses more than 80 decimals
    and an amount outside 512 signed bits, as the library does; the rendering
    is cut down to the digits of the amount and the messages to their first
    words. *)
Definition formatUnits (value decimals : Z) : Result string :=
  if 80 <? decimals then
    Throw {| isError := true; message := "invalid FixedNumber decimals (too large)";
             status := None; code := Some "INVALID_ARGUMENT"%string |}
  else if (- 2 ^ 511 <=? value) && (value <? 2 ^ 511) then Ok (ZeroX.toString value)
  else
    Throw {| isError := true; message := "overflow";
             status := None; code := Some "NUMERIC_FAULT"%string |}.

Definition zeroXOf (response : option ZeroX.ZeroXResponse) : ZeroX.Env (list string) :=
  {| ZeroX.zeroXApi_getQuote := fun _ w => (Ok response, w ++ ["zeroXApi.getQuote"%string]);
     ZeroX.getBigInt := decimalBigInt;
     ZeroX.extractProtocolInfo :=
       fun fills => map (fun f => {| ZeroX.protocol_name :=
                                       match ZeroX.source f with Some s => s | None => EmptyString end;
                                     ZeroX.percentage := 100 |}) fills;
     ZeroX.formatProtocolName := fun _ => "Matcha via aggregation"%string;
     ZeroX.getProtocolDetails := fun _ _ _ => "route"%string |}.

Definition chain (v2 v3 priceImpact live : list (string * Z))
  (response : option ZeroX.ZeroXResponse) : Engine.Env (list string) :=
  {| Engine.getUniswapV2Quote := scripted "getAmountsOut" v2;
     Engine.getUniswapV3Quote := scripted "quoteExactInputSingle" v3;
     Engine.getUniswapV4Quote := scripted "v4" [];
     Engine.getCurveQuote := scripted "get_dy" [];
     Engine.getFluidRealPriceImpactQuote := scripted "getFluidRealPriceImpactQuote" priceImpact;
     Engine.getFluidLiveQuote := scripted "getFluidLiveQuote" live;
     Engine.formatUnits := formatUnits;
     Engine.zeroX := zeroXOf response;
     Engine.amountOf := fun s => match decimalBigInt s with Some z => z | None => 0 end |}.

Definition fluidAddress : string := "0xF063BD202E45d6b2843102cb4EcE339026645D4a".

(** Both chain-backed Fluid tiers would answer. *)
Definition bothTiers : Engine.Env (list string) :=
  chain [] [] [(fluidAddress, 9999000000)] [(fluidAddress, 9998500000)] None.

(** Two pools whose outputs differ by one unit above [2^53]. *)
Definition poolA : PoolInfo := poolOf "uniswap_v2" "0xA" WETH USDe.
Definition poolB : PoolInfo := poolOf "uniswap_v3" "0xB" WETH USDe.
Definition closeOutputs : Engine.Env (list string) :=
  chain [("0xA"%string, 9007199254740992)] [("0xB"%string, 9007199254740993)] [] [] None.

Definition quoteOf (p : PoolInfo) (out : Z) : Quote := Engine.successQuote p 1000 out.

Definition dustRun : SwapSimulation :=
  simulationOf [Engine.successQuote balancerPool 1 0].

(** A rate-limited node: the world counts the calls, the first [n] of which
    are answered with HTTP 429. *)
Definition rateLimited (n : nat) : M nat Z :=
  fun calls =>
    if (calls <? n)%nat
    then (Throw {| isError := true; message := "Too Many Requests";
                   status := Some 429; code := None |}, S calls)
    else (Ok 42, S calls).

(** An aggregator response with a fee of 5 units on 1000 bought. *)
Definition feeResponse : ZeroX.ZeroXResponse :=
  {| ZeroX.liquidityAvailable := true;
     ZeroX.buyAmount := "1000";
     ZeroX.resp_sellAmount := "7";
     ZeroX.zeroExFee_amount := Some "5"%string;
     ZeroX.fills := [ {| ZeroX.source := Some "Uniswap_V3"%string;
                         ZeroX.proportionBps := Some "10000"%string |} ] |}.

(** What the adapter makes of [feeResponse]. *)
Definition feeResult : ZeroX.ZeroXQuoteResult :=
  {| ZeroX.result_quote :=
       {| pool := {| address := "zeroX-aggregator-pair";
                     name := "Matcha via aggregation";
                     dex := "Matcha via aggregation";
                     network := "ethereum";
                     tokens_base := WETH;
                     tokens_quote := USDT;
                     fee_tier := Some "variable"%string |};
          inputAmount := "7"%string; outputAmount := "1005"%string;
          success := true; error := None; protocolDetails := None |};
     ZeroX.protocols := [ {| ZeroX.protocol_name := "Uniswap_V3";
                             ZeroX.percentage := 100 |} ];
     ZeroX.totalFillCount := 1;
     ZeroX.result_protocolDetails := "route" |}.

End Examples.

(** ** More of JavaScript's strings

    A string stands for a JavaScript string through its UTF-8 bytes.  The
    functions below read digits, signs and white space; white space is the
    set that [parseInt] skips and that [\s] matches in a regular expression
    (WhiteSpace and LineTerminator of ECMAScript), each character by its
    UTF-8 encoding. *)
Module JSString.

Definition code (c : ascii) : nat := nat_of_ascii c.

Definition codeIn (c : ascii) (lo hi : nat) : bool :=
  (lo <=? code c)%nat && (code c <=? hi)%nat.

Definition isDigit (c : ascii) : bool := codeIn c 48 57.

Definition decimalDigit (c : ascii) : option Z :=
  if isDigit c then Some (Z.of_nat (code c) - 48) else None.

Definition hexDigit (c : ascii) : option Z :=
  if isDigit c then Some (Z.of_nat (code c) - 48)
  else if codeIn c 97 102 then Some (Z.of_nat (code c) - 87)
  else if codeIn c 65 70 then Some (Z.of_nat (code c) - 55)
  else None.

(** One white-space character at the head of a string, and what follows it:
    U+0009 to U+000D, U+0020, U+00A0, U+1680, U+2000 to U+200A, U+2028,
    U+2029, U+202F, U+205F, U+3000 and U+FEFF. *)
Definition stripWhiteSpaceChar (s : string) : option string :=
  match s with
  | EmptyString => None
  | String c r =>
    if codeIn c 9 13 || codeIn c 32 32 then Some r
    else
      match r with
      | String c2 r2 =>
        if codeIn c 194 194 && codeIn c2 160 160 then Some r2
        else
          match r2 with
          | String c3 r3 =>
            if codeIn c 225 225 && codeIn c2 154 154 && codeIn c3 128 128 then Some r3
            else if codeIn c 226 226 && codeIn c2 128 128 &&
                    (codeIn c3 128 138 || codeIn c3 168 169 || codeIn c3 175 175)
            then Some r3
            else if codeIn c 226 226 && codeIn c2 129 129 && codeIn c3 159 159 then Some r3
            else if codeIn c 227 227 && codeIn c2 128 128 && codeIn c3 128 128 then Some r3
            else if codeIn c 239 239 && codeIn c2 187 187 && codeIn c3 191 191 then Some r3
            else None
          | EmptyString => None
          end
      | EmptyString => None
      end
  end.

Fixpoint skipWhiteSpaceN (n : nat) (s : string) : string :=
  match n with
  | O => s
  | S n' =>
    match stripWhiteSpaceChar s with
    | Some r => skipWhiteSpaceN n' r
    | None => s
    end
  end.

(** The string without its leading white space. *)
Definition skipWhiteSpace (s : string) : string := skipWhiteSpaceN (String.length s) s.

(** The value of the longest run of digits at the head of [s], after the
    digits already read ([acc]), and the rest of the string. *)
Fixpoint readDigits (digit : ascii -> option Z) (radix acc : Z) (s : string) : Z * string :=
  match s with
  | EmptyString => (acc, s)
  | String c r =>
    match digit c with
    | Some d => readDigits digit radix (acc * radix + d) r
    | None => (acc, s)
    end
  end.

Definition startsWithDigit (digit : ascii -> option Z) (s : string) : bool :=
  match s with
  | EmptyString => false
  | String c _ => match digit c with Some _ => true | None => false end
  end.

(** [parseInt(s)] without a radix: [None] is NaN, [Some n] the integer read
    (the number is the double nearest to it; a negative zero is zero here).
    Leading white space and one sign are skipped, [0x] or [0X] selects
    hexadecimal digits, and what follows the digits is ignored. *)
Definition parseInt (s : string) : option Z :=
  let s := skipWhiteSpace s in
  let '(sign, s) :=
    match s with
    | String "-" r => (-1, r)
    | String "+" r => (1, r)
    | _ => (1, s)
    end in
  let '(digit, radix, s) :=
    match s with
    | String "0" (String "x" r) => (hexDigit, 16, r)
    | String "0" (String "X" r) => (hexDigit, 16, r)
    | _ => (decimalDigit, 10, s)
    end in
  if startsWithDigit digit s
  then Some (sign * fst (readDigits digit radix 0 s))
  else None.

(** [s.includes(pattern)] *)
Fixpoint includes (pattern s : string) : bool :=
  String.prefix pattern s ||
  match s with
  | EmptyString => false
  | String _ r => includes pattern r
  end.

(** [s || fallback] on an optional string: the empty string is falsy. *)
Definition orElse (s : option string) (fallback : string) : string :=
  match s with
  | Some v => if String.eqb v EmptyString then fallback else v
  | None => fallback
  end.

(** Truthiness of an optional string. *)
Definition truthy (s : option string) : bool :=
  match s with
  | Some v => negb (String.eqb v EmptyString)
  | None => false
  end.

End JSString.

(** ** Calls through the rate limiter

    [alchemyRateLimiter.execute(() => call)] as a computation: the call with
    its retries, the waits being part of what happens to the world. *)
Definition alchemyRateLimiter_execute {World T : Type} (elapse : Z -> World -> World)
  (fn : M World T) : M World T :=
  fun w => let '(r, w', _) := RateLimiter.execute elapse fn w in (r, w').

(** ** Uniswap V4: [getV4PoolConfig], [extractV3Fee], [getUniswapV4Quote] *)
Module V4.

Record ConfigToken : Type := mkConfigToken {
  cfg_address : string;
  cfg_symbol : string
}.

Record PairConfig : Type := mkPairConfig {
  token0 : ConfigToken;
  token1 : ConfigToken;
  cfg_fee : Z;
  cfg_tickSpacing : Z
}.

Definition nativeETH : ConfigToken :=
  {| cfg_address := "0x0000000000000000000000000000000000000000"; cfg_symbol := "ETH" |}.
Definition tokenUSDT : ConfigToken :=
  {| cfg_address := "0xdAC17F958D2ee523a2206206994597C13D831ec7"; cfg_symbol := "USDT" |}.
Definition tokenUNI : ConfigToken :=
  {| cfg_address := "0x1f9840a85d5aF5bf1D1762F925BDADdC4201F984"; cfg_symbol := "UNI" |}.
Definition tokenUSDC : ConfigToken :=
  {| cfg_address := "0xA0b86991c6218b36c1d19D4a2e9Eb0cE3606eB48"; cfg_symbol := "USDC" |}.
Definition tokenUSDe : ConfigToken :=
  {| cfg_address := "0x4c9EDD5852cd905f086C759E8383e09bff1E68B3"; cfg_symbol := "USDe" |}.

(** The table [tokenPairs] of [getV4PoolConfig]. *)
Definition tokenPairs : list (string * PairConfig) :=
  [ ("WETH-USDT", {| token0 := nativeETH; token1 := tokenUSDT; cfg_fee := 500; cfg_tickSpacing := 10 |});
    ("USDT-WETH", {| token0 := nativeETH; token1 := tokenUSDT; cfg_fee := 500; cfg_tickSpacing := 10 |});
    ("UNI-WETH", {| token0 := nativeETH; token1 := tokenUNI; cfg_fee := 3000; cfg_tickSpacing := 60 |});
    ("WETH-UNI", {| token0 := nativeETH; token1 := tokenUNI; cfg_fee := 3000; cfg_tickSpacing := 60 |});
    ("WETH-USDC", {| token0 := nativeETH; token1 := tokenUSDC; cfg_fee := 500; cfg_tickSpacing := 10 |});
    ("USDC-WETH", {| token0 := nativeETH; token1 := tokenUSDC; cfg_fee := 500; cfg_tickSpacing := 10 |});
    ("USDe-USDT", {| token0 := tokenUSDe; token1 := tokenUSDT; cfg_fee := 63; cfg_tickSpacing := 1 |});
    ("USDT-USDe", {| token0 := tokenUSDe; token1 := tokenUSDT; cfg_fee := 63; cfg_tickSpacing := 1 |})
  ]%string.

(** [table[key]] for a key that holds a hyphen, as every key built by
    [getV4PoolConfig] does: no inherited member has such a name. *)
Fixpoint lookup {A : Type} (table : list (string * A)) (key : string) : option A :=
  match table with
  | [] => None
  | (k, v) :: t => if String.eqb k key then Some v else lookup t key
  end.

Record V4PoolConfig : Type := mkV4PoolConfig {
  currency0 : string;
  currency1 : string;
  fee : Z;
  tickSpacing : Z;
  zeroForOne : bool
}.

Definition normalizeSymbol (symbol : string) : string :=
  if String.eqb symbol "ETH" then "WETH"%string else symbol.

Definition getV4PoolConfig (baseSymbol quoteSymbol : string) : option V4PoolConfig :=
  let normalizedBase := normalizeSymbol baseSymbol in
  let normalizedQuote := normalizeSymbol quoteSymbol in
  let key := (normalizedBase ++ "-" ++ normalizedQuote)%string in
  match lookup tokenPairs key with
  | None => None
  | Some config =>
    let '(currency0, currency1) :=
      if String.ltb (toLowerCase (cfg_address (token0 config)))
                    (toLowerCase (cfg_address (token1 config)))
      then (cfg_address (token0 config), cfg_address (token1 config))
      else (cfg_address (token1 config), cfg_address (token0 config)) in
    let normalizedBaseSymbol :=
      if String.eqb baseSymbol "WETH" then "ETH"%string else baseSymbol in
    let baseIsCurrency0 :=
      if String.eqb (cfg_symbol (token0 config)) normalizedBaseSymbol
      then String.eqb currency0 (cfg_address (token0 config))
      else if String.eqb (cfg_symbol (token1 config)) normalizedBaseSymbol
      then String.eqb currency0 (cfg_address (token1 config))
      else false in
    let zeroForOne := baseIsCurrency0 in
    Some {| currency0 := currency0;
            currency1 := currency1;
            fee := cfg_fee config;
            tickSpacing := cfg_tickSpacing config;
            zeroForOne := zeroForOne |}
  end.

(** [poolName.match(/(\d+)\s*bps?/i)]: the digits of the leftmost match, read
    as a decimal number.  At each position from the left the pattern needs a
    run of digits, taken whole since a digit can follow neither white space
    nor [b], then optional white space, then [bp] in either case. *)
Definition followedByBp (s : string) : bool :=
  match JSString.skipWhiteSpace s with
  | String b (String p _) =>
    (JSString.codeIn b 98 98 || JSString.codeIn b 66 66) &&
    (JSString.codeIn p 112 112 || JSString.codeIn p 80 80)
  | _ => false
  end.

Fixpoint matchBps (s : string) : option Z :=
  match s with
  | EmptyString => None
  | String c r =>
    if JSString.isDigit c then
      let '(digits, rest) := JSString.readDigits JSString.decimalDigit 10 0 s in
      if followedByBp rest then Some digits else matchBps r
    else matchBps r
  end.

(** [extractV3Fee(poolName)]: [None] is [null]. *)
Definition extractV3Fee (poolName : string) : option Z :=
  match matchBps poolName with
  | Some feeMatch => Some feeMatch
  | None =>
    if JSString.includes "0.05%" poolName || JSString.includes "5 bps" poolName then Some 500
    else if JSString.includes "0.3%" poolName || JSString.includes "30 bps" poolName then Some 3000
    else if JSString.includes "1%" poolName || JSString.includes "100 bps" poolName then Some 10000
    else None
  end.

(** The reference prices of the fallback of [getUniswapV4Quote]. *)
Definition fallbackPrices : list (string * Q) :=
  [("WETH", 2650); ("ETH", 2650); ("USDT", 1); ("USDC", 1); ("WBTC", 64000);
   ("UNI", 8); ("LINK", 11); ("USDe", 1); ("DAI", 1)]%string%Q.

(** [fallbackPrices[symbol] || 1] as a number: [None] where the lookup finds
    an inherited member, with which the arithmetic gives NaN. *)
Definition priceOr1 (sym : string) : option Q :=
  match lookup fallbackPrices sym with
  | Some p => Some (if Qeq_bool p 0 then 1%Q else p)
  | None => if includes objectPrototypeKeys sym then None else Some 1%Q
  end.

(** [x || y] on two numbers, [None] being NaN or [null]: zero is falsy. *)
Definition orNumber (x y : option Z) : option Z :=
  match x with
  | Some v => if v =? 0 then y else x
  | None => y
  end.

(** The amount that the [catch] block estimates from the price ratio; it
    throws where a NaN reaches [BigInt]. *)
Definition estimateAmount (pool : PoolInfo) (inputAmount : Z) : Result Z :=
  let baseSymbol := symbol (tokens_base pool) in
  let quoteSymbol := symbol (tokens_quote pool) in
  let baseDecimals := decimals (tokens_base pool) in
  let quoteDecimals := decimals (tokens_quote pool) in
  let fee := orNumber (extractV3Fee (name pool))
                      (JSString.parseInt (JSString.orElse (fee_tier pool) "3000")) in
  match priceOr1 baseSymbol, priceOr1 quoteSymbol, fee with
  | Some basePrice, Some quotePrice, Some fee =>
    let priceRatio := fdiv basePrice quotePrice in
    let inputAmountFloat := fdiv (parseFloat inputAmount) (Quoters.pow10 baseDecimals) in
    let feeRate := fsub 1 (fdiv (parseFloat fee) 1000000) in
    let outputAmountFloat := fmul (fmul inputAmountFloat priceRatio) feeRate in
    let estimatedOut := Qfloor (fmul outputAmountFloat (Quoters.pow10 quoteDecimals)) in
    Ok estimatedOut
  | _, _, _ => Throw notAnInteger
  end.

(** [QuoteExactSingleParams] with its [PoolKey]. *)
Record QuoteExactSingleParams : Type := mkQuoteParams {
  poolKey_currency0 : string;
  poolKey_currency1 : string;
  poolKey_fee : Z;
  poolKey_tickSpacing : Z;
  poolKey_hooks : string;
  params_zeroForOne : bool;
  exactAmount : Z;
  hookData : string
}.

Definition UNISWAP_V4_QUOTER : string := "0x52f0e24d1c21c8a0cb1e5a5dd6198556bd9e1203".

(** What the V4 quoter takes from outside: [provider.getCode], the static
    call of [quoteExactInputSingle] (amount out and gas estimate), the
    passing of time during the waits of the rate limiter, and
    [ethers.formatUnits] (the rendering, or the exception it throws). *)
Record Env {World : Type} : Type := mkEnv {
  getCode : string -> M World string;
  quoteExactInputSingle : QuoteExactSingleParams -> M World (Z * Z);
  elapse : Z -> World -> World;
  formatUnits : Z -> Z -> Result string
}.
Arguments Env : clear implicits.

Section Quoter.
Context {World : Type} (env : Env World).

(** The [catch] block: the estimate, formatted for the console before it is
    returned. *)
Definition estimate (pool : PoolInfo) (inputAmount : Z) : Result Z :=
  match estimateAmount pool inputAmount with
  | Ok estimatedOut =>
    match formatUnits env estimatedOut (decimals (tokens_quote pool)) with
    | Ok _ => Ok estimatedOut
    | Throw e => Throw e
    end
  | Throw e => Throw e
  end.

Definition quoteParams (config : V4PoolConfig) (inputAmount : Z) : QuoteExactSingleParams :=
  {| poolKey_currency0 := currency0 config;
     poolKey_currency1 := currency1 config;
     poolKey_fee := fee config;
     poolKey_tickSpacing := tickSpacing config;
     poolKey_hooks := "0x0000000000000000000000000000000000000000";
     params_zeroForOne := zeroForOne config;
     exactAmount := inputAmount;
     hookData := "0x" |}.

(** [getUniswapV4Quote]: the input is formatted for the console before the
    [try]; then the quoter contract for a configured pair, with the input and
    the answer formatted for the sanity check, and the price-ratio estimate
    on any exception.  The sanity check itself only writes to the console. *)
Definition getUniswapV4Quote (pool : PoolInfo) (inputAmount : Z) : M World Z :=
  let baseSymbol := symbol (tokens_base pool) in
  let quoteSymbol := symbol (tokens_quote pool) in
  let baseDecimals := decimals (tokens_base pool) in
  let quoteDecimals := decimals (tokens_quote pool) in
  (_ <- lift (formatUnits env inputAmount baseDecimals) ;;
   try_catch
     (match getV4PoolConfig baseSymbol quoteSymbol with
      | None =>
        throw (Error ("No V4 pool configuration found for " ++ baseSymbol ++ "/" ++ quoteSymbol))
      | Some v4PoolConfig =>
        _ <- getCode env UNISWAP_V4_QUOTER ;;
        result <- alchemyRateLimiter_execute (elapse env)
                    (quoteExactInputSingle env (quoteParams v4PoolConfig inputAmount)) ;;
        let '(amountOut, gasEstimate) := result in
        _inputAmountFloat <- lift (formatUnits env inputAmount baseDecimals) ;;
        let outputAmount := amountOut in
        _outputFormatted <- lift (formatUnits env outputAmount quoteDecimals) ;;
        ret outputAmount
      end)
     (fun _ => lift (estimate pool inputAmount)))%js.

End Quoter.
End V4.

(** ** Curve: [getCurveQuote] *)
Module Curve.

(** The two functions of the pool contract: [coins(index)] and
    [get_dy(i, j, dx)], by pool address; and [ethers.formatUnits] (the
    rendering, or the exception it throws). *)
Record Env {World : Type} : Type := mkEnv {
  coins : string -> Z -> M World string;
  get_dy : string -> Z -> Z -> Z -> M World Z;
  formatUnits : Z -> Z -> Result string
}.
Arguments Env : clear implicits.

Definition THREE_POOL : string := "0xbebc44782c7db0a1a60cb6fe97d0b483032ff1c7".

Section Quoter.
Context {World : Type} (env : Env World).

(** The loop over the token positions: [i] and [j] take the position of the
    base and of the quote token; the first position that the contract does
    not answer ends the loop ([break]). *)
Fixpoint findIndices (tokenIndexes : list Z) (pool : PoolInfo) (i j : Z) : M World (Z * Z) :=
  match tokenIndexes with
  | [] => ret (i, j)
  | tokenIndex :: later =>
    fun w =>
      match coins env (address pool) tokenIndex w with
      | (Ok tokenAddress, w') =>
        let i := if String.eqb (toLowerCase tokenAddress)
                               (toLowerCase (token_address (tokens_base pool)))
                 then tokenIndex else i in
        let j := if String.eqb (toLowerCase tokenAddress)
                               (toLowerCase (token_address (tokens_quote pool)))
                 then tokenIndex else j in
        findIndices later pool i j w'
      | (Throw _, w') => (Ok (i, j), w')
      end
  end.

(** The inner [try]: the positions found, or the known positions of the
    3Pool when they could not be found, or the exception. *)
Definition tokenIndices (pool : PoolInfo) : M World (Z * Z) :=
  try_catch
    (ij <- findIndices [0; 1; 2] pool (-1) (-1) ;;
     let '(i, j) := ij in
     if (i =? -1) || (j =? -1) then
       throw (Error ("Could not find token indices: base=" ++ symbol (tokens_base pool)
                     ++ "@" ++ ZeroX.toString i ++ ", quote=" ++ symbol (tokens_quote pool)
                     ++ "@" ++ ZeroX.toString j))
     else ret (i, j))%js
    (fun error =>
       if String.eqb (toLowerCase (address pool)) THREE_POOL
       then ret (1, 0)
       else throw error).

(** [outputAmountNum > maxReasonableOutput] *)
Definition unreasonablyHigh (pool : PoolInfo) (inputAmount amountOut : Z) : bool :=
  let inputAmountNum := parseFloat inputAmount in
  let outputAmountNum := parseFloat amountOut in
  let decimalDiff := decimals (tokens_quote pool) - decimals (tokens_base pool) in
  let expectedRatio := Quoters.pow10 decimalDiff in
  let maxReasonableOutput := fmul (fmul inputAmountNum expectedRatio) 1000 in
  ltb maxReasonableOutput outputAmountNum.

(** [getCurveQuote]; the input and the answer of [get_dy] are formatted for
    the console inside the [try]. *)
Definition getCurveQuote (pool : PoolInfo) (inputAmount : Z) : M World Z :=
  try_catch
    (ij <- tokenIndices pool ;;
     let '(i, j) := ij in
     amountOut <- get_dy env (address pool) i j inputAmount ;;
     _ <- lift (formatUnits env inputAmount (decimals (tokens_base pool))) ;;
     _ <- lift (formatUnits env amountOut (decimals (tokens_quote pool))) ;;
     if unreasonablyHigh pool inputAmount amountOut then
       let decimalDiff := decimals (tokens_quote pool) - decimals (tokens_base pool) in
       ret (inputAmount * Quoters.bigPow10 (Z.max 0 decimalDiff))
     else ret amountOut)%js
    (fun _ => ret (Quoters.decimalAdjust pool inputAmount)).

End Quoter.
End Curve.

(** ** Uniswap V3: [getUniswapV3Quote] *)
Module V3.

(** [V3_FEE_TIERS[fee]]: the fee amount of the SDK for a supported fee. *)
Definition V3_FEE_TIERS (fee : Z) : option Z :=
  if (fee =? 100) || (fee =? 500) || (fee =? 3000) || (fee =? 10000) then Some fee else None.

(** [TICK_SPACINGS] of the SDK for the four fee amounts. *)
Definition TICK_SPACINGS (feeAmount : Z) : Z :=
  if feeAmount =? 100 then 1
  else if feeAmount =? 500 then 10
  else if feeAmount =? 3000 then 60
  else 200.

(** The state of a pool as [slot0()] and [liquidity()] give it. *)
Record PoolState : Type := mkPoolState {
  sqrtPriceX96 : Z;
  tick : Z;
  liquidity : Z
}.

(** What the V3 quoter takes from outside: the SDK ([new Token], which checks
    the token, [computePoolAddress], and the trade computed from a pool
    instance: [new Pool], [new Route], [Trade.exactIn] and the reading of its
    output), the two reads of the pool state, the quoter contract, the
    rendering of a number in a message, the passing of time during the
    waits of the rate limiter, and [ethers.formatUnits] (the rendering, or
    the exception it throws). *)
Record Env {World : Type} : Type := mkEnv {
  newToken : Token -> M World unit;
  computePoolAddress : Token -> Token -> Z -> M World string;
  readPoolState : PoolInfo -> M World PoolState;
  tradeExactIn : PoolInfo -> Z -> PoolState -> Z -> Z -> M World Z;
  quoter_quoteExactInputSingle : string -> string -> Z -> Z -> Z -> M World Z;
  showNumber : option Z -> string;
  elapse : Z -> World -> World;
  formatUnits : Z -> Z -> Result string
}.
Arguments Env : clear implicits.

Section Quoter.
Context {World : Type} (env : Env World).

(** Method 1, the [try] block of the SDK: [Some] output where it returns,
    [None] where the addresses do not match.  The output is formatted for
    the console before it is returned. *)
Definition sdkQuote (pool : PoolInfo) (feeAmount inputAmount : Z) : M World (option Z) :=
  (computedPoolAddress <- computePoolAddress env (tokens_base pool) (tokens_quote pool) feeAmount ;;
   let addressesMatch :=
     String.eqb (toLowerCase computedPoolAddress) (toLowerCase (address pool)) in
   if addressesMatch then
     state <- readPoolState env pool ;;
     let rawTick := tick state in
     let tickSpacing := TICK_SPACINGS feeAmount in
     let validTick := TickAlign.validTick TickAlign.nearestUsableTick rawTick tickSpacing in
     if liquidity state =? 0 then throw (Error "Pool has zero liquidity")
     else
       outputAmount <- tradeExactIn env pool feeAmount state validTick inputAmount ;;
       _ <- lift (formatUnits env outputAmount (decimals (tokens_quote pool))) ;;
       ret (Some outputAmount)
   else ret None)%js.

(** Method 2: the quoter contract, called through the rate limiter; the
    answer is formatted for the console before it is returned. *)
Definition quoterQuote (pool : PoolInfo) (fee inputAmount : Z) : M World Z :=
  (amountOut <- alchemyRateLimiter_execute (elapse env)
                  (quoter_quoteExactInputSingle env
                     (token_address (tokens_base pool))
                     (token_address (tokens_quote pool))
                     fee inputAmount 0) ;;
   _ <- lift (formatUnits env amountOut (decimals (tokens_quote pool))) ;;
   ret amountOut)%js.

(** [getUniswapV3Quote]: the input is formatted for the console before the
    [try]; the [catch] throws again what it caught. *)
Definition getUniswapV3Quote (pool : PoolInfo) (inputAmount : Z) : M World Z :=
  (_ <- lift (formatUnits env inputAmount (decimals (tokens_base pool))) ;;
   try_catch
     (_ <- newToken env (tokens_base pool) ;;
      _ <- newToken env (tokens_quote pool) ;;
      let fee := JSString.parseInt (JSString.orElse (fee_tier pool) "3000") in
      match match fee with Some f => V3_FEE_TIERS f | None => None end with
      | None =>
        throw (Error ("Unsupported fee tier " ++ showNumber env fee
                      ++ ", pool may have custom fee"))
      | Some feeAmount =>
        sdk <- try_catch (sdkQuote pool feeAmount inputAmount) (fun _sdkError => ret None) ;;
        match sdk with
        | Some outputAmount => ret outputAmount
        | None => quoterQuote pool feeAmount inputAmount
        end
      end)
     (fun error => throw error))%js.

End Quoter.
End V3.

(** ** A [Map] with string keys

    A JavaScript [Map] keeps its entries in the order in which their keys
    were first set; setting a key again replaces the value in place. *)
Module JSMap.

Fixpoint get {V : Type} (m : list (string * V)) (key : string) : option V :=
  match m with
  | [] => None
  | (k, v) :: t => if String.eqb k key then Some v else get t key
  end.

Fixpoint set {V : Type} (m : list (string * V)) (key : string) (value : V)
  : list (string * V) :=
  match m with
  | [] => [(key, value)]
  | (k, v) :: t =>
    if String.eqb k key then (k, value) :: t else (k, v) :: set t key value
  end.

Definition has {V : Type} (m : list (string * V)) (key : string) : bool :=
  match get m key with Some _ => true | None => false end.

End JSMap.

(** ** The protocols of an aggregator route: [extractProtocolInfo] *)
Module ZeroXQuoteService.

(** [parseInt(fill.proportionBps) || 0] *)
Definition bpsOf (proportionBps : string) : Q :=
  match JSString.parseInt proportionBps with
  | Some bps => parseFloat bps
  | None => 0
  end.

(** The callback of [fills.forEach]: the share of a fill is added to the
    total of its source. *)
Definition addFill (protocolMap : list (string * Q)) (fill : ZeroX.Fill) : list (string * Q) :=
  match ZeroX.source fill, ZeroX.proportionBps fill with
  | Some source, Some proportionBps =>
    if JSString.truthy (Some source) && JSString.truthy (Some proportionBps) then
      let bps := bpsOf proportionBps in
      if ltb 0 bps then
        let existing := match JSMap.get protocolMap source with
                        | Some total => total
                        | None => 0%Q
                        end in
        JSMap.set protocolMap source (fadd existing bps)
      else protocolMap
    else protocolMap
  | _, _ => protocolMap
  end.

(** [(a, b) => b.percentage - a.percentage] *)
Definition byPercentageDesc (a b : ZeroX.ZeroXProtocolInfo) : Q :=
  fsub (inject_Z (ZeroX.percentage b)) (inject_Z (ZeroX.percentage a)).

Definition extractProtocolInfo (fills : list ZeroX.Fill) : list ZeroX.ZeroXProtocolInfo :=
  match fills with
  | [] => []
  | _ :: _ =>
    let protocolMap := fold_left addFill fills [] in
    match protocolMap with
    | [] => []
    | _ :: _ =>
      let protocols :=
        map (fun '(source, totalBps) =>
               {| ZeroX.protocol_name := source;
                  ZeroX.percentage := TickAlign.Math_round (fdiv totalBps 100) |})
            protocolMap in
      Ranking.sort byPercentageDesc protocols
    end
  end.

End ZeroXQuoteService.

(** ** The client of the aggregator: [ZeroXApiService] (zeroXApi.ts) *)
Module ZeroXApiService.

(** [getQuote]: the answer of the HTTP request, [null] on any exception. *)
Definition getQuote {World : Type}
  (client_get : TokenPair -> M World (option ZeroX.ZeroXResponse))
  (tokenPair : TokenPair) : M World (option ZeroX.ZeroXResponse) :=
  try_catch (client_get tokenPair) (fun _ => ret None).

Record ProtocolRanking : Type := mkProtocolRanking {
  protocol : string;
  totalProportion : Q;
  effectiveRate : Z;
  rank : Z
}.

(** [(a, b) => b.effectiveRate - a.effectiveRate] *)
Definition byRateDesc (a b : ProtocolRanking) : Q :=
  fsub (inject_Z (effectiveRate b)) (inject_Z (effectiveRate a)).

(** [calculateProtocolRanking]; the protocol entries of this file carry the
    source a second time, which the ranking does not read. *)
Definition calculateProtocolRanking (allFills : list ZeroX.Fill) : list ProtocolRanking :=
  let protocols := ZeroXQuoteService.extractProtocolInfo allFills in
  let rankings :=
    map (fun p => {| protocol := ZeroX.protocol_name p;
                     totalProportion := fmul (inject_Z (ZeroX.percentage p)) 100;
                     effectiveRate := ZeroX.percentage p;
                     rank := 0 |})
        protocols in
  let rankings := Ranking.sort byRateDesc rankings in
  Ranking.mapi (fun ranking index =>
                  {| protocol := protocol ranking;
                     totalProportion := totalProportion ranking;
                     effectiveRate := effectiveRate ranking;
                     rank := index + 1 |})
               rankings.

End ZeroXApiService.

(** ** The quote log kept on [window]: [storeQuoteLog] *)
Module QuoteLog.

(** A log entry; the amounts are the formatted strings, the timing fields and
    the metadata are left out. *)
Record LogEntry : Type := mkLogEntry {
  poolType : string;
  method : string;
  log_inputAmount : string;
  log_outputAmount : string
}.

(** [storeQuoteLog] in a browser: the new state of [window.quoteSystemLogs]. *)
Definition storeQuoteLog (logEntry : LogEntry) (quoteSystemLogs : list LogEntry)
  : list LogEntry :=
  let logs := logEntry :: quoteSystemLogs in
  if (500 <? List.length logs)%nat then firstn 500 logs else logs.

(** [array.slice(0, end)] for an integer [end]. *)
Definition slice0 {A : Type} (l : list A) (end_ : Z) : list A :=
  let len := Z.of_nat (List.length l) in
  let final := if end_ <? 0 then Z.max (len + end_) 0 else Z.min end_ len in
  firstn (Z.to_nat final) l.

(** [window.getQuoteLogs(poolType?, count = 50)] *)
Definition getQuoteLogs (quoteSystemLogs : list LogEntry) (poolType : option string)
  (count : option Z) : list LogEntry :=
  let count := match count with Some c => c | None => 50 end in
  let filtered :=
    if JSString.truthy poolType
    then filter (fun log => match poolType with
                            | Some p => String.eqb (QuoteLog.poolType log) p
                            | None => false
                            end) quoteSystemLogs
    else quoteSystemLogs in
  slice0 filtered count.

End QuoteLog.

(** ** The comparison of a token pair: [EnhancedDexComparisonService]
    (enhancedDexComparisonService.ts) *)
Module Comparison.

Record ProtocolSummary : Type := mkSummary {
  summary_protocol : string;
  poolCount : Z;
  bestRank : option Z;
  avgRank : option Z;
  summary_bestQuote : option Quote
}.

(** The value that [generateProtocolSummary] keeps per protocol. *)
Record ProtocolData : Type := mkData {
  pools : list Quote;
  data_bestQuote : option Quote;
  data_rankings : list Z
}.

(** The first [forEach]: a successful quote joins the pools of its protocol. *)
Definition addQuote (protocolMap : list (string * ProtocolData)) (quote : Quote)
  : list (string * ProtocolData) :=
  let protocol := dex (pool quote) in
  let protocolMap :=
    if negb (JSMap.has protocolMap protocol)
    then JSMap.set protocolMap protocol
           {| pools := []; data_bestQuote := None; data_rankings := [] |}
    else protocolMap in
  match JSMap.get protocolMap protocol with
  | Some protocolData =>
    JSMap.set protocolMap protocol
      {| pools := pools protocolData ++ [quote];
         data_bestQuote := data_bestQuote protocolData;
         data_rankings := data_rankings protocolData |}
  | None => protocolMap
  end.

(** The second [forEach]: a ranking adds its rank to its protocol, and its
    quote becomes the best quote of the protocol if there is none yet or if
    the rank is 1. *)
Definition addRanking (protocolMap : list (string * ProtocolData)) (ranking : PoolRanking)
  : list (string * ProtocolData) :=
  let protocol := dex (ranking_pool ranking) in
  match JSMap.get protocolMap protocol with
  | Some protocolData =>
    let bestQuote :=
      match data_bestQuote protocolData with
      | None => Some (quote ranking)
      | Some q => if rank ranking =? 1 then Some (quote ranking) else Some q
      end in
    JSMap.set protocolMap protocol
      {| pools := pools protocolData;
         data_bestQuote := bestQuote;
         data_rankings := data_rankings protocolData ++ [rank ranking] |}
  | None => protocolMap
  end.

(** [Math.min(...rankings)] of a list that is not empty. *)
Definition Math_min (first : Z) (others : list Z) : Z := fold_left Z.min others first.

Definition sum (l : list Z) : Z := fold_left Z.add l 0.

Definition summaryOf (entry : string * ProtocolData) : ProtocolSummary :=
  let '(protocol, data) := entry in
  let rankings := data_rankings data in
  {| summary_protocol := protocol;
     poolCount := Z.of_nat (List.length (pools data));
     bestRank := match rankings with
                 | first :: others => Some (Math_min first others)
                 | [] => None
                 end;
     avgRank := match rankings with
                | _ :: _ =>
                  Some (TickAlign.Math_round
                          (fdiv (inject_Z (sum rankings))
                                (inject_Z (Z.of_nat (List.length rankings)))))
                | [] => None
                end;
     summary_bestQuote := data_bestQuote data |}.

(** The comparator of the final sort: a summary without a rank goes behind. *)
Definition byBestRank (a b : ProtocolSummary) : Q :=
  match bestRank a, bestRank b with
  | None, _ => 1
  | Some _, None => -1
  | Some ra, Some rb => fsub (inject_Z ra) (inject_Z rb)
  end.

(** [generateProtocolSummary].  Where two summaries have no rank the
    comparator answers 1 both ways, so that it is not consistent and
    ECMAScript leaves the order of the result to the implementation; the
    sort is therefore the insertion as V8 runs it, which leaves the
    summaries without a rank behind the others in the order of the map. *)
Definition generateProtocolSummary (simulation : SwapSimulation) : list ProtocolSummary :=
  let protocolMap := fold_left addQuote (filter success (quotes simulation)) [] in
  let protocolMap := fold_left addRanking (rankings simulation) protocolMap in
  let summary := map summaryOf protocolMap in
  Ranking.binaryInsertionSort byBestRank summary.

Record ComparisonResult : Type := mkResult {
  pair : TokenPair;
  totalPoolsFound : Z;
  successfulQuotes : Z;
  simulation : SwapSimulation;
  bestProtocol : option string;
  protocolSummary : list ProtocolSummary
}.

Definition createEmptyResult (pair : TokenPair) : ComparisonResult :=
  {| pair := pair;
     totalPoolsFound := 0;
     successfulQuotes := 0;
     simulation := {| quotes := []; bestQuote := None; rankings := [] |};
     bestProtocol := None;
     protocolSummary := [] |}.

(** What the comparison takes from outside: the registry of hard-coded pools
    ([HardcodedPoolService.getPoolsForPair]), the pool search of CoinGecko,
    [BigInt] of a string ([None] where it throws) and the quoting engine. *)
Record Env {World : Type} : Type := mkEnv {
  getPoolsForPair : TokenPair -> list PoolInfo;
  findPoolsForPair : TokenPair -> M World (list PoolInfo);
  BigInt : string -> option Z;
  quoteService : Engine.Env World
}.
Arguments Env : clear implicits.

Section Service.
Context {World : Type} (env : Env World).

Definition isEmpty {A : Type} (l : list A) : bool :=
  match l with [] => true | _ :: _ => false end.

(** [compareTokenPairDirect]; the time stamp, the USD target and the pricing
    information of the result are left out. *)
Definition compareTokenPairDirect (dynamicPair : TokenPair) : M World ComparisonResult :=
  try_catch
    (let pools := getPoolsForPair env dynamicPair in
     pools <- (if isEmpty pools then findPoolsForPair env dynamicPair else ret pools) ;;
     if isEmpty pools then ret (createEmptyResult dynamicPair)
     else
       match BigInt env (sellAmount dynamicPair) with
       | None => throw (Error "Cannot convert to a BigInt")
       | Some sellAmountBigInt =>
         simulation <- Engine.simulateSwapsWithAmount (quoteService env) pools
                         sellAmountBigInt dynamicPair ;;
         let protocolSummary := generateProtocolSummary simulation in
         let bestProtocol := match protocolSummary with
                             | first :: _ => Some (summary_protocol first)
                             | [] => None
                             end in
         ret {| pair := dynamicPair;
                totalPoolsFound := Z.of_nat (List.length pools);
                successfulQuotes :=
                  Z.of_nat (List.length (filter success (quotes simulation)));
                simulation := simulation;
                bestProtocol := bestProtocol;
                protocolSummary := protocolSummary |}
       end)%js
    (fun _ => ret (createEmptyResult dynamicPair)).

(** [compareTokenPair]: the pair goes on as it is; the USD target, the time
    stamp and the price source that are added to it belong to the fields
    left out. *)
Definition compareTokenPair (tokenPair : TokenPair) : M World ComparisonResult :=
  compareTokenPairDirect tokenPair.

End Service.
End Comparison.

(** ** Definitions used in the statements and proofs below *)

(** [isStablecoinPair] of [getFluidEstimatedQuote]. *)
Definition isStablecoinPair (pool : PoolInfo) : bool :=
  includes Quoters.stablecoins (symbol (tokens_base pool)) &&
  includes Quoters.stablecoins (symbol (tokens_quote pool)).

Fixpoint noHyphen (s : string) : bool :=
  match s with
  | EmptyString => true
  | String c r => negb (Ascii.eqb c "-") && noHyphen r
  end.

(** The keys of [V4.tokenPairs] as pairs of symbols, and the pairs of symbols
    that reach them, ETH standing for WETH. *)
Definition configuredKeys : list (string * string) :=
  [("WETH", "USDT"); ("USDT", "WETH"); ("UNI", "WETH"); ("WETH", "UNI");
   ("WETH", "USDC"); ("USDC", "WETH"); ("USDe", "USDT"); ("USDT", "USDe")]%string.

Definition configuredPairs : list (string * string) :=
  [("WETH", "USDT"); ("ETH", "USDT"); ("USDT", "WETH"); ("USDT", "ETH");
   ("UNI", "WETH"); ("UNI", "ETH"); ("WETH", "UNI"); ("ETH", "UNI");
   ("WETH", "USDC"); ("ETH", "USDC"); ("USDC", "WETH"); ("USDC", "ETH");
   ("USDe", "USDT"); ("USDT", "USDe")]%string.

(** ** More concrete pools and environments *)
Module Scenarios.

Definition USDC : Token :=
  {| token_address := "0xA0b86991c6218b36c1d19D4a2e9Eb0cE3606eB48";
     symbol := "USDC"; decimals := 6 |}.
Definition DAI : Token :=
  {| token_address := "0x6B175474E89094C44Da98b954EedeAC495271d0F";
     symbol := "DAI"; decimals := 18 |}.

(** Two V4 pools of the registry for the same pair, with different fees. *)
Definition v4USDe63 : PoolInfo :=
  {| address := "0x0000000000000000000000000000000000000063";
     name := "USDe/USDT 0.0063%"; dex := "uniswap_v4"; network := "ethereum";
     tokens_base := Examples.USDe; tokens_quote := Examples.USDT;
     fee_tier := Some "63"%string |}.
Definition v4USDe30 : PoolInfo :=
  {| address := "0x0000000000000000000000000000000000000030";
     name := "USDe/USDT 0.003%"; dex := "uniswap_v4"; network := "ethereum";
     tokens_base := Examples.USDe; tokens_quote := Examples.USDT;
     fee_tier := Some "30"%string |}.

(** A V4 pool whose fee cannot be read. *)
Definition v4NoFee : PoolInfo :=
  {| address := "0x0000000000000000000000000000000000000004";
     name := "WETH/USDT"; dex := "uniswap_v4"; network := "ethereum";
     tokens_base := Examples.WETH; tokens_quote := Examples.USDT;
     fee_tier := Some "variable"%string |}.

(** A V4 pool from the 6-decimal USDT to the 18-decimal WETH. *)
Definition v4USDTtoWETH : PoolInfo :=
  {| address := "0x0000000000000000000000000000000000000005";
     name := "USDT/WETH"; dex := "uniswap_v4"; network := "ethereum";
     tokens_base := Examples.USDT; tokens_quote := Examples.WETH;
     fee_tier := Some "500"%string |}.

(** A V4 quoter that answers every call with [amountOut], and one that
    reverts; the world records the calls. *)
Definition v4Answers (amountOut : Z) : V4.Env (list string) :=
  {| V4.getCode := fun _ w => (Ok "0x6080"%string, w ++ ["getCode"%string]);
     V4.quoteExactInputSingle :=
       fun _ w => (Ok (amountOut, 150000), w ++ ["quoteExactInputSingle"%string]);
     V4.elapse := fun _ w => w;
     V4.formatUnits := Examples.formatUnits |}.
Definition v4Reverts : V4.Env (list string) :=
  {| V4.getCode := fun _ w => (Ok "0x6080"%string, w ++ ["getCode"%string]);
     V4.quoteExactInputSingle :=
       fun _ w => (Throw (Error "execution reverted"), w ++ ["quoteExactInputSingle"%string]);
     V4.elapse := fun _ w => w;
     V4.formatUnits := Examples.formatUnits |}.

(** The Curve pools of the registry, and pool contracts: one that holds
    USDe and USDT and answers [get_dy], one that answers nothing. *)
Definition curveUSDe : PoolInfo :=
  {| address := "0x5b03cccab7ba3010fa5cad23746cbf0794938e96";
     name := "USDT/USDe Curve"; dex := "curve"; network := "ethereum";
     tokens_base := Examples.USDe; tokens_quote := Examples.USDT; fee_tier := None |}.
Definition curve3Pool : PoolInfo :=
  {| address := "0xbEbc44782C7dB0a1A60Cb6fe97d0b483032FF1C7";
     name := "USDC/DAI Curve 3Pool"; dex := "curve"; network := "ethereum";
     tokens_base := USDC; tokens_quote := DAI; fee_tier := None |}.

Definition curveAnswers (amountOut : Z) : Curve.Env (list string) :=
  {| Curve.coins := fun _ index w =>
       if index =? 0 then (Ok (token_address Examples.USDe), w ++ ["coins"%string])
       else if index =? 1 then (Ok (token_address Examples.USDT), w ++ ["coins"%string])
       else (Throw (Error "execution reverted"), w ++ ["coins"%string]);
     Curve.get_dy := fun _ _ _ _ w => (Ok amountOut, w ++ ["get_dy"%string]);
     Curve.formatUnits := Examples.formatUnits |}.
Definition curveDown : Curve.Env (list string) :=
  {| Curve.coins := fun _ _ w => (Throw (Error "network error"), w ++ ["coins"%string]);
     Curve.get_dy := fun _ _ _ _ w => (Throw (Error "network error"), w ++ ["get_dy"%string]);
     Curve.formatUnits := Examples.formatUnits |}.

(** An engine whose Curve quoter is [getCurveQuote] over a contract that is
    down. *)
Definition engineCurveDown : Engine.Env (list string) :=
  let base := Examples.chain [] [] [] [] None in
  {| Engine.getUniswapV2Quote := Engine.getUniswapV2Quote base;
     Engine.getUniswapV3Quote := Engine.getUniswapV3Quote base;
     Engine.getUniswapV4Quote := Engine.getUniswapV4Quote base;
     Engine.getCurveQuote := Curve.getCurveQuote curveDown;
     Engine.getFluidRealPriceImpactQuote := Engine.getFluidRealPriceImpactQuote base;
     Engine.getFluidLiveQuote := Engine.getFluidLiveQuote base;
     Engine.formatUnits := Engine.formatUnits base;
     Engine.zeroX := Engine.zeroX base;
     Engine.amountOf := Engine.amountOf base |}.

(** A V3 pool of the registry and V3 environments: the pool at tick 200999
    with or without liquidity; the quoter contract answers [quoted]. *)
Definition v3Pool : PoolInfo :=
  {| address := "0x4e68Ccd3E89f51C3074ca5072bbAC773960dFa36";
     name := "WETH/USDT 0.30%"; dex := "uniswap_v3"; network := "ethereum";
     tokens_base := Examples.WETH; tokens_quote := Examples.USDT;
     fee_tier := Some "3000"%string |}.
Definition v3CustomFee : PoolInfo :=
  {| address := "0x4e68Ccd3E89f51C3074ca5072bbAC773960dFa36";
     name := "WETH/USDT custom"; dex := "uniswap_v3"; network := "ethereum";
     tokens_base := Examples.WETH; tokens_quote := Examples.USDT;
     fee_tier := Some "250"%string |}.

Definition v3Chain (poolLiquidity quoted : Z) : V3.Env (list string) :=
  {| V3.newToken := fun _ w => (Ok tt, w);
     V3.computePoolAddress := fun _ _ _ w => (Ok (address v3Pool), w);
     V3.readPoolState := fun _ w =>
       (Ok {| V3.sqrtPriceX96 := 4295128739; V3.tick := 200999;
              V3.liquidity := poolLiquidity |}, w ++ ["slot0"; "liquidity"]%string);
     V3.tradeExactIn := fun _ _ _ validTick _ w => (Ok validTick, w ++ ["Trade.exactIn"%string]);
     V3.quoter_quoteExactInputSingle :=
       fun _ _ _ _ _ w => (Ok quoted, w ++ ["quoteExactInputSingle"%string]);
     V3.showNumber := fun fee => match fee with
                                 | Some f => ZeroX.toString f
                                 | None => "NaN"%string
                                 end;
     V3.elapse := fun _ w => w;
     V3.formatUnits := Examples.formatUnits |}.

Definition fillOf (source proportionBps : string) : ZeroX.Fill :=
  {| ZeroX.source := Some source; ZeroX.proportionBps := Some proportionBps |}.

(** An aggregator whose HTTP request fails. *)
Definition aggregatorDown : Engine.Env (list string) :=
  let base := Examples.chain [] [] [] [] None in
  {| Engine.getUniswapV2Quote := Engine.getUniswapV2Quote base;
     Engine.getUniswapV3Quote := Engine.getUniswapV3Quote base;
     Engine.getUniswapV4Quote := Engine.getUniswapV4Quote base;
     Engine.getCurveQuote := Engine.getCurveQuote base;
     Engine.getFluidRealPriceImpactQuote := Engine.getFluidRealPriceImpactQuote base;
     Engine.getFluidLiveQuote := Engine.getFluidLiveQuote base;
     Engine.formatUnits := Engine.formatUnits base;
     Engine.zeroX :=
       {| ZeroX.zeroXApi_getQuote :=
            ZeroXApiService.getQuote
              (fun _ w => (Throw (Error "Request failed with status code 500"),
                           w ++ ["GET /quote"%string]));
          ZeroX.getBigInt := Examples.decimalBigInt;
          ZeroX.extractProtocolInfo := ZeroXQuoteService.extractProtocolInfo;
          ZeroX.formatProtocolName := fun _ => "Matcha via aggregation"%string;
          ZeroX.getProtocolDetails := fun _ _ _ => "route"%string |};
     Engine.amountOf := Engine.amountOf base |}.

Definition zeroxPool : PoolInfo :=
  Examples.poolOf "zerox" "zeroX-aggregator-weth-usdt" Examples.WETH Examples.USDT.

(** A comparison over two pools of the pair, both answering. *)
Definition twoPools : Comparison.Env (list string) :=
  {| Comparison.getPoolsForPair := fun _ => [Examples.poolA; Examples.poolB];
     Comparison.findPoolsForPair := fun _ w => (Ok [], w ++ ["CoinGecko"%string]);
     Comparison.BigInt := Examples.decimalBigInt;
     Comparison.quoteService :=
       Examples.chain [("0xA"%string, 900)] [("0xB"%string, 950)] [] [] None |}.

(** A log entry of the Fluid quoter. *)
Definition logOf (method : string) : QuoteLog.LogEntry :=
  {| QuoteLog.poolType := "fluid"; QuoteLog.method := method;
     QuoteLog.log_inputAmount := "1000000"; QuoteLog.log_outputAmount := "999800" |}.

Definition pairWith (amount : string) : TokenPair :=
  {| pair_id := "weth-usde"; sellToken := Examples.WETH; buyToken := Examples.USDe;
     sellAmount := amount |}.

(** The result of a run that did not throw. *)
Definition resultOf {World : Type} (fallback : TokenPair)
  (run : Result Comparison.ComparisonResult * World) : Comparison.ComparisonResult :=
  match fst run with
  | Ok result => result
  | Throw _ => Comparison.createEmptyResult fallback
  end.

End Scenarios.

(** A fill counts for its source when source and share are not empty and the
    share reads as a positive number. *)
Definition countsFor (source : string) (fill : ZeroX.Fill) : bool :=
  match ZeroX.source fill, ZeroX.proportionBps fill with
  | Some s, Some proportionBps =>
    String.eqb s source && negb (String.eqb s EmptyString) &&
    negb (String.eqb proportionBps EmptyString) &&
    ltb 0 (ZeroXQuoteService.bpsOf proportionBps)
  | _, _ => false
  end.

(** The total of a source after one more fill of the route. *)
Definition fillStep (source : string) (total : Q) (fill : ZeroX.Fill) : Q :=
  if countsFor source fill
  then fadd total (ZeroXQuoteService.bpsOf
                     (match ZeroX.proportionBps fill with
                      | Some b => b
                      | None => EmptyString
                      end))
  else total.

(** The shares of the fills of a source, added up as numbers in the order of
    the route. *)
Definition totalBps (fills : list ZeroX.Fill) (source : string) : Q :=
  fold_left (fillStep source) fills 0%Q.

(** The protocol entry of a source and its total. *)
Definition toInfo (entry : string * Q) : ZeroX.ZeroXProtocolInfo :=
  let '(source, totalBps) := entry in
  {| ZeroX.protocol_name := source;
     ZeroX.percentage := TickAlign.Math_round (fdiv totalBps 100) |}.

(** The successful quotes and the rankings of a protocol, and the pools
    counted in a protocol map. *)
Definition quotesOf (protocol : string) (quotes : list Quote) : list Quote :=
  filter (fun q => String.eqb (dex (pool q)) protocol) quotes.

Definition rankingsOf (protocol : string) (rankings : list PoolRanking) : list PoolRanking :=
  filter (fun r => String.eqb (dex (ranking_pool r)) protocol) rankings.

Definition poolsTotal (protocolMap : list (string * Comparison.ProtocolData)) : Z :=
  fold_right Z.add 0
    (map (fun entry => Z.of_nat (List.length (Comparison.pools (snd entry)))) protocolMap).

(** A summary that does not hold the rank 1. *)
Definition behindTheBest (s : Comparison.ProtocolSummary) : Prop :=
  match Comparison.bestRank s with
  | Some r => 2 <= r
  | None => True
  end.

(** * Properties *)

(** ** Rounding to a double *)

Lemma scaled_pos p d e n m : 0 < p -> 0 < d -> scaled p d e = (n, m) -> 0 < n /\ 0 < m.
Proof.
  intros Hp Hd. unfold scaled. destruct (Z.leb_spec 0 e); intros [= <- <-]; split; try lia;
    (apply Z.mul_pos_pos; [lia | apply Z.pow_pos_nonneg; lia]).
Qed.

(** The mantissa selected by [ulp_exp] has at least 53 bits. *)
Lemma ulp_exp_mantissa p d n m :
  0 < p -> 0 < d -> scaled p d (ulp_exp p d) = (n, m) -> 2 ^ 52 * m <= n.
Proof.
  intros Hp Hd. unfold ulp_exp.
  set (e0 := Z.log2 p - Z.log2 d - 52).
  destruct (scaled p d e0) as [n0 m0] eqn:E0.
  destruct (Z.leb_spec (2 ^ 52) (n0 / m0)) as [Hge | Hlt].
  - rewrite E0. intros [= <- <-].
    destruct (scaled_pos _ _ _ _ _ Hp Hd E0) as [_ Hm0].
    transitivity (m0 * (n0 / m0));
      [ rewrite Z.mul_comm; apply Z.mul_le_mono_nonneg_l; lia
      | apply Z.mul_div_le; lia ].
  - clear Hlt E0 n0 m0.
    destruct (Z.log2_spec p Hp) as [Hp1 _].
    destruct (Z.log2_spec d Hd) as [_ Hd2].
    pose proof (Z.log2_nonneg p) as Hlp. pose proof (Z.log2_nonneg d) as Hld.
    unfold scaled. destruct (Z.leb_spec 0 (e0 - 1)) as [He | He]; intros [= <- <-].
    + assert (Hpow : 2 ^ Z.log2 p = 2 ^ 52 * (2 ^ Z.succ (Z.log2 d) * 2 ^ (e0 - 1))).
      { rewrite <- !Z.pow_add_r by lia. f_equal. unfold e0. lia. }
      assert (0 < 2 ^ (e0 - 1)) by (apply Z.pow_pos_nonneg; lia).
      assert (d * 2 ^ (e0 - 1) <= 2 ^ Z.succ (Z.log2 d) * 2 ^ (e0 - 1))
        by (apply Z.mul_le_mono_nonneg_r; lia).
      lia.
    + assert (Hpow : 2 ^ Z.log2 p * 2 ^ (- (e0 - 1)) = 2 ^ 52 * 2 ^ Z.succ (Z.log2 d)).
      { rewrite <- !Z.pow_add_r by lia. f_equal. unfold e0. lia. }
      assert (0 < 2 ^ (- (e0 - 1))) by (apply Z.pow_pos_nonneg; lia).
      assert (2 ^ Z.log2 p * 2 ^ (- (e0 - 1)) <= p * 2 ^ (- (e0 - 1)))
        by (apply Z.mul_le_mono_nonneg_r; lia).
      lia.
Qed.

Lemma nearest_even_bounds n m : n / m <= nearest_even n m <= n / m + 1.
Proof. unfold nearest_even. destruct (_ || _); lia. Qed.

Lemma ldexp_mono a b e : a <= b -> (ldexp a e <= ldexp b e)%Q.
Proof.
  intros H. unfold ldexp. destruct (Z.leb_spec 0 e) as [He | He].
  - rewrite <- Zle_Qle. apply Z.mul_le_mono_nonneg_r; [|exact H].
    apply Z.pow_nonneg; lia.
  - unfold Qle; simpl. apply Z.mul_le_mono_nonneg_r; [lia | exact H].
Qed.

Lemma ldexp_pos a e : 0 < a -> (0 < ldexp a e)%Q.
Proof.
  intros H. unfold ldexp. destruct (Z.leb_spec 0 e) as [He | He].
  - change 0%Q with (inject_Z 0). rewrite <- Zlt_Qlt.
    apply Z.mul_pos_pos; [exact H | apply Z.pow_pos_nonneg; lia].
  - unfold Qlt; simpl. lia.
Qed.

(** The truncated mantissa is below the number, the next one above it. *)
Lemma ldexp_below p d e n m :
  0 < p -> 0 < d -> scaled p d e = (n, m) ->
  (ldexp (n / m) e <= p # Z.to_pos d)%Q.
Proof.
  intros Hp Hd Hs. destruct (scaled_pos _ _ _ _ _ Hp Hd Hs) as [Hn Hm].
  pose proof (Z.mul_div_le n m Hm) as Hdiv.
  revert Hs Hdiv. unfold scaled, ldexp.
  destruct (Z.leb_spec 0 e) as [He | He]; intros [= <- <-] Hdiv;
    unfold Qle; simpl; rewrite ?Z2Pos.id by (try apply Z.pow_pos_nonneg; lia); nia.
Qed.

Lemma ldexp_above p d e n m :
  0 < p -> 0 < d -> scaled p d e = (n, m) ->
  (p # Z.to_pos d <= ldexp (n / m + 1) e)%Q.
Proof.
  intros Hp Hd Hs. destruct (scaled_pos _ _ _ _ _ Hp Hd Hs) as [Hn Hm].
  pose proof (Z.mul_succ_div_gt n m Hm) as Hdiv. unfold Z.succ in Hdiv.
  revert Hs Hdiv. unfold scaled, ldexp.
  destruct (Z.leb_spec 0 e) as [He | He]; intros [= <- <-] Hdiv;
    unfold Qle; simpl; rewrite ?Z2Pos.id by (try apply Z.pow_pos_nonneg; lia); nia.
Qed.

(** One unit in the last place is at most [2^-52] of a normalised mantissa. *)
Lemma ldexp_succ q e :
  2 ^ 52 <= q -> (ldexp (q + 1) e <= ldexp q e * (1 + eps))%Q.
Proof.
  intros Hq. change (2 ^ 52) with 4503599627370496 in Hq. unfold ldexp, eps.
  destruct (Z.leb_spec 0 e) as [He | He].
  - assert (0 < 2 ^ e) by (apply Z.pow_pos_nonneg; lia).
    unfold Qle, Qmult, Qplus, inject_Z; simpl. nia.
  - unfold Qle, Qmult, Qplus; simpl.
    set (k := Z.to_pos (2 ^ (- e))). nia.
Qed.

(** A positive number and its rounding lie between two neighbouring
    mantissas of at least 53 bits. *)
Lemma round_pos_bounds p d :
  0 < p -> 0 < d ->
  exists q e, 2 ^ 52 <= q /\
    (ldexp q e <= p # Z.to_pos d <= ldexp (q + 1) e)%Q /\
    (ldexp q e <= round_pos p d <= ldexp (q + 1) e)%Q.
Proof.
  intros Hp Hd. unfold round_pos.
  destruct (scaled p d (ulp_exp p d)) as [n m] eqn:Hs.
  destruct (scaled_pos _ _ _ _ _ Hp Hd Hs) as [Hn Hm].
  pose proof (ulp_exp_mantissa _ _ _ _ Hp Hd Hs) as Hman.
  pose proof (nearest_even_bounds n m) as [Hlo Hhi].
  exists (n / m), (ulp_exp p d). repeat split.
  - apply Z.div_le_lower_bound; lia.
  - eapply ldexp_below; eauto.
  - eapply ldexp_above; eauto.
  - rewrite Qred_correct. apply ldexp_mono; exact Hlo.
  - rewrite Qred_correct. apply ldexp_mono; exact Hhi.
Qed.

Lemma Qpos_shape (x : Q) : (0 < x)%Q -> exists p, Qnum x = Zpos p.
Proof.
  destruct x as [[|p|p] d]; unfold Qlt; simpl; intros H; try lia. eauto.
Qed.

Lemma rnd_pos_bounds (x : Q) :
  (0 < x)%Q -> exists q e, 2 ^ 52 <= q /\
    (ldexp q e <= x <= ldexp (q + 1) e)%Q /\
    (ldexp q e <= rnd x <= ldexp (q + 1) e)%Q.
Proof.
  intros Hx. destruct (Qpos_shape x Hx) as [p Hp].
  destruct (round_pos_bounds (Zpos p) (Zpos (Qden x))) as (q & e & H1 & H2 & H3); try lia.
  exists q, e. unfold rnd. rewrite Hp. repeat split; try tauto;
    destruct x as [xn xd]; simpl in *; subst xn; tauto.
Qed.

Lemma rnd_zero (x : Q) : (x == 0)%Q -> rnd x = 0%Q.
Proof.
  destruct x as [[|p|p] d]; unfold Qeq; simpl; intros H; try lia. reflexivity.
Qed.

Lemma rnd_pos (x : Q) : (0 < x)%Q -> (0 < rnd x)%Q.
Proof.
  intros Hx. destruct (rnd_pos_bounds x Hx) as (q & e & H1 & _ & H3 & _).
  eapply Qlt_le_trans; [|exact H3]. apply ldexp_pos.
  assert (0 < 2 ^ 52) by reflexivity. lia.
Qed.

Lemma rnd_neg (x : Q) : (x < 0)%Q -> (rnd x < 0)%Q.
Proof.
  destruct x as [[|p|p] d]; unfold Qlt at 1; simpl; intros H; try lia.
  unfold rnd; simpl.
  destruct (round_pos_bounds (Zpos p) (Zpos d)) as (q & e & H1 & _ & H3 & _); try lia.
  assert (0 < ldexp q e)%Q by (apply ldexp_pos; assert (0 < 2 ^ 52) by reflexivity; lia).
  lra.
Qed.

(** Rounding moves a positive number by a factor of at most [1 + eps]. *)
Lemma rnd_upper (x : Q) : (0 < x)%Q -> (rnd x <= x * (1 + eps))%Q.
Proof.
  intros Hx. destruct (rnd_pos_bounds x Hx) as (q & e & H1 & [H2 _] & _ & H4).
  pose proof (ldexp_succ q e H1) as Hs.
  assert (0 < 1 + eps)%Q by reflexivity.
  assert (ldexp q e * (1 + eps) <= x * (1 + eps))%Q
    by (apply Qmult_le_compat_r; [exact H2 | lra]).
  lra.
Qed.

Lemma rnd_lower (x : Q) : (0 < x)%Q -> (x <= rnd x * (1 + eps))%Q.
Proof.
  intros Hx. destruct (rnd_pos_bounds x Hx) as (q & e & H1 & [_ H2] & H3 & _).
  pose proof (ldexp_succ q e H1) as Hs.
  assert (0 < 1 + eps)%Q by reflexivity.
  assert (ldexp q e * (1 + eps) <= rnd x * (1 + eps))%Q
    by (apply Qmult_le_compat_r; [exact H3 | lra]).
  lra.
Qed.

Lemma rnd_opp (x : Q) : (rnd (- x) == - rnd x)%Q.
Proof.
  destruct x as [[|p|p] d]; unfold rnd; simpl; try reflexivity.
  rewrite Qopp_involutive. reflexivity.
Qed.

(** Rounding moves a number by at most [eps] of its size. *)
Lemma rnd_error_pos (x : Q) :
  (0 <= x)%Q -> (x - eps * x <= rnd x <= x + eps * x)%Q.
Proof.
  intros Hx. destruct (Qle_lt_or_eq _ _ Hx) as [Hpos | Hz].
  - pose proof (rnd_upper x Hpos). pose proof (rnd_lower x Hpos).
    pose proof (rnd_pos x Hpos).
    assert (eps * rnd x <= eps * (x * (1 + eps)))%Q
      by (apply Qmult_le_l; [reflexivity | assumption]).
    unfold eps in *. split; nra.
  - rewrite (rnd_zero x) by (symmetry; exact Hz). rewrite <- Hz. split; unfold eps; lra.
Qed.

Lemma rnd_error_neg (x : Q) :
  (x <= 0)%Q -> (x + eps * x <= rnd x <= x - eps * x)%Q.
Proof.
  intros Hx. assert (Hn : (0 <= - x)%Q) by lra.
  pose proof (rnd_error_pos (- x) Hn) as [H1 H2].
  rewrite rnd_opp in H1, H2. split; lra.
Qed.

Lemma ltb_spec (x y : Q) : ltb x y = true <-> (x < y)%Q.
Proof.
  unfold ltb. rewrite negb_true_iff. split; intros H.
  - apply Qnot_le_lt. intros Hle. apply Qle_bool_iff in Hle. congruence.
  - destruct (Qle_bool y x) eqn:E; [|reflexivity].
    apply Qle_bool_iff in E. lra.
Qed.

(** The sign of a number survives rounding. *)
Lemma rnd_sign_pos (x : Q) : (0 < rnd x)%Q <-> (0 < x)%Q.
Proof.
  split; [|apply rnd_pos]. intros H.
  destruct (Qlt_le_dec 0 x) as [|Hle]; [assumption|].
  destruct (Qle_lt_or_eq _ _ Hle) as [Hlt | Heq].
  - apply rnd_neg in Hlt. lra.
  - rewrite (rnd_zero x Heq) in H. lra.
Qed.

Lemma rnd_sign_neg (x : Q) : (rnd x < 0)%Q <-> (x < 0)%Q.
Proof.
  split; [|apply rnd_neg]. intros H.
  destruct (Qlt_le_dec x 0) as [|Hle]; [assumption|].
  destruct (Qle_lt_or_eq _ _ Hle) as [Hlt | Heq].
  - apply rnd_pos in Hlt. lra.
  - rewrite (rnd_zero x) in H; [lra | symmetry; exact Heq].
Qed.

Lemma inject_Z_pos (n : Z) : (0 < inject_Z n)%Q <-> 0 < n.
Proof. change 0%Q with (inject_Z 0). rewrite <- Zlt_Qlt. reflexivity. Qed.

Lemma parseFloat_pos (n : Z) : (0 < parseFloat n)%Q <-> 0 < n.
Proof. unfold parseFloat. rewrite rnd_sign_pos. apply inject_Z_pos. Qed.

Lemma parseFloat_upper (n : Z) :
  0 < n -> (parseFloat n <= inject_Z n * (1 + eps))%Q.
Proof. intros H. apply rnd_upper, inject_Z_pos, H. Qed.

Lemma parseFloat_lower (n : Z) :
  0 < n -> (inject_Z n <= parseFloat n * (1 + eps))%Q.
Proof. intros H. apply rnd_lower, inject_Z_pos, H. Qed.

Lemma Qred_inject_Z (n : Z) : Qred (inject_Z n) = inject_Z n.
Proof.
  unfold Qred, inject_Z.
  pose proof (Z.ggcd_gcd n 1) as Hg. pose proof (Z.ggcd_correct_divisors n 1) as Hd.
  destruct (Z.ggcd n 1) as [g [r1 r2]]. cbn [fst snd] in *.
  rewrite Z.gcd_1_r in Hg. subst g. destruct Hd as [H1 H2].
  assert (Hr1 : r1 = n) by lia. assert (Hr2 : r2 = 1) by lia.
  rewrite Hr1, Hr2. reflexivity.
Qed.

(** Integers below [2^53] are doubles: rounding leaves them alone. *)
Lemma round_pos_exact (n : Z) : 0 < n < 2 ^ 53 -> round_pos n 1 = inject_Z n.
Proof.
  intros [Hn Hlt]. rewrite <- Qred_inject_Z. unfold round_pos.
  assert (Hl : Z.log2 n < 53) by (apply Z.log2_lt_pow2; lia).
  destruct (Z.log2_spec n Hn) as [Hlo _]. pose proof (Z.log2_nonneg n) as Hl0.
  assert (He : ulp_exp n 1 = Z.log2 n - 52).
  { unfold ulp_exp. change (Z.log2 1) with 0. rewrite Z.sub_0_r.
    destruct (scaled n 1 (Z.log2 n - 52)) as [a b] eqn:Hs.
    destruct (Z.leb_spec (2 ^ 52) (a / b)) as [|Hbad]; [reflexivity|exfalso].
    revert Hs. unfold scaled. destruct (Z.leb_spec 0 (Z.log2 n - 52)); intros [= <- <-].
    - assert (Z.log2 n = 52) by lia. replace (Z.log2 n - 52) with 0 in Hbad by lia.
      change (1 * 2 ^ 0) with 1 in Hbad. rewrite Z.div_1_r in Hbad.
      replace (Z.log2 n) with 52 in Hlo by lia. lia.
    - rewrite Z.div_1_r in Hbad.
      assert (2 ^ Z.log2 n * 2 ^ (- (Z.log2 n - 52)) = 2 ^ 52).
      { rewrite <- Z.pow_add_r by lia. f_equal. lia. }
      assert (0 < 2 ^ (- (Z.log2 n - 52))) by (apply Z.pow_pos_nonneg; lia).
      nia. }
  rewrite He. unfold scaled, ldexp, nearest_even.
  destruct (Z.leb_spec 0 (Z.log2 n - 52)) as [H0 | H0].
  - replace (Z.log2 n - 52) with 0 by lia. change (1 * 2 ^ 0) with 1.
    rewrite Z.div_1_r, Z.mod_1_r. cbn [Z.ltb Z.eqb Z.mul Z.compare orb andb].
    apply Qred_complete. rewrite Z.pow_0_r, Z.mul_1_r. reflexivity.
  - rewrite Z.div_1_r, Z.mod_1_r. cbn [Z.ltb Z.eqb Z.mul Z.compare orb andb].
    apply Qred_complete.
    assert (0 < 2 ^ (- (Z.log2 n - 52))) by (apply Z.pow_pos_nonneg; lia).
    unfold Qeq, inject_Z; cbn [Qnum Qden]. rewrite Z2Pos.id by lia. lia.
Qed.

Lemma parseFloat_exact (n : Z) : Z.abs n < 2 ^ 53 -> parseFloat n = inject_Z n.
Proof.
  intros H. unfold parseFloat, rnd, inject_Z. cbn [Qnum Qden].
  destruct n as [|p|p]; [reflexivity| |].
  - apply round_pos_exact. lia.
  - rewrite round_pos_exact by lia. reflexivity.
Qed.

(** Neighbouring integers just above [2^53] are read as the same number. *)
Example parseFloat_collision :
  parseFloat 9007199254740993 = parseFloat 9007199254740992.
Proof. vm_compute. reflexivity. Qed.

Lemma noise_threshold_value :
  rnd (1 # 10000) = (7378697629483821 # 73786976294838206464)%Q.
Proof. vm_compute. reflexivity. Qed.

Lemma Qabs_nonneg_eq (x : Q) : (0 <= x)%Q -> Qabs x = x.
Proof.
  destruct x as [n d]. unfold Qle; simpl. intros H.
  rewrite Z.abs_eq by lia. reflexivity.
Qed.

Lemma Qdiv_lt_mult (x y k : Q) : (0 < y)%Q -> (x / y < k)%Q -> (x < k * y)%Q.
Proof.
  intros Hy H.
  assert (E : (x == y * (x / y))%Q) by (rewrite Qmult_div_r; [reflexivity | lra]).
  assert (y * (x / y) < y * k)%Q by (apply Qmult_lt_l; assumption).
  lra.
Qed.

(** ** The stable sort *)

Import Ranking.

Section SortFacts.
Context {A : Type} (compareFn : A -> A -> Q).

Lemma insertBy_perm x l : Permutation (insertBy compareFn x l) (x :: l).
Proof.
  induction l as [|y l IH]; simpl; [reflexivity|].
  destruct (ltb 0 (compareFn x y)); [|reflexivity].
  rewrite IH. apply perm_swap.
Qed.

Lemma sort_perm l : Permutation (sort compareFn l) l.
Proof.
  induction l as [|x l IH]; simpl; [reflexivity|].
  rewrite insertBy_perm. constructor. exact IH.
Qed.

(** Stability: the elements of a class that the comparator never orders
    strictly keep their relative order. *)
Lemma insertBy_filter (p : A -> bool) x l :
  (forall y, p x = true -> p y = true -> ltb 0 (compareFn x y) = false) ->
  filter p (insertBy compareFn x l) = filter p (x :: l).
Proof.
  intros Hp. induction l as [|y l IH]; [reflexivity|].
  cbn [insertBy]. destruct (ltb 0 (compareFn x y)) eqn:E; [|reflexivity].
  cbn [filter] in *. rewrite IH.
  destruct (p x) eqn:Px, (p y) eqn:Py; try reflexivity.
  rewrite (Hp y eq_refl Py) in E. discriminate.
Qed.

Lemma sort_filter (p : A -> bool) l :
  (forall x y, p x = true -> p y = true -> ltb 0 (compareFn x y) = false) ->
  filter p (sort compareFn l) = filter p l.
Proof.
  intros Hp. induction l as [|x l IH]; [reflexivity|].
  cbn [sort fold_right]. rewrite insertBy_filter by (apply Hp).
  cbn [filter]. fold (sort compareFn l). rewrite IH. reflexivity.
Qed.

(** *** The insertion from the left *)

Lemma insertPivot_perm pivot sorted :
  Permutation (insertPivot compareFn pivot sorted) (pivot :: sorted).
Proof.
  induction sorted as [|element rest IH]; cbn [insertPivot]; [reflexivity|].
  destruct (ltb (compareFn pivot element) 0); [reflexivity|].
  rewrite IH. apply perm_swap.
Qed.

Lemma fold_insertPivot_perm l sorted :
  Permutation (fold_left (fun sorted pivot => insertPivot compareFn pivot sorted) l sorted)
              (sorted ++ l).
Proof.
  revert sorted. induction l as [|pivot l IH]; intros sorted; cbn [fold_left].
  - rewrite app_nil_r. reflexivity.
  - rewrite IH, insertPivot_perm. apply Permutation_middle.
Qed.

Lemma binaryInsertionSort_perm l : Permutation (binaryInsertionSort compareFn l) l.
Proof. apply (fold_insertPivot_perm l []). Qed.

Lemma binaryInsertionSort_snoc l pivot :
  binaryInsertionSort compareFn (l ++ [pivot])
  = insertPivot compareFn pivot (binaryInsertionSort compareFn l).
Proof. unfold binaryInsertionSort. rewrite fold_left_app. reflexivity. Qed.

(** With a comparator that orders by a key, the insertion from the left and
    the insertion from the right give the same array. *)
Section Consistent.
Context (key : A -> Q).
Hypothesis after : forall x y, ltb 0 (compareFn x y) = true <-> (key y < key x)%Q.
Hypothesis before : forall x y, ltb (compareFn x y) 0 = true <-> (key x < key y)%Q.

Lemma insertBy_insertPivot x pivot l :
  insertBy compareFn x (insertPivot compareFn pivot l)
  = insertPivot compareFn pivot (insertBy compareFn x l).
Proof.
  induction l as [|y l IH]; cbn [insertBy insertPivot].
  - destruct (ltb 0 (compareFn x pivot)) eqn:E1, (ltb (compareFn pivot x) 0) eqn:E2;
      try reflexivity; exfalso.
    + apply after in E1. destruct (before pivot x) as [_ H]. rewrite (H E1) in E2.
      discriminate.
    + apply before in E2. destruct (after x pivot) as [_ H]. rewrite (H E2) in E1.
      discriminate.
  - destruct (ltb (compareFn pivot y) 0) eqn:Ep, (ltb 0 (compareFn x y)) eqn:Ex;
      cbn [insertBy insertPivot]; rewrite ?Ep, ?Ex.
    + apply before in Ep. apply after in Ex.
      assert (E : ltb 0 (compareFn x pivot) = true) by (apply after; lra).
      rewrite E. reflexivity.
    + destruct (ltb 0 (compareFn x pivot)) eqn:E1, (ltb (compareFn pivot x) 0) eqn:E2;
        cbn [insertPivot]; rewrite ?Ep; try reflexivity; exfalso.
      * apply after in E1. destruct (before pivot x) as [_ H]. rewrite (H E1) in E2.
        discriminate.
      * apply before in E2. destruct (after x pivot) as [_ H]. rewrite (H E2) in E1.
        discriminate.
    + rewrite IH. reflexivity.
    + destruct (ltb (compareFn pivot x) 0) eqn:E2; [exfalso|reflexivity].
      apply before in E2.
      assert (Hy : ~ (key pivot < key y)%Q).
      { intros H. apply before in H. congruence. }
      assert (Hx : ~ (key y < key x)%Q).
      { intros H. apply after in H. congruence. }
      lra.
Qed.

Lemma binaryInsertionSort_consistent l : binaryInsertionSort compareFn l = sort compareFn l.
Proof.
  induction l as [|pivot l IH] using rev_ind; [reflexivity|].
  rewrite binaryInsertionSort_snoc, IH. clear IH.
  induction l as [|x l IH]; [reflexivity|].
  cbn [app sort fold_right]. fold (sort compareFn l). fold (sort compareFn (l ++ [pivot])).
  rewrite <- IH. symmetry. apply insertBy_insertPivot.
Qed.

End Consistent.

End SortFacts.

(** The comparator of the ranking orders by the output read as a double, so
    that the ranking does not depend on the direction of the insertion. *)
Lemma sort_byOutputDesc_either_way (quotes : list Quote) :
  binaryInsertionSort byOutputDesc quotes = sort byOutputDesc quotes.
Proof.
  apply (binaryInsertionSort_consistent byOutputDesc
           (fun q => (- parseFloat (outputAmount q))%Q)).
  - intros x y. unfold byOutputDesc, fsub. rewrite ltb_spec, rnd_sign_pos.
    split; intros H; lra.
  - intros x y. unfold byOutputDesc, fsub. rewrite ltb_spec, rnd_sign_neg.
    split; intros H; lra.
Qed.

Lemma filter_split {A : Type} (p : A -> bool) (l a b : list A) (x : A) :
  filter p l = a ++ x :: b ->
  exists a' b', l = a' ++ x :: b' /\ filter p a' = a /\ filter p b' = b.
Proof.
  revert a. induction l as [|y l IH]; intros a H.
  - destruct a; discriminate.
  - cbn [filter] in H. destruct (p y) eqn:Py.
    + destruct a as [|z a]; cbn [app] in H; injection H as -> H.
      * exists [], l. repeat split; assumption.
      * destruct (IH _ H) as (a' & b' & -> & Ha & Hb).
        exists (z :: a'), b'. cbn [filter app]. rewrite Py, Ha. repeat split; assumption.
    + destruct (IH _ H) as (a' & b' & -> & Ha & Hb).
      exists (y :: a'), b'. cbn [filter app]. rewrite Py. repeat split; assumption.
Qed.

Section MapiFacts.
Context {A B : Type} (f : A -> Z -> B).


Lemma mapi_from_map {C : Type} (g : B -> C) (h : A -> C) i l :
  (forall x j, g (f x j) = h x) -> map g (mapi_from f i l) = map h l.
Proof.
  intros H. revert i; induction l; simpl; intros; [reflexivity|].
  rewrite H, IHl. reflexivity.
Qed.

Lemma mapi_from_index (g : B -> Z) i l :
  (forall x j, g (f x j) = j + 1) ->
  map g (mapi_from f i l) = map (fun n => i + Z.of_nat n) (seq 1 (List.length l)).
Proof.
  intros H. revert i; induction l as [|x l IH]; intros i; [reflexivity|].
  cbn [mapi_from map List.length seq]. rewrite H, IH.
  replace (i + Z.of_nat 1) with (i + 1) by lia. apply f_equal.
  rewrite <- (seq_shift _ 1), map_map. apply map_ext. intros n. lia.
Qed.

Lemma mapi_from_In i l r :
  In r (mapi_from f i l) -> exists x j, In x l /\ r = f x j.
Proof.
  revert i; induction l as [|x l IH]; simpl; intros i; [tauto|].
  intros [<- | H]; [exists x, i; auto|].
  destruct (IH _ H) as (y & j & Hy & ->). exists y, j; auto.
Qed.

Lemma mapi_from_app i l1 l2 :
  mapi_from f i (l1 ++ l2) =
  mapi_from f i l1 ++ mapi_from f (i + Z.of_nat (List.length l1)) l2.
Proof.
  revert i; induction l1 as [|x l1 IH]; intros i.
  - simpl. f_equal. lia.
  - cbn [app mapi_from List.length]. rewrite IH. do 3 f_equal. lia.
Qed.

End MapiFacts.

(** ** The order of the ranking *)

Lemma byOutputDesc_after a b : ltb 0 (byOutputDesc a b) = true <-> (key a < key b)%Q.
Proof.
  unfold byOutputDesc, fsub. rewrite ltb_spec, rnd_sign_pos. fold (key a) (key b).
  split; intros H; lra.
Qed.

Lemma byOutputDesc_keep a b : ltb 0 (byOutputDesc a b) = false <-> desc a b.
Proof.
  unfold desc. split; intros H.
  - destruct (Qlt_le_dec (key a) (key b)) as [Hlt|]; [|assumption].
    apply byOutputDesc_after in Hlt. congruence.
  - destruct (ltb 0 (byOutputDesc a b)) eqn:E; [|reflexivity].
    apply byOutputDesc_after in E. lra.
Qed.

Lemma desc_trans a b c : desc a b -> desc b c -> desc a c.
Proof. unfold desc. intros. lra. Qed.

Lemma insertBy_sorted x l :
  StronglySorted desc l -> StronglySorted desc (insertBy byOutputDesc x l).
Proof.
  induction 1 as [|y l Hs IH Hall]; simpl.
  - repeat constructor.
  - destruct (ltb 0 (byOutputDesc x y)) eqn:E.
    + apply byOutputDesc_after in E. constructor; [exact IH|].
      eapply Permutation_Forall; [symmetry; apply insertBy_perm|].
      constructor; [unfold desc; lra | exact Hall].
    + apply byOutputDesc_keep in E. constructor; [constructor; assumption|].
      constructor; [exact E|].
      eapply Forall_impl; [|exact Hall]. intros z Hz. eapply desc_trans; eauto.
Qed.

Lemma ranked_sorted quotes : StronglySorted desc (ranked quotes).
Proof.
  unfold ranked. induction (filter rankable quotes) as [|x l IH]; simpl;
    [constructor | apply insertBy_sorted; exact IH].
Qed.

Lemma ranked_perm quotes : Permutation (ranked quotes) (filter rankable quotes).
Proof. apply sort_perm. Qed.

Lemma rankable_spec q :
  rankable q = true <-> success q = true /\ 0 < outputAmount q.
Proof.
  unfold rankable. rewrite andb_true_iff, ltb_spec, parseFloat_pos. reflexivity.
Qed.

Lemma rankable_eq q : rankable q = success q && (0 <? outputAmount q).
Proof.
  apply eq_true_iff_eq. rewrite rankable_spec, andb_true_iff, Z.ltb_lt. reflexivity.
Qed.

Lemma ranked_In quotes q :
  In q (ranked quotes) <-> In q quotes /\ success q = true /\ 0 < outputAmount q.
Proof.
  rewrite <- rankable_spec, <- filter_In.
  split; apply Permutation_in; [|symmetry]; apply ranked_perm.
Qed.

Lemma sorted_head_max x l y :
  StronglySorted desc (x :: l) -> In y (x :: l) -> (key y <= key x)%Q.
Proof.
  intros Hs [<- | Hy]; [apply Qle_refl|].
  apply StronglySorted_inv in Hs as [_ Hall].
  rewrite Forall_forall in Hall. apply (Hall y Hy).
Qed.

Lemma sorted_last_min l d y :
  StronglySorted desc l -> In y l -> (key (last l d) <= key y)%Q.
Proof.
  induction 1 as [|x l Hs IH Hall]; [intros []|].
  intros Hy. destruct l as [|z l].
  - destruct Hy as [<- | []]. apply Qle_refl.
  - change (last (x :: z :: l) d) with (last (z :: l) d).
    destruct Hy as [<- | Hy]; [|apply IH; exact Hy].
    rewrite Forall_forall in Hall. apply (Hall (last (z :: l) d)).
    clear. revert z. induction l as [|a l IHl]; intros z; [left; reflexivity|].
    right. apply IHl.
Qed.

Lemma StronglySorted_refine {A : Type} (R R' : A -> A -> Prop) (P : A -> Prop) l :
  (forall a b, P a -> P b -> R a b -> R' a b) ->
  Forall P l -> StronglySorted R l -> StronglySorted R' l.
Proof.
  intros Himp HP Hs. induction Hs as [|x l Hs IH Hx]; [constructor|].
  apply Forall_cons_iff in HP as [Px Pl].
  constructor; [apply IH; exact Pl|].
  rewrite Forall_forall in *. intros y Hy. apply Himp; auto.
Qed.



(** ** [calculateRankings] *)

Lemma calculateRankings_shape quotes :
  calculateRankings quotes = [] /\ ranked quotes = [] \/
  exists first rest,
    ranked quotes = first :: rest /\
    calculateRankings quotes =
      mapi (rankingOf (key (last (first :: rest) first)) (key first)) (first :: rest).
Proof.
  unfold calculateRankings, ranked.
  destruct quotes as [|q0 quotes]; [left; split; reflexivity|].
  destruct (sort byOutputDesc (filter rankable (q0 :: quotes))) as [|first rest] eqn:E.
  - left; split; reflexivity.
  - right. exists first, rest. split; reflexivity.
Qed.

Lemma calculateRankings_quotes quotes :
  map quote (calculateRankings quotes) = ranked quotes.
Proof.
  destruct (calculateRankings_shape quotes) as [[-> ->] | (first & rest & E & ->)];
    [reflexivity|].
  rewrite E. unfold mapi. rewrite (mapi_from_map _ quote (fun q => q)).
  - apply map_id.
  - reflexivity.
Qed.





Example ranking_of_colliding_amounts :
  map (fun r => (rank r, outputAmount (quote r)))
      (calculateRankings [Examples.quoteOf Examples.poolA 9007199254740992;
                          Examples.quoteOf Examples.poolB 9007199254740993])
  = [(1, 9007199254740992); (2, 9007199254740993)].
Proof. vm_compute. reflexivity. Qed.

(** Below [2^53] the order of the ranking is the order of the amounts. *)
Lemma ranking_exact_below_2_53 (quotes : list Quote) :
  Forall (fun q => outputAmount q < 2 ^ 53) quotes ->
  StronglySorted (fun a b => outputAmount b <= outputAmount a)
                 (map quote (calculateRankings quotes)).
Proof.
  intros Hsmall. rewrite calculateRankings_quotes.
  apply (StronglySorted_refine desc _ (fun q => 0 < outputAmount q < 2 ^ 53));
    [| | apply ranked_sorted].
  - unfold desc, key. intros x y Hx Hy Hd.
    rewrite !parseFloat_exact in Hd by lia.
    rewrite <- Zle_Qle in Hd. exact Hd.
  - apply Forall_forall. intros q Hq. apply ranked_In in Hq as (Hin & _ & Hpos).
    rewrite Forall_forall in Hsmall. split; [exact Hpos | apply Hsmall; exact Hin].
Qed.

(** Two rankable quotes of equal amount stand in the ranking in their input
    order. *)
Lemma ranked_stable quotes l1 q1 l2 q2 l3 :
  quotes = l1 ++ q1 :: l2 ++ q2 :: l3 ->
  rankable q1 = true -> rankable q2 = true ->
  outputAmount q1 = outputAmount q2 ->
  exists a b c, ranked quotes = a ++ q1 :: b ++ q2 :: c.
Proof.
  intros -> R1 R2 Heq.
  set (p := fun q : Quote => Qeq_bool (key q) (key q1)).
  assert (P1 : p q1 = true) by (apply Qeq_bool_iff; reflexivity).
  assert (P2 : p q2 = true)
    by (unfold p, key; rewrite <- Heq; apply Qeq_bool_iff; reflexivity).
  assert (Hst : filter p (ranked (l1 ++ q1 :: l2 ++ q2 :: l3)) =
                filter p (filter rankable (l1 ++ q1 :: l2 ++ q2 :: l3))).
  { unfold ranked. apply sort_filter. intros x y Hx Hy.
    apply byOutputDesc_keep. unfold desc.
    apply Qeq_bool_iff in Hx. apply Qeq_bool_iff in Hy. rewrite Hx, Hy. apply Qle_refl. }
  rewrite !filter_app in Hst. cbn [filter] in Hst. rewrite R1 in Hst.
  rewrite !filter_app in Hst. cbn [filter] in Hst. rewrite R2, P1 in Hst.
  rewrite !filter_app in Hst. cbn [filter] in Hst. rewrite P2 in Hst.
  destruct (filter_split _ _ _ _ _ Hst) as (a & rest & E & _ & Hrest).
  destruct (filter_split _ _ _ _ _ Hrest) as (b & c & -> & _ & _).
  exists a, b, c. exact E.
Qed.

(** C7.  When the input holds two successful quotes with the same positive
    [outputAmount], the one that comes first in the input comes first in the
    ranking and gets the smaller rank. *)
Theorem tie_keeps_input_order quotes l1 q1 l2 q2 l3 :
  quotes = l1 ++ q1 :: l2 ++ q2 :: l3 ->
  success q1 = true -> success q2 = true ->
  0 < outputAmount q1 -> outputAmount q1 = outputAmount q2 ->
  exists m1 r1 m2 r2 m3,
    calculateRankings quotes = m1 ++ r1 :: m2 ++ r2 :: m3 /\
    quote r1 = q1 /\ quote r2 = q2 /\ rank r1 < rank r2.
Proof.
  intros Hq S1 S2 Hpos Heq.
  assert (R1 : rankable q1 = true) by (apply rankable_spec; auto).
  assert (R2 : rankable q2 = true) by (apply rankable_spec; split; [auto | lia]).
  destruct (ranked_stable _ _ _ _ _ _ Hq R1 R2 Heq) as (a & b & c & Hr).
  destruct (calculateRankings_shape quotes) as [[_ E] | (first & rest & E & ->)].
  - rewrite E in Hr. destruct a; discriminate.
  - rewrite <- E, Hr. unfold mapi.
    set (F := rankingOf _ _).
    rewrite mapi_from_app. cbn [mapi_from]. rewrite mapi_from_app. cbn [mapi_from].
    do 5 eexists. split; [reflexivity|].
    unfold F. cbn [quote rank rankingOf].
    repeat split. lia.
Qed.

Lemma tie_keeps_input_order_witness :
  exists m1 r1 m2 r2 m3,
    calculateRankings [Examples.quoteOf Examples.poolA 500;
                       Examples.quoteOf Examples.balancerPool 900;
                       Examples.quoteOf Examples.poolB 500]
      = m1 ++ r1 :: m2 ++ r2 :: m3 /\
    quote r1 = Examples.quoteOf Examples.poolA 500 /\
    quote r2 = Examples.quoteOf Examples.poolB 500 /\
    rank r1 < rank r2.
Proof.
  apply (tie_keeps_input_order _ []
           (Examples.quoteOf Examples.poolA 500)
           [Examples.quoteOf Examples.balancerPool 900]
           (Examples.quoteOf Examples.poolB 500) []); reflexivity.
Defined.

Example ranking_of_a_tie :
  map (fun r => (rank r, address (ranking_pool r), outputAmount (quote r)))
      (calculateRankings [Examples.quoteOf Examples.poolA 500;
                          Examples.quoteOf Examples.balancerPool 900;
                          Examples.quoteOf Examples.poolB 500])
  = [(1, "0x0000000000000000000000000000000000000002"%string, 900);
     (2, "0xA"%string, 500);
     (3, "0xB"%string, 500)].
Proof. vm_compute. reflexivity. Qed.

(** ** The noise threshold *)

(** The snap to zero fires as soon as the gap to the worst quote is at most
    [2/20001] (just under 0.01%) of the best output: two roundings cannot
    lift the quotient to the threshold [0.0001]. *)
Lemma computePriceAdvantage_snap (w b c : Q) :
  (0 < w)%Q -> (w <= c)%Q -> (c <= b)%Q ->
  ((c - w) * 20001 <= 2 * b)%Q ->
  computePriceAdvantage w b c = 0%Q.
Proof.
  intros Hw Hwc Hcb Hgap. unfold computePriceAdvantage.
  destruct (_ && _); [|reflexivity].
  assert (Hsmall : ltb (fdiv (Qabs (fsub c w)) b) (rnd (1 # 10000)) = true);
    [|rewrite Hsmall; reflexivity].
  rewrite noise_threshold_value. apply ltb_spec. unfold fdiv, fsub.
  destruct (Qlt_le_dec w c) as [Hlt | Hle].
  - set (t := (c - w)%Q) in *.
    assert (Ht : (0 < t)%Q) by (unfold t; lra).
    pose proof (rnd_pos t Ht) as Hd0. pose proof (rnd_upper t Ht) as Hd1.
    rewrite (Qabs_nonneg_eq (rnd t)) by lra.
    set (d := rnd t) in *.
    assert (Hb : (0 < b)%Q) by lra.
    assert (Hib : (0 < / b)%Q) by (apply Qinv_lt_0_compat; exact Hb).
    assert (Hdb : (0 < d / b)%Q) by (unfold Qdiv; apply Qmult_lt_0_compat; assumption).
    pose proof (rnd_upper (d / b) Hdb) as Hy.
    assert (Hu : (t / b <= 2 # 20001)%Q).
    { apply Qle_shift_div_r; [exact Hb|]. lra. }
    assert (Hdu : (d / b <= t / b * (1 + eps))%Q).
    { unfold Qdiv.
      setoid_replace (t * / b * (1 + eps))%Q with (t * (1 + eps) * / b)%Q by ring.
      apply Qmult_le_compat_r; [exact Hd1 | lra]. }
    unfold eps in *. lra.
  - assert (Hz : (c - w == 0)%Q) by lra.
    rewrite (rnd_zero _ Hz). cbn [Qabs Z.abs].
    rewrite rnd_zero; [reflexivity|]. unfold Qdiv. ring.
Qed.

(** The relative difference of the numbers that the code compares. *)
Lemma computePriceAdvantage_noise (w b c : Q) :
  (0 < w)%Q -> (w <= c)%Q -> (c <= b)%Q ->
  ((c - w) / w < 1 # 10000)%Q ->
  computePriceAdvantage w b c = 0%Q.
Proof.
  intros Hw Hwc Hcb Hrel. apply Qdiv_lt_mult in Hrel; [|exact Hw].
  apply computePriceAdvantage_snap; try assumption. lra.
Qed.

(** The relative difference of the amounts themselves: the rounding of
    [parseFloat] is far below the distance between [1/10000] and the point
    where the code stops snapping. *)
Lemma computePriceAdvantage_noise_exact (worst current : Z) (b : Q) :
  0 < worst -> 0 < current ->
  (parseFloat worst <= parseFloat current)%Q -> (parseFloat current <= b)%Q ->
  ((inject_Z current - inject_Z worst) / inject_Z worst < 1 # 10000)%Q ->
  computePriceAdvantage (parseFloat worst) b (parseFloat current) = 0%Q.
Proof.
  intros Hw Hc Hwc Hcb Hrel.
  apply Qdiv_lt_mult in Hrel; [|apply inject_Z_pos; exact Hw].
  pose proof (parseFloat_upper current Hc) as Hcu.
  pose proof (parseFloat_lower worst Hw) as Hwl.
  pose proof (proj2 (parseFloat_pos worst) Hw) as Hw0.
  apply computePriceAdvantage_snap; try assumption.
  unfold eps in *. lra.
Qed.

(** The entry of a ranked quote, with the worst and the best output of the
    ranking. *)
Lemma ranking_entry quotes front worst r :
  calculateRankings quotes = front ++ [worst] ->
  In r (calculateRankings quotes) ->
  exists best,
    priceAdvantage r
      = computePriceAdvantage (key (quote worst)) (key best) (key (quote r)) /\
    In (quote r) (ranked quotes) /\ In (quote worst) (ranked quotes) /\
    (key (quote worst) <= key (quote r) <= key best)%Q.
Proof.
  intros Hlast Hr.
  pose proof (calculateRankings_quotes quotes) as Hq.
  pose proof (ranked_sorted quotes) as Hs.
  destruct (calculateRankings_shape quotes) as [[E _] | (first & rest & E & Hshape)].
  - rewrite E in Hr. destruct Hr.
  - rewrite Hshape in Hr. apply mapi_from_In in Hr as (x & j & Hx & ->).
    cbn [priceAdvantage quote rankingOf].
    assert (Hw : last (first :: rest) first = quote worst).
    { rewrite <- E, <- Hq, Hlast, map_app. apply last_last. }
    rewrite Hw. rewrite <- E in Hx.
    assert (Hwin : In (quote worst) (ranked quotes)).
    { rewrite <- Hq, Hlast, map_app. apply in_or_app. right. left. reflexivity. }
    exists first. repeat split; auto.
    + rewrite <- Hw, <- E. apply sorted_last_min; assumption.
    + rewrite E in Hs, Hx. apply sorted_head_max with (l := rest); assumption.
Qed.

(** C8.  A ranked quote whose relative difference from the worst ranked
    quote, [(output_i - output_worst) / output_worst] on the amounts, is
    below 0.01% gets the price advantage 0. *)
Theorem noise_snaps_to_zero quotes front worst r :
  calculateRankings quotes = front ++ [worst] ->
  In r (calculateRankings quotes) ->
  ((inject_Z (outputAmount (quote r)) - inject_Z (outputAmount (quote worst)))
     / inject_Z (outputAmount (quote worst)) < 1 # 10000)%Q ->
  priceAdvantage r = 0%Q.
Proof.
  intros Hlast Hr Hrel.
  destruct (ranking_entry _ _ _ _ Hlast Hr) as (best & -> & Hin & Hwin & Hlo & Hhi).
  apply ranked_In in Hin as (_ & _ & Hpos).
  apply ranked_In in Hwin as (_ & _ & Hwpos).
  apply computePriceAdvantage_noise_exact; assumption.
Qed.

(** The same against the smallest ranked amount, should rounding have put
    another quote last. *)
Lemma noise_snaps_to_zero_min quotes (lowest : Z) r :
  In r (calculateRankings quotes) ->
  0 < lowest ->
  Forall (fun r' => lowest <= outputAmount (quote r')) (calculateRankings quotes) ->
  ((inject_Z (outputAmount (quote r)) - inject_Z lowest) / inject_Z lowest < 1 # 10000)%Q ->
  priceAdvantage r = 0%Q.
Proof.
  intros Hr Hlow Hall Hrel.
  destruct (exists_last (l := calculateRankings quotes)) as (front & worst & Hlast).
  { intros E. rewrite E in Hr. destruct Hr. }
  assert (Hw : lowest <= outputAmount (quote worst)).
  { rewrite Forall_forall in Hall. apply Hall. rewrite Hlast.
    apply in_or_app. right. left. reflexivity. }
  destruct (ranking_entry _ _ _ _ Hlast Hr) as (best & -> & Hin & _ & Hlo & Hhi).
  apply ranked_In in Hin as (_ & _ & Hpos).
  apply computePriceAdvantage_noise_exact; try assumption; [lia|].
  apply Qdiv_lt_mult in Hrel; [|apply inject_Z_pos; exact Hlow].
  assert (HW : (0 < inject_Z (outputAmount (quote worst)))%Q) by (apply inject_Z_pos; lia).
  apply Qlt_shift_div_r; [exact HW|].
  rewrite Zle_Qle in Hw. lra.
Qed.

(** The same with the relative difference taken on the numbers that the code
    compares, the amounts after [parseFloat]. *)
Lemma noise_snaps_to_zero_parsed quotes front worst r :
  calculateRankings quotes = front ++ [worst] ->
  In r (calculateRankings quotes) ->
  ((parseFloat (outputAmount (quote r)) - parseFloat (outputAmount (quote worst)))
     / parseFloat (outputAmount (quote worst)) < 1 # 10000)%Q ->
  priceAdvantage r = 0%Q.
Proof.
  intros Hlast Hr Hrel.
  destruct (ranking_entry _ _ _ _ Hlast Hr) as (best & -> & _ & Hwin & Hlo & Hhi).
  apply ranked_In in Hwin as (_ & _ & Hwpos).
  apply computePriceAdvantage_noise; try assumption.
  apply parseFloat_pos. exact Hwpos.
Qed.

Lemma noise_snaps_to_zero_witness :
  let top := rankingOf 100000 100005 (Examples.quoteOf Examples.poolA 100005) 0 in
  let worst := {| rank := 2; ranking_pool := Examples.poolB;
                  quote := Examples.quoteOf Examples.poolB 100000;
                  priceAdvantage := 0 |} in
  calculateRankings [Examples.quoteOf Examples.poolB 100000;
                     Examples.quoteOf Examples.poolA 100005] = [top] ++ [worst] /\
  ((inject_Z 100005 - inject_Z 100000) / inject_Z 100000 < 1 # 10000)%Q /\
  priceAdvantage top = 0%Q.
Proof.
  intros top worst.
  assert (E : calculateRankings [Examples.quoteOf Examples.poolB 100000;
                                 Examples.quoteOf Examples.poolA 100005]
              = [top] ++ [worst]) by (vm_compute; reflexivity).
  split; [exact E|]. split; [reflexivity|].
  apply (noise_snaps_to_zero _ [top] worst top E).
  - rewrite E. left. reflexivity.
  - reflexivity.
Defined.

(** The code measures the gap to the worst quote against the best output,
    so it also snaps quotes whose gap, measured against the worst output, is
    above 0.01%: with outputs 200000, 100015 and 100000 the middle quote is
    0.015% above the worst one and has the price advantage 0. *)
Example snap_is_measured_against_best :
  map (fun r => (rank r, outputAmount (quote r), Qeq_bool (priceAdvantage r) 0))
      (calculateRankings [Examples.quoteOf Examples.poolA 200000;
                          Examples.quoteOf Examples.balancerPool 100015;
                          Examples.quoteOf Examples.poolB 100000])
  = [(1, 200000, false); (2, 100015, true); (3, 100000, true)] /\
  ~ ((inject_Z 100015 - inject_Z 100000) / inject_Z 100000 < 1 # 10000)%Q.
Proof. split; [vm_compute; reflexivity | vm_compute; discriminate]. Qed.

(** ** The aggregator adapter *)

Section ZeroXFacts.
Context {World : Type} (env : ZeroX.Env World).

Lemma getZeroXQuote_inv tokenPair w res w' :
  ZeroX.getZeroXQuote env tokenPair w = (Ok (Some res), w') ->
  exists r,
    ZeroX.zeroXApi_getQuote env tokenPair w = (Ok (Some r), w') /\
    ZeroX.liquidityAvailable r = true /\
    success (ZeroX.result_quote res) = true /\
    outputAmount (ZeroX.result_quote res) =
      ZeroX.calculateNetQuoteAmount env (ZeroX.buyAmount r)
        (Some (ZeroX.orZero (ZeroX.zeroExFee_amount r))).
Proof.
  unfold ZeroX.getZeroXQuote, try_catch, bind, ret.
  destruct (ZeroX.zeroXApi_getQuote env tokenPair w) as [[[r|]|e] w1]; try discriminate.
  destruct (ZeroX.liquidityAvailable r) eqn:L; cbn [negb]; try discriminate.
  destruct (ZeroX.extractProtocolInfo env (ZeroX.fills r)); try discriminate.
  intros [= <- <-]. exists r. cbn. auto.
Qed.

Lemma calculateNetQuoteAmount_fee buy fee b z :
  fee <> EmptyString -> fee <> "0"%string ->
  ZeroX.getBigInt env buy = Some b -> ZeroX.getBigInt env fee = Some z ->
  ZeroX.calculateNetQuoteAmount env buy (Some fee) = ZeroX.toString (b + z).
Proof.
  intros H1 H2 Hb Hz. unfold ZeroX.calculateNetQuoteAmount.
  apply String.eqb_neq in H1, H2. rewrite H1, H2, Hb, Hz. reflexivity.
Qed.

(** C9, as the code has it.  The amount that the adapter reports for an
    aggregator quote is the headline [buyAmount] with the aggregator's fee
    added back, [buyAmount + fee], "the gross amount for comparison"; when the
    fee is absent, empty or ["0"], the reported amount is [buyAmount] itself,
    and so it is when one of the two strings is no integer for
    [ethers.getBigInt]. *)
Theorem zeroX_quote_adds_fee_back tokenPair w res w' :
  ZeroX.getZeroXQuote env tokenPair w = (Ok (Some res), w') ->
  exists r,
    ZeroX.zeroXApi_getQuote env tokenPair w = (Ok (Some r), w') /\
    (ZeroX.zeroExFee_amount r = None \/ ZeroX.zeroExFee_amount r = Some EmptyString \/
     ZeroX.zeroExFee_amount r = Some "0"%string ->
       outputAmount (ZeroX.result_quote res) = ZeroX.buyAmount r) /\
    (forall fee b z,
       ZeroX.zeroExFee_amount r = Some fee -> fee <> EmptyString -> fee <> "0"%string ->
       ZeroX.getBigInt env (ZeroX.buyAmount r) = Some b ->
       ZeroX.getBigInt env fee = Some z ->
       outputAmount (ZeroX.result_quote res) = ZeroX.toString (b + z)) /\
    (forall fee,
       ZeroX.zeroExFee_amount r = Some fee ->
       ZeroX.getBigInt env (ZeroX.buyAmount r) = None \/ ZeroX.getBigInt env fee = None ->
       outputAmount (ZeroX.result_quote res) = ZeroX.buyAmount r).
Proof.
  intros H. apply getZeroXQuote_inv in H as (r & Hr & _ & _ & Hout).
  exists r. split; [exact Hr|]. rewrite Hout. split; [|split].
  - intros [-> | [-> | ->]]; reflexivity.
  - intros fee b z -> H1 H2 Hb Hz. cbn [ZeroX.orZero].
    destruct (String.eqb_spec fee EmptyString); [contradiction|].
    apply calculateNetQuoteAmount_fee; assumption.
  - intros fee -> Hnone. unfold ZeroX.calculateNetQuoteAmount, ZeroX.orZero.
    destruct (String.eqb fee EmptyString); [reflexivity|].
    destruct (_ || _); [reflexivity|].
    destruct Hnone as [-> | Hf]; [reflexivity|].
    rewrite Hf. destruct (ZeroX.getBigInt env (ZeroX.buyAmount r)); reflexivity.
Qed.

End ZeroXFacts.

(** C9 as stated fails.  For a headline [buyAmount] of 1000 and a fee of 5
    the adapter reports 1005, the headline plus the fee, and not 995, the
    headline with the fee netted out. *)
Lemma zeroX_fee_not_netted_out :
  ZeroX.getZeroXQuote (Examples.zeroXOf (Some Examples.feeResponse))
    (Examples.pairOf Examples.WETH Examples.USDT) []
  = (Ok (Some Examples.feeResult), ["zeroXApi.getQuote"%string]) /\
  ZeroX.buyAmount Examples.feeResponse = "1000"%string /\
  ZeroX.zeroExFee_amount Examples.feeResponse = Some "5"%string /\
  outputAmount (ZeroX.result_quote Examples.feeResult) = ZeroX.toString (1000 + 5) /\
  outputAmount (ZeroX.result_quote Examples.feeResult) <> ZeroX.toString (1000 - 5).
Proof.
  split; [vm_compute; reflexivity|]. repeat split. vm_compute. discriminate.
Qed.

Lemma zeroX_quote_adds_fee_back_witness :
  exists r,
    ZeroX.zeroXApi_getQuote (Examples.zeroXOf (Some Examples.feeResponse))
      (Examples.pairOf Examples.WETH Examples.USDT) []
      = (Ok (Some r), ["zeroXApi.getQuote"%string]) /\
    (ZeroX.zeroExFee_amount r = None \/ ZeroX.zeroExFee_amount r = Some EmptyString \/
     ZeroX.zeroExFee_amount r = Some "0"%string ->
       outputAmount (ZeroX.result_quote Examples.feeResult) = ZeroX.buyAmount r) /\
    (forall fee b z,
       ZeroX.zeroExFee_amount r = Some fee -> fee <> EmptyString -> fee <> "0"%string ->
       Examples.decimalBigInt (ZeroX.buyAmount r) = Some b ->
       Examples.decimalBigInt fee = Some z ->
       outputAmount (ZeroX.result_quote Examples.feeResult) = ZeroX.toString (b + z)) /\
    (forall fee,
       ZeroX.zeroExFee_amount r = Some fee ->
       Examples.decimalBigInt (ZeroX.buyAmount r) = None \/
       Examples.decimalBigInt fee = None ->
       outputAmount (ZeroX.result_quote Examples.feeResult) = ZeroX.buyAmount r).
Proof.
  apply (zeroX_quote_adds_fee_back (Examples.zeroXOf (Some Examples.feeResponse))
           (Examples.pairOf Examples.WETH Examples.USDT) []
           Examples.feeResult ["zeroXApi.getQuote"%string]).
  vm_compute. reflexivity.
Defined.

(** ** Exceptions and fallbacks *)

Section EngineFacts.
Context {World : Type} (env : Engine.Env World).


(** A call that does not touch the world, and what follows it. *)
Lemma bind_lift {A B : Type} (r : Result A) (k : A -> M World B) (w : World) :
  bind (lift r) k w = match r with Ok a => k a w | Throw e => (Throw e, w) end.
Proof. destruct r; reflexivity. Qed.


(** The first tier that returns decides, and the later ones are not run. *)
Lemma firstSuccess_first_wins {A : Type} (tier : M World A) later fallback w v w' :
  tier w = (Ok v, w') -> firstSuccess (tier :: later) fallback w = (Ok v, w').
Proof. intros H. cbn [firstSuccess]. unfold try_catch. rewrite H. reflexivity. Qed.

Lemma firstSuccess_next {A : Type} (tier : M World A) later fallback w e w' :
  tier w = (Throw e, w') ->
  firstSuccess (tier :: later) fallback w = firstSuccess later fallback w'.
Proof. intros H. cbn [firstSuccess]. unfold try_catch. rewrite H. reflexivity. Qed.



(** An input that [formatUnits] refuses ends the quoter before any tier is
    tried: the exception of [formatUnits] leaves it, and the world is as it
    was. *)
Lemma getFluidQuote_unformattable pool inputAmount w e :
  Engine.formatUnits env inputAmount (decimals (tokens_base pool)) = Throw e ->
  Engine.getFluidQuote env pool inputAmount w = (Throw e, w) /\
  Engine.getFluidEstimatedQuote env pool inputAmount w = (Throw e, w).
Proof.
  intros H. unfold Engine.getFluidQuote, Engine.getFluidEstimatedQuote, bind, lift.
  rewrite H. split; reflexivity.
Qed.



End EngineFacts.

(** The [formatUnits] of the examples renders what the library renders. *)
Lemma Examples_formatUnits_renders : Renders Examples.formatUnits.
Proof.
  intros value decimals [Hv Hd]. unfold Examples.formatUnits.
  destruct (Z.ltb_spec 80 decimals) as [H|_]; [lia|].
  destruct (Z.leb_spec (- 2 ^ 511) value) as [_|H]; [|lia].
  destruct (Z.ltb_spec value (2 ^ 511)) as [_|H]; [|lia].
  cbn [andb]. eauto.
Qed.


(** Beyond the range of [formatUnits] no strategy is tried: the quoter
    throws what [formatUnits] throws. *)
Example fluid_quote_of_an_unformattable_amount :
  Engine.getFluidQuote Examples.bothTiers Examples.fluidUSDe (2 ^ 600) []
  = (Throw {| isError := true; message := "overflow";
              status := None; code := Some "NUMERIC_FAULT"%string |}, []).
Proof. vm_compute. reflexivity. Qed.


(** With both chain-backed tiers reverting, all three are run in turn. *)
Example fluid_falls_through_to_estimate :
  Engine.getFluidQuote (Examples.chain [] [] [] [] None) Examples.fluidUSDe
    (10000 * 10 ^ 18) []
    = (Ok 9998000000, ["getFluidRealPriceImpactQuote"; "getFluidLiveQuote"]%string).
Proof. vm_compute. reflexivity. Qed.

(** ** One quote per pool *)

Section SimulationFacts.
Context {World : Type} (env : Engine.Env World).

Ltac run_quoter q :=
  unfold bind, ret; destruct q as [[out|e] w1]; intros [= <- <-] || discriminate.

(** The complete quote that the [switch] returns is the successful quote of
    the aggregator. *)
Lemma protocolQuote_aggregator pool inputAmount tokenPair w q w' :
  Engine.protocolQuote env pool inputAmount tokenPair w = (Ok (inr q), w') ->
  dex pool = "zerox"%string /\ success q = true.
Proof.
  unfold Engine.protocolQuote.
  destruct (_ || _).
  { unfold bind, ret.
    destruct (Engine.getUniswapV2Quote env pool inputAmount w) as [[out|e] w1]; discriminate. }
  destruct (Engine.dexIs pool "uniswap_v3").
  { unfold bind, ret.
    destruct (Engine.getUniswapV3Quote env pool inputAmount w) as [[out|e] w1]; discriminate. }
  destruct (Engine.dexIs pool "uniswap_v4").
  { unfold bind, ret.
    destruct (Engine.getUniswapV4Quote env pool inputAmount w) as [[out|e] w1]; discriminate. }
  destruct (Engine.dexIs pool "curve").
  { unfold bind, ret.
    destruct (Engine.getCurveQuote env pool inputAmount w) as [[out|e] w1]; discriminate. }
  destruct (Engine.dexIs pool "balancer"); [discriminate|].
  destruct (Engine.dexIs pool "fluid").
  { unfold bind, ret.
    destruct (Engine.getFluidQuote env pool inputAmount w) as [[out|e] w1]; discriminate. }
  destruct (Engine.dexIs pool "zerox") eqn:Z; [|discriminate].
  unfold bind, throw, ret.
  destruct (ZeroX.getZeroXQuote (Engine.zeroX env) tokenPair w) as [[[r|]|e] w1] eqn:E;
    try discriminate.
  intros [= <- <-]. apply getZeroXQuote_inv in E as (r0 & _ & _ & Hs & _).
  split; [apply String.eqb_eq; exact Z | exact Hs].
Qed.

(** The quote of a pool, with the [catch] of the loop around it, is the
    quote that stands for the outcome of the protocol quoter; no exception
    is left. *)
Lemma guarded_quote pool inputAmount tokenPair w outcome w1 :
  Engine.protocolQuote env pool inputAmount tokenPair w = (outcome, w1) ->
  try_catch (Engine.getQuoteForPoolWithAmount env pool inputAmount tokenPair)
            (fun error => ret (Engine.failedQuote pool inputAmount error)) w
  = (Ok (quoteFor env inputAmount pool outcome), w1).
Proof.
  intros E. unfold Engine.getQuoteForPoolWithAmount, try_catch, bind, ret, lift, quoteFor.
  rewrite E. destruct outcome as [[outputAmount|q]|e]; [|reflexivity|].
  - destruct (Engine.formatUnits env inputAmount (decimals (tokens_base pool))) as [s|e];
      [|reflexivity].
    destruct (Engine.formatUnits env outputAmount (decimals (tokens_quote pool)));
      reflexivity.
  - destruct (Engine.formatUnits env inputAmount (decimals (tokens_base pool)));
      reflexivity.
Qed.

(** Without the [catch] of the loop: where [formatUnits] renders the input,
    [getQuoteForPoolWithAmount] itself returns that quote. *)
Lemma getQuoteForPoolWithAmount_returns pool inputAmount tokenPair w outcome w1 rendered :
  Engine.protocolQuote env pool inputAmount tokenPair w = (outcome, w1) ->
  Engine.formatUnits env inputAmount (decimals (tokens_base pool)) = Ok rendered ->
  Engine.getQuoteForPoolWithAmount env pool inputAmount tokenPair w
  = (Ok (quoteFor env inputAmount pool outcome), w1).
Proof.
  intros E H. unfold Engine.getQuoteForPoolWithAmount, try_catch, bind, ret, lift, quoteFor.
  rewrite E. destruct outcome as [[outputAmount|q]|e]; [|reflexivity|].
  - rewrite H.
    destruct (Engine.formatUnits env outputAmount (decimals (tokens_quote pool)));
      reflexivity.
  - rewrite H. reflexivity.
Qed.

(** A failed quote has the output 0. *)
Lemma quoteFor_failureHasNoOutput pool inputAmount tokenPair w outcome w1 :
  Engine.protocolQuote env pool inputAmount tokenPair w = (outcome, w1) ->
  Engine.failureHasNoOutput (quoteFor env inputAmount pool outcome).
Proof.
  intros E. unfold Engine.failureHasNoOutput, quoteFor.
  destruct outcome as [[outputAmount|q]|e].
  - destruct (Engine.formatUnits env inputAmount _);
      [destruct (Engine.formatUnits env outputAmount _)|]; cbn; congruence.
  - apply protocolQuote_aggregator in E as [_ Hs]. congruence.
  - destruct (Engine.formatUnits env inputAmount _); reflexivity.
Qed.

(** An exception of the quoter becomes the failed quote of the pool that
    carries its message, where the input can be formatted; shown for the V3
    quoter, the other protocols go the same way. *)
Lemma quoter_exception_becomes_failed_quote pool inputAmount tokenPair w e w' rendered :
  dex pool = "uniswap_v3"%string ->
  Engine.getUniswapV3Quote env pool inputAmount w = (Throw e, w') ->
  Engine.formatUnits env inputAmount (decimals (tokens_base pool)) = Ok rendered ->
  Engine.getQuoteForPoolWithAmount env pool inputAmount tokenPair w
    = (Ok (Engine.failedQuote pool inputAmount e), w').
Proof.
  intros Hdex Hq Hf.
  rewrite (getQuoteForPoolWithAmount_returns pool inputAmount tokenPair w (Throw e) w' rendered).
  - unfold quoteFor. rewrite Hf. reflexivity.
  - unfold Engine.protocolQuote, Engine.dexIs, bind. rewrite Hdex.
    cbn [String.eqb Ascii.eqb Bool.eqb orb andb]. rewrite Hq. reflexivity.
  - exact Hf.
Qed.

Lemma Collected_length inputAmount tokenPair pools w quotes w' :
  Collected env inputAmount tokenPair pools w quotes w' ->
  List.length quotes = List.length pools.
Proof. induction 1; cbn; congruence. Qed.

Lemma Collected_failureHasNoOutput inputAmount tokenPair pools w quotes w' :
  Collected env inputAmount tokenPair pools w quotes w' ->
  Forall Engine.failureHasNoOutput quotes.
Proof.
  induction 1 as [|pool pools w outcome w1 quotes w' E _ IH]; constructor; [|exact IH].
  eapply quoteFor_failureHasNoOutput. exact E.
Qed.

(** The loop never throws. *)
Lemma collectQuotes_returns pools inputAmount tokenPair acc w :
  exists qs w',
    Engine.collectQuotes env pools inputAmount tokenPair acc w = (Ok (acc ++ qs), w') /\
    Collected env inputAmount tokenPair pools w qs w'.
Proof.
  revert acc w. induction pools as [|pool pools IH]; intros acc w.
  - exists [], w. cbn. rewrite app_nil_r. split; [reflexivity | constructor].
  - cbn [Engine.collectQuotes]. unfold bind at 1.
    destruct (Engine.protocolQuote env pool inputAmount tokenPair w) as [outcome w1] eqn:E.
    rewrite (guarded_quote pool inputAmount tokenPair w outcome w1 E).
    destruct (IH (acc ++ [quoteFor env inputAmount pool outcome]) w1)
      as (qs & w' & E' & Hqs).
    exists (quoteFor env inputAmount pool outcome :: qs), w'.
    rewrite E', <- app_assoc. split; [reflexivity|].
    econstructor; eassumption.
Qed.

(** The simulation returns exactly when [formatUnits] renders the input with
    the decimals of the sell token; its quotes are then the collected ones
    and its ranking is computed from the quotes flagged successful. *)
Lemma simulate_returns pools inputAmount tokenPair w rendered :
  Engine.formatUnits env inputAmount (decimals (sellToken tokenPair)) = Ok rendered ->
  exists qs w',
    Engine.simulateSwapsWithAmount env pools inputAmount tokenPair w
    = (Ok (simulationOf qs), w') /\
    Collected env inputAmount tokenPair pools w qs w'.
Proof.
  intros H.
  destruct (collectQuotes_returns pools inputAmount tokenPair [] w) as (qs & w' & E & Hc).
  exists qs, w'. unfold Engine.simulateSwapsWithAmount, bind, ret, lift.
  rewrite H, E. cbn [app]. auto.
Qed.

Lemma simulate_throws pools inputAmount tokenPair w e :
  Engine.formatUnits env inputAmount (decimals (sellToken tokenPair)) = Throw e ->
  Engine.simulateSwapsWithAmount env pools inputAmount tokenPair w = (Throw e, w).
Proof.
  intros H. unfold Engine.simulateSwapsWithAmount, bind, lift. rewrite H. reflexivity.
Qed.

Lemma simulate_inv pools inputAmount tokenPair w sim w' :
  Engine.simulateSwapsWithAmount env pools inputAmount tokenPair w = (Ok sim, w') ->
  exists qs, sim = simulationOf qs /\ Collected env inputAmount tokenPair pools w qs w'.
Proof.
  intros E.
  destruct (Engine.formatUnits env inputAmount (decimals (sellToken tokenPair)))
    as [rendered|e] eqn:H.
  - destruct (simulate_returns pools inputAmount tokenPair w rendered H)
      as (qs & w1 & E1 & Hc).
    rewrite E1 in E. injection E as <- <-. eauto.
  - rewrite (simulate_throws pools inputAmount tokenPair w e H) in E. discriminate.
Qed.

(** C2, as the code has it.  For every pool list and every input amount that
    [formatUnits] renders with the decimals of the sell token, the
    simulation returns, with exactly one quote per pool in the order of the
    pool list: the protocol quoters are run in that order, and the quote of
    a pool is the successful quote of the amount its quoter returns, the
    quote of the aggregator, or the failed quote that stands for the
    exception of the quoter (or for the one that [formatUnits] throws for
    an amount it cannot render); no exception of a pool ends the run.  The
    empty pool list gives [{quotes: [], bestQuote: null, rankings: []}] and
    touches nothing. *)
Theorem simulate_one_quote_per_pool pools inputAmount tokenPair w rendered :
  Engine.formatUnits env inputAmount (decimals (sellToken tokenPair)) = Ok rendered ->
  (exists sim w',
     Engine.simulateSwapsWithAmount env pools inputAmount tokenPair w = (Ok sim, w') /\
     Collected env inputAmount tokenPair pools w (quotes sim) w' /\
     List.length (quotes sim) = List.length pools) /\
  Engine.simulateSwapsWithAmount env [] inputAmount tokenPair w =
    (Ok {| quotes := []; bestQuote := None; rankings := [] |}, w).
Proof.
  intros H. split.
  - destruct (simulate_returns pools inputAmount tokenPair w rendered H)
      as (qs & w' & E & Hc).
    exists (simulationOf qs), w'. split; [exact E|]. cbn [simulationOf quotes].
    split; [exact Hc | exact (Collected_length _ _ _ _ _ _ Hc)].
  - unfold Engine.simulateSwapsWithAmount, bind, ret, lift. rewrite H. reflexivity.
Qed.

Lemma ranked_filter_success qs q :
  In q (ranked (filter success qs)) <->
  In q qs /\ success q = true /\ 0 < outputAmount q.
Proof.
  rewrite ranked_In, filter_In. tauto.
Qed.

(** C3, as the code has it.  In every simulation that the engine returns a
    failed quote has the output 0, and a quote with the output 0 is never
    ranked, whatever its [success] flag says: every ranked quote is
    successful with a positive output. *)
Theorem zero_output_never_ranked pools inputAmount tokenPair w sim w' :
  Engine.simulateSwapsWithAmount env pools inputAmount tokenPair w = (Ok sim, w') ->
  Forall Engine.failureHasNoOutput (quotes sim) /\
  Forall (fun r => success (quote r) = true /\ 0 < outputAmount (quote r))
         (rankings sim).
Proof.
  intros E. apply simulate_inv in E as (qs & -> & Hc).
  cbn [simulationOf quotes rankings].
  split; [exact (Collected_failureHasNoOutput _ _ _ _ _ _ Hc)|].
  apply Forall_forall. intros r Hr.
  assert (Hq : In (quote r) (ranked (filter success qs))).
  { rewrite <- calculateRankings_quotes. apply in_map. exact Hr. }
  apply ranked_filter_success in Hq. tauto.
Qed.


End SimulationFacts.

Lemma simulate_one_quote_per_pool_witness :
  (exists sim w',
     Engine.simulateSwapsWithAmount Examples.closeOutputs [Examples.poolA; Examples.poolB]
       1000 (Examples.pairOf Examples.WETH Examples.USDe) [] = (Ok sim, w') /\
     Collected Examples.closeOutputs 1000 (Examples.pairOf Examples.WETH Examples.USDe)
       [Examples.poolA; Examples.poolB] [] (quotes sim) w' /\
     List.length (quotes sim) = List.length [Examples.poolA; Examples.poolB]) /\
  Engine.simulateSwapsWithAmount Examples.closeOutputs [] 1000
    (Examples.pairOf Examples.WETH Examples.USDe) []
  = (Ok {| quotes := []; bestQuote := None; rankings := [] |}, []).
Proof.
  apply (simulate_one_quote_per_pool Examples.closeOutputs [Examples.poolA; Examples.poolB]
           1000 (Examples.pairOf Examples.WETH Examples.USDe) [] "1000").
  reflexivity.
Defined.

Lemma zero_output_never_ranked_witness :
  Forall Engine.failureHasNoOutput (quotes Examples.dustRun) /\
  Forall (fun r => success (quote r) = true /\ 0 < outputAmount (quote r))
         (rankings Examples.dustRun).
Proof.
  apply (zero_output_never_ranked Examples.bothTiers [Examples.balancerPool] 1
           (Examples.pairOf Examples.USDe Examples.USDT) [] Examples.dustRun []).
  vm_compute. reflexivity.
Defined.


(** C2 as stated fails.  The input amount is formatted for the console before
    the loop and outside every [try]: for an amount of 2^600 units
    [formatUnits] throws, and the simulation ends in that exception, for the
    empty pool list as for any other. *)
Lemma simulation_of_an_unformattable_amount :
  Engine.simulateSwapsWithAmount Examples.bothTiers [] (2 ^ 600)
    (Examples.pairOf Examples.USDe Examples.USDT) []
  = (Throw {| isError := true; message := "overflow";
              status := None; code := Some "NUMERIC_FAULT"%string |}, []).
Proof. vm_compute. reflexivity. Qed.

(** A reverting pool in the middle of the list costs its own quote only. *)
Example failing_pool_is_isolated :
  let env := Examples.chain [("0xA"%string, 500)] [] [] [] None in
  let pools := [Examples.poolA; Examples.poolB; Examples.balancerPool] in
  option_map (map (fun q => (address (pool q), success q, outputAmount q, error q)))
    (match fst (Engine.simulateSwapsWithAmount env pools (3 * 10 ^ 18)
                  (Examples.pairOf Examples.WETH Examples.USDe) []) with
     | Ok sim => Some (quotes sim)
     | Throw _ => None
     end)
  = Some [("0xA"%string, true, 500, None);
          ("0xB"%string, false, 0, Some "execution reverted"%string);
          ("0x0000000000000000000000000000000000000002"%string, true, 3000000, None)].
Proof. vm_compute. reflexivity. Qed.

(** A protocol tag without a quoter: the exception of the [default] branch
    becomes the failed quote. *)
Example unsupported_dex_is_a_failed_quote :
  fst (Engine.getQuoteForPoolWithAmount Examples.bothTiers
         (Examples.poolOf "pancakeswap" "0xC" Examples.WETH Examples.USDT) 1000
         (Examples.pairOf Examples.WETH Examples.USDT) [])
  = Ok {| pool := Examples.poolOf "pancakeswap" "0xC" Examples.WETH Examples.USDT;
          inputAmount := 1000;
          outputAmount := 0;
          success := false;
          error := Some "Unsupported DEX: pancakeswap"%string;
          protocolDetails := None |}.
Proof. vm_compute. reflexivity. Qed.

(** C3 as stated fails.  The weighted-pool quoter divides the input by 10^12
    to pass from 18 to 6 decimals; for an input of one unit the result is 0,
    and the quote is returned with [success = true]. *)
Lemma zero_output_marked_successful :
  Engine.simulateSwapsWithAmount Examples.bothTiers [Examples.balancerPool] 1
    (Examples.pairOf Examples.USDe Examples.USDT) []
  = (Ok {| quotes := [ {| pool := Examples.balancerPool;
                          inputAmount := 1;
                          outputAmount := 0;
                          success := true;
                          error := None;
                          protocolDetails := None |} ];
           bestQuote := None;
           rankings := [] |}, []).
Proof. vm_compute. reflexivity. Qed.


(** ** The retry loop *)

Section LimiterFacts.
Context {World T : Type} (elapse : Z -> World -> World) (fn : M World T).

Lemma Throttled_prefix delays awaited w w' :
  Throttled elapse fn delays awaited w w' -> exists rest, delays = awaited ++ rest.
Proof.
  induction 1 as [delays w | delay rest awaited w e w1 w' _ _ _ [rest' ->]].
  - exists delays. reflexivity.
  - exists rest'. reflexivity.
Qed.

Lemma retryFrom_settles delays awaited w wk o w' :
  Throttled elapse fn delays awaited w wk ->
  fn wk = (o, w') ->
  match o with
  | Ok _ => True
  | Throw error => RateLimiter.isRateLimitError error = false \/ awaited = delays
  end ->
  RateLimiter.retryFrom elapse delays fn w = (o, w', awaited).
Proof.
  induction 1 as [delays w | delay rest awaited w e w1 wk Hfn Hrl _ IH]; intros Hk Ho.
  - destruct delays as [|d ds]; cbn [RateLimiter.retryFrom]; rewrite Hk;
      destruct o as [v|e]; try reflexivity.
    + destruct (RateLimiter.isRateLimitError e); reflexivity.
    + destruct Ho as [-> | Habs]; [reflexivity | discriminate].
  - cbn [RateLimiter.retryFrom]. rewrite Hfn, Hrl, IH; [reflexivity | exact Hk |].
    destruct o as [v|e']; [exact I|].
    destruct Ho as [Hn | Heq]; [left; exact Hn | right; congruence].
Qed.

(** C6.  Let the first invocations of a call be answered with rate-limit
    errors, each followed by its backoff wait, and let the next invocation
    settle: with a value, with an error that is no rate-limit signal, or with
    any error once the five delays are used up.  Then the executor hands
    exactly that outcome to the caller, having waited exactly those delays,
    which are an initial part of 1s, 2s, 4s, 8s, 16s.  In particular an error
    that is no rate-limit signal is handed on at once ([awaited = []] when it
    comes first), and a rate-limit error is retried five times, after which
    the error of the last invocation is surfaced. *)
Theorem execute_retries_rate_limits_only awaited w wk o w' :
  Throttled elapse fn RateLimiter.retryDelays awaited w wk ->
  fn wk = (o, w') ->
  settles o awaited ->
  RateLimiter.execute elapse fn w = (o, w', awaited) /\
  exists rest, [1000; 2000; 4000; 8000; 16000] = awaited ++ rest.
Proof.
  intros Hrun Hk Hs. split.
  - unfold RateLimiter.execute, RateLimiter.executeWithRetry. cbn [skipn].
    eapply retryFrom_settles; eauto.
  - apply (Throttled_prefix _ _ _ _ Hrun).
Qed.

End LimiterFacts.

Lemma execute_retries_rate_limits_only_witness :
  RateLimiter.execute (fun _ calls => calls) (Examples.rateLimited 2) 0%nat
    = (Ok 42, 3%nat, [1000; 2000]) /\
  exists rest, [1000; 2000; 4000; 8000; 16000] = [1000; 2000] ++ rest.
Proof.
  apply (execute_retries_rate_limits_only (fun _ calls => calls) (Examples.rateLimited 2)
           [1000; 2000] 0%nat 2%nat (Ok 42) 3%nat).
  - eapply Throttled_cons; [reflexivity | reflexivity |].
    eapply Throttled_cons; [reflexivity | reflexivity |].
    apply Throttled_nil.
  - reflexivity.
  - exact I.
Defined.

Example rate_limit_surfaces_after_five_retries :
  RateLimiter.execute (fun _ calls => calls) (Examples.rateLimited 10) 0%nat
    = (Throw {| isError := true; message := "Too Many Requests";
                status := Some 429; code := None |},
       6%nat, [1000; 2000; 4000; 8000; 16000]).
Proof. reflexivity. Qed.

Example other_error_is_not_retried :
  RateLimiter.execute (fun _ (calls : nat) => calls)
    (fun calls => (@Throw Z (Error "execution reverted"), S calls)) 0%nat
    = (Throw (Error "execution reverted"), 1%nat, []).
Proof. reflexivity. Qed.

(** ** Tick alignment *)

Lemma roundToSpacing_aligned tick tickSpacing :
  Z.rem (TickAlign.roundToSpacing tick tickSpacing) tickSpacing = 0.
Proof.
  unfold TickAlign.roundToSpacing. destruct (Z.eq_dec tickSpacing 0) as [-> | Hs].
  - rewrite Z.mul_0_r. reflexivity.
  - apply Z.rem_mul. exact Hs.
Qed.

(** What the SDK function returns is on the grid of the spacing. *)
Lemma nearestUsableTick_aligned tick tickSpacing v :
  TickAlign.nearestUsableTick tick tickSpacing = Some v -> Z.rem v tickSpacing = 0.
Proof.
  unfold TickAlign.nearestUsableTick. destruct (_ && _) eqn:G; [|discriminate].
  apply andb_true_iff in G as [G _]. apply andb_true_iff in G as [G _].
  apply Z.ltb_lt in G.
  unfold TickAlign.roundToSpacing.
  set (k := TickAlign.Math_round _).
  destruct (_ <? TickAlign.MIN_TICK); [|destruct (TickAlign.MAX_TICK <? _)]; intros [= <-].
  - replace (k * tickSpacing + tickSpacing) with ((k + 1) * tickSpacing) by ring.
    apply Z.rem_mul. lia.
  - replace (k * tickSpacing - tickSpacing) with ((k - 1) * tickSpacing) by ring.
    apply Z.rem_mul. lia.
  - apply Z.rem_mul. lia.
Qed.

(** So is the manual alignment as long as the clamp does not bite. *)
Lemma manualAlign_aligned_unless_clamped rawTick tickSpacing :
  TickAlign.MIN_TICK <= TickAlign.roundToSpacing rawTick tickSpacing <= TickAlign.MAX_TICK ->
  Z.rem (TickAlign.manualAlign rawTick tickSpacing) tickSpacing = 0.
Proof.
  intros H. unfold TickAlign.manualAlign.
  rewrite Z.min_r, Z.max_r by lia. apply roundToSpacing_aligned.
Qed.

Lemma Math_round_bounds (x : Q) :
  (inject_Z (TickAlign.Math_round x) - (1 # 2) <= x)%Q /\
  (x < inject_Z (TickAlign.Math_round x) + (1 # 2))%Q.
Proof.
  unfold TickAlign.Math_round.
  pose proof (Qfloor_le (x + (1 # 2))) as Hl.
  pose proof (Qlt_floor (x + (1 # 2))) as Hu.
  rewrite inject_Z_plus in Hu. change (inject_Z 1) with 1%Q in Hu.
  split; lra.
Qed.

Lemma inject_Z_nonneg (s : Z) : 0 <= s -> (0 <= inject_Z s)%Q.
Proof. intros H. unfold Qle. simpl. lia. Qed.

(** The quotient of two integers as the code divides them. *)
Lemma quotient_times_divisor (t s : Z) :
  0 < s -> (inject_Z t / inject_Z s * inject_Z s == inject_Z t)%Q.
Proof.
  intros Hs. pose proof (proj2 (inject_Z_pos s) Hs).
  field. intros E. lra.
Qed.

Lemma eps_small (t : Z) :
  0 <= t <= 887272 -> (2 * (eps * inject_Z t) < 1)%Q.
Proof.
  intros [H0 H1]. apply inject_Z_nonneg in H0. rewrite Zle_Qle in H1.
  change (inject_Z 887272) with (887272 # 1)%Q in H1.
  unfold eps. lra.
Qed.

(** Rounding to the spacing finds a nearest multiple: the quotient of two
    integers of this size is too far from a half-integer, unless it is one,
    for the rounding of the division to change the outcome. *)
Lemma roundToSpacing_nearest (tick tickSpacing : Z) :
  TickAlign.MIN_TICK <= tick <= TickAlign.MAX_TICK -> 0 < tickSpacing ->
  2 * Z.abs (TickAlign.roundToSpacing tick tickSpacing - tick) <= tickSpacing.
Proof.
  unfold TickAlign.MIN_TICK, TickAlign.MAX_TICK, TickAlign.roundToSpacing, fdiv.
  intros Ht Hs.
  set (x := (inject_Z tick / inject_Z tickSpacing)%Q).
  set (k := TickAlign.Math_round (rnd x)).
  pose proof (Math_round_bounds (rnd x)) as [Hl Hu]. fold k in Hl, Hu.
  pose proof (quotient_times_divisor tick tickSpacing Hs) as Hx. fold x in Hx.
  pose proof (proj2 (inject_Z_pos tickSpacing) Hs) as Hsq.
  cut ((2 * inject_Z k - 1) * inject_Z tickSpacing < 2 * inject_Z tick + 1 /\
       2 * inject_Z tick < (2 * inject_Z k + 1) * inject_Z tickSpacing + 1)%Q.
  { intros [A B].
    assert (A' : (2 * k - 1) * tickSpacing < 2 * tick + 1).
    { rewrite Zlt_Qlt. unfold Z.sub.
      repeat (rewrite inject_Z_plus || rewrite inject_Z_mult).
      change (inject_Z 2) with 2%Q. change (inject_Z 1) with 1%Q.
      change (inject_Z (- (1))) with (- (1))%Q. lra. }
    assert (B' : 2 * tick < (2 * k + 1) * tickSpacing + 1).
    { rewrite Zlt_Qlt.
      repeat (rewrite inject_Z_plus || rewrite inject_Z_mult).
      change (inject_Z 2) with 2%Q. change (inject_Z 1) with 1%Q. lra. }
    lia. }
  destruct (Z_le_gt_dec 0 tick) as [Hpos | Hneg].
  - assert (Hx0 : (0 <= x)%Q).
    { unfold x. apply Qle_shift_div_l; [exact Hsq|]. rewrite Qmult_0_l.
      apply inject_Z_nonneg. exact Hpos. }
    pose proof (rnd_error_pos x Hx0) as [E1 E2].
    pose proof (eps_small tick (conj Hpos (proj2 Ht))) as He.
    assert (M1 : ((inject_Z k - (1 # 2)) * inject_Z tickSpacing
                  <= (x + eps * x) * inject_Z tickSpacing)%Q)
      by (apply Qmult_le_compat_r; lra).
    assert (M2 : ((x - eps * x) * inject_Z tickSpacing
                  <= (inject_Z k + (1 # 2)) * inject_Z tickSpacing)%Q)
      by (apply Qmult_le_compat_r; lra).
    assert (Ex : ((x + eps * x) * inject_Z tickSpacing == inject_Z tick + eps * inject_Z tick)%Q)
      by (rewrite <- Hx; ring).
    assert (Ex' : ((x - eps * x) * inject_Z tickSpacing == inject_Z tick - eps * inject_Z tick)%Q)
      by (rewrite <- Hx; ring).
    rewrite Ex in M1. rewrite Ex' in M2. split; lra.
  - assert (Hx0 : (x <= 0)%Q).
    { unfold x. apply Qle_shift_div_r; [exact Hsq|]. rewrite Qmult_0_l.
      unfold Qle. simpl. lia. }
    pose proof (rnd_error_neg x Hx0) as [E1 E2].
    assert (He : (2 * (eps * inject_Z (- tick)) < 1)%Q) by (apply eps_small; lia).
    rewrite inject_Z_opp in He.
    assert (M1 : ((inject_Z k - (1 # 2)) * inject_Z tickSpacing
                  <= (x - eps * x) * inject_Z tickSpacing)%Q)
      by (apply Qmult_le_compat_r; lra).
    assert (M2 : ((x + eps * x) * inject_Z tickSpacing
                  <= (inject_Z k + (1 # 2)) * inject_Z tickSpacing)%Q)
      by (apply Qmult_le_compat_r; lra).
    assert (Ex : ((x + eps * x) * inject_Z tickSpacing == inject_Z tick + eps * inject_Z tick)%Q)
      by (rewrite <- Hx; ring).
    assert (Ex' : ((x - eps * x) * inject_Z tickSpacing == inject_Z tick - eps * inject_Z tick)%Q)
      by (rewrite <- Hx; ring).
    rewrite Ex' in M1. rewrite Ex in M2. split; lra.
Qed.

(** C4, as the code has it.  For a raw tick within the global bounds and a
    positive spacing the alignment step takes the path of the SDK function
    and produces a multiple of the spacing within the bounds: the multiple
    nearest to the raw tick or, when that multiple lies beyond a bound, the
    next multiple inwards; the remainder of the aligned tick by the spacing
    is 0. *)
Theorem tick_alignment_within_bounds (rawTick tickSpacing : Z) :
  TickAlign.MIN_TICK <= rawTick <= TickAlign.MAX_TICK -> 0 < tickSpacing ->
  exists nearest,
    Z.rem nearest tickSpacing = 0 /\
    2 * Z.abs (nearest - rawTick) <= tickSpacing /\
    (let aligned := TickAlign.validTick TickAlign.nearestUsableTick rawTick tickSpacing in
     (TickAlign.MIN_TICK <= nearest <= TickAlign.MAX_TICK /\ aligned = nearest \/
      TickAlign.MAX_TICK < nearest /\ aligned = nearest - tickSpacing \/
      nearest < TickAlign.MIN_TICK /\ aligned = nearest + tickSpacing) /\
     TickAlign.MIN_TICK <= aligned <= TickAlign.MAX_TICK /\
     Z.rem aligned tickSpacing = 0).
Proof.
  intros Ht Hs. exists (TickAlign.roundToSpacing rawTick tickSpacing).
  pose proof (roundToSpacing_nearest rawTick tickSpacing Ht Hs) as Hnear.
  split; [apply roundToSpacing_aligned|]. split; [exact Hnear|].
  cbv zeta. unfold TickAlign.validTick.
  destruct (TickAlign.nearestUsableTick rawTick tickSpacing) as [v|] eqn:E.
  - pose proof (nearestUsableTick_aligned _ _ _ E) as Hgrid.
    unfold TickAlign.nearestUsableTick in E.
    destruct (_ && _); [|discriminate].
    assert (Hk : exists k, TickAlign.roundToSpacing rawTick tickSpacing = k * tickSpacing)
      by (eexists; reflexivity).
    destruct Hk as [k Hk].
    unfold TickAlign.MIN_TICK, TickAlign.MAX_TICK in *.
    destruct (Z.ltb_spec (TickAlign.roundToSpacing rawTick tickSpacing) (-887272));
      [|destruct (Z.ltb_spec 887272 (TickAlign.roundToSpacing rawTick tickSpacing))];
      injection E as <-; (split; [|split; [|exact Hgrid]]).
    + right. right. split; [assumption | reflexivity].
    + assert (k < 0) by nia. nia.
    + right. left. split; [assumption | reflexivity].
    + assert (0 < k) by nia. nia.
    + left. split; [lia | reflexivity].
    + lia.
  - exfalso. unfold TickAlign.nearestUsableTick in E.
    replace (0 <? tickSpacing) with true in E by (symmetry; apply Z.ltb_lt; exact Hs).
    replace (TickAlign.MIN_TICK <=? rawTick) with true in E
      by (symmetry; apply Z.leb_le; apply Ht).
    replace (rawTick <=? TickAlign.MAX_TICK) with true in E
      by (symmetry; apply Z.leb_le; apply Ht).
    simpl in E.
    destruct (_ <? TickAlign.MIN_TICK); [|destruct (TickAlign.MAX_TICK <? _)]; discriminate.
Qed.

Lemma tick_alignment_within_bounds_witness :
  exists nearest,
    Z.rem nearest 60 = 0 /\
    2 * Z.abs (nearest - 887270) <= 60 /\
    (let aligned := TickAlign.validTick TickAlign.nearestUsableTick 887270 60 in
     (TickAlign.MIN_TICK <= nearest <= TickAlign.MAX_TICK /\ aligned = nearest \/
      TickAlign.MAX_TICK < nearest /\ aligned = nearest - 60 \/
      nearest < TickAlign.MIN_TICK /\ aligned = nearest + 60) /\
     TickAlign.MIN_TICK <= aligned <= TickAlign.MAX_TICK /\
     Z.rem aligned 60 = 0).
Proof.
  apply (tick_alignment_within_bounds 887270 60).
  - unfold TickAlign.MIN_TICK, TickAlign.MAX_TICK. lia.
  - lia.
Defined.

(** C4 as stated fails at both ends.  The raw tick 887270 is within the
    bounds; its nearest multiple of 60 is 887280, which clamped to the bounds
    is 887272, but the SDK function steps one spacing inwards and the step
    produces 887220.  For the raw tick 887300 the SDK function throws (the
    tick is beyond the upper bound), the manual alignment rounds to 887280
    and clamps to 887272, and 887272 is no multiple of 60: the remainder is
    52. *)
Lemma tick_alignment_is_no_clamped_multiple :
  TickAlign.roundToSpacing 887270 60 = 887280 /\
  Z.max TickAlign.MIN_TICK (Z.min TickAlign.MAX_TICK 887280) = 887272 /\
  TickAlign.validTick TickAlign.nearestUsableTick 887270 60 = 887220 /\
  TickAlign.nearestUsableTick 887300 60 = None /\
  TickAlign.validTick TickAlign.nearestUsableTick 887300 60 = 887272 /\
  Z.rem (TickAlign.validTick TickAlign.nearestUsableTick 887300 60) 60 = 52.
Proof. vm_compute. repeat split. Qed.

Example sdk_alignment_steps_inwards :
  TickAlign.validTick TickAlign.nearestUsableTick (-887270) 60 = -887220 /\
  TickAlign.validTick TickAlign.nearestUsableTick (-200) 60 = -180 /\
  TickAlign.validTick TickAlign.nearestUsableTick 30 60 = 60 /\
  TickAlign.validTick TickAlign.nearestUsableTick (-30) 60 = 0.
Proof. vm_compute. repeat split. Qed.

(** * Further properties *)

(** ** Strings *)

Example parseInt_examples :
  JSString.parseInt "3000" = Some 3000 /\
  JSString.parseInt "  12px" = Some 12 /\
  JSString.parseInt "0x1A" = Some 26 /\
  JSString.parseInt "-7" = Some (-7) /\
  JSString.parseInt "variable" = None /\
  JSString.parseInt "0x" = None /\
  JSString.parseInt EmptyString = None /\
  JSString.parseInt "0.3%" = Some 0 /\
  JSString.includes "1%" "USDC/USDT 0.01%" = true /\
  JSString.includes EmptyString EmptyString = true /\
  JSString.includes "0.3%" "WETH/USDT 0.30%" = false.
Proof. vm_compute. repeat split. Qed.

Example v4_examples :
  V4.getV4PoolConfig "WETH" "USDT"
  = Some {| V4.currency0 := "0x0000000000000000000000000000000000000000";
            V4.currency1 := "0xdAC17F958D2ee523a2206206994597C13D831ec7";
            V4.fee := 500; V4.tickSpacing := 10; V4.zeroForOne := true |} /\
  V4.getV4PoolConfig "USDT" "ETH"
  = Some {| V4.currency0 := "0x0000000000000000000000000000000000000000";
            V4.currency1 := "0xdAC17F958D2ee523a2206206994597C13D831ec7";
            V4.fee := 500; V4.tickSpacing := 10; V4.zeroForOne := false |} /\
  V4.getV4PoolConfig "USDT" "USDe"
  = Some {| V4.currency0 := "0x4c9EDD5852cd905f086C759E8383e09bff1E68B3";
            V4.currency1 := "0xdAC17F958D2ee523a2206206994597C13D831ec7";
            V4.fee := 63; V4.tickSpacing := 1; V4.zeroForOne := false |} /\
  V4.getV4PoolConfig "WBTC" "USDC" = None /\
  V4.extractV3Fee "ETH/USDT 0.05%" = Some 500 /\
  V4.extractV3Fee "Pool 5 bps" = Some 5 /\
  V4.extractV3Fee "Pool 30BP" = Some 30 /\
  V4.extractV3Fee "USDC/USDT 0.01%" = Some 10000 /\
  V4.extractV3Fee "WETH/USDT 0.30%" = None /\
  V4.extractV3Fee "12 abc 7  bps" = Some 7.
Proof. vm_compute. repeat split. Qed.

Example extract_examples :
  ZeroXQuoteService.extractProtocolInfo
    [Scenarios.fillOf "Uniswap_V3" "3000"; Scenarios.fillOf "Curve" "6000";
     Scenarios.fillOf "Uniswap_V3" "1000"; Scenarios.fillOf "X" "0";
     Scenarios.fillOf EmptyString "5"]
  = [ {| ZeroX.protocol_name := "Curve"; ZeroX.percentage := 60 |};
      {| ZeroX.protocol_name := "Uniswap_V3"; ZeroX.percentage := 40 |} ] /\
  map ZeroXApiService.rank (ZeroXApiService.calculateProtocolRanking
    [Scenarios.fillOf "A" "3333"; Scenarios.fillOf "B" "3333"; Scenarios.fillOf "C" "3334"])
  = [1; 2; 3] /\
  map ZeroXApiService.effectiveRate (ZeroXApiService.calculateProtocolRanking
    [Scenarios.fillOf "A" "3333"; Scenarios.fillOf "B" "3333"; Scenarios.fillOf "C" "3334"])
  = [33; 33; 33] /\
  map ZeroX.percentage
    (ZeroXQuoteService.extractProtocolInfo [Scenarios.fillOf "A" "50"; Scenarios.fillOf "B" "49"])
  = [1; 0].
Proof. vm_compute. repeat split. Qed.

(** ** Rounding is monotone *)

(** The mantissa selected by [ulp_exp] has at most 53 bits. *)
Lemma ulp_exp_mantissa_upper p d n m :
  0 < p -> 0 < d -> scaled p d (ulp_exp p d) = (n, m) -> n < 2 ^ 53 * m.
Proof.
  intros Hp Hd. unfold ulp_exp.
  set (e0 := Z.log2 p - Z.log2 d - 52).
  destruct (Z.log2_spec p Hp) as [_ Hp2].
  destruct (Z.log2_spec d Hd) as [Hd1 _].
  pose proof (Z.log2_nonneg p) as Hlp. pose proof (Z.log2_nonneg d) as Hld.
  destruct (scaled p d e0) as [n0 m0] eqn:E0.
  destruct (Z.leb_spec (2 ^ 52) (n0 / m0)) as [Hge | Hlt].
  - clear Hge. rewrite E0. intros [= <- <-]. revert E0. unfold scaled.
    destruct (Z.leb_spec 0 e0) as [He | He]; intros [= <- <-].
    + assert (Hpow : 2 ^ Z.succ (Z.log2 p) = 2 ^ 53 * (2 ^ Z.log2 d * 2 ^ e0)).
      { rewrite <- !Z.pow_add_r by lia. f_equal. unfold e0. lia. }
      assert (0 < 2 ^ e0) by (apply Z.pow_pos_nonneg; lia).
      assert (2 ^ Z.log2 d * 2 ^ e0 <= d * 2 ^ e0)
        by (apply Z.mul_le_mono_nonneg_r; lia).
      lia.
    + assert (Hpow : 2 ^ Z.succ (Z.log2 p) * 2 ^ (- e0) = 2 ^ 53 * 2 ^ Z.log2 d).
      { rewrite <- !Z.pow_add_r by lia. f_equal. unfold e0. lia. }
      assert (0 < 2 ^ (- e0)) by (apply Z.pow_pos_nonneg; lia).
      assert (p * 2 ^ (- e0) < 2 ^ Z.succ (Z.log2 p) * 2 ^ (- e0))
        by (apply Z.mul_lt_mono_pos_r; lia).
      lia.
  - destruct (scaled_pos _ _ _ _ _ Hp Hd E0) as [Hn0 Hm0].
    assert (Hn0lt : n0 < 2 ^ 52 * m0).
    { pose proof (Z.mul_succ_div_gt n0 m0 Hm0) as Hs. unfold Z.succ in Hs.
      assert (m0 * (n0 / m0 + 1) <= m0 * 2 ^ 52) by (apply Z.mul_le_mono_nonneg_l; lia).
      lia. }
    revert E0. unfold scaled.
    destruct (Z.leb_spec 0 e0) as [He | He]; intros [= <- <-];
      destruct (Z.leb_spec 0 (e0 - 1)) as [He' | He']; intros [= <- <-].
    + replace (2 ^ e0) with (2 * 2 ^ (e0 - 1)) in Hn0lt
        by (rewrite <- Z.pow_succ_r by lia; f_equal; lia).
      change (2 ^ 53) with (2 * 2 ^ 52). lia.
    + assert (e0 = 0) by lia. subst e0.
      replace (Z.log2 p - Z.log2 d - 52) with 0 in * by lia.
      change (- (0 - 1)) with 1. change (2 ^ 0) with 1 in Hn0lt.
      change (2 ^ 53) with (2 * 2 ^ 52). lia.
    + lia.
    + replace (2 ^ (- (e0 - 1))) with (2 * 2 ^ (- e0))
        by (rewrite <- Z.pow_succ_r by lia; f_equal; lia).
      change (2 ^ 53) with (2 * 2 ^ 52). lia.
Qed.

Lemma nearest_even_mono n m n' m' :
  0 < m -> 0 < m' -> 0 <= n -> n * m' <= n' * m ->
  nearest_even n m <= nearest_even n' m'.
Proof.
  intros Hm Hm' Hn Hle. unfold nearest_even.
  pose proof (Z.div_mod n m ltac:(lia)) as E. pose proof (Z.mod_pos_bound n m Hm) as B.
  pose proof (Z.div_mod n' m' ltac:(lia)) as E'. pose proof (Z.mod_pos_bound n' m' Hm') as B'.
  remember (n / m) as q eqn:Hq0. remember (n mod m) as r eqn:Hr0.
  remember (n' / m') as q' eqn:Hq0'. remember (n' mod m') as r' eqn:Hr0'.
  clear Hq0 Hr0 Hq0' Hr0' Hn. subst n n'.
  assert (Hq : q <= q').
  { destruct (Z_le_gt_dec q q'); [assumption|exfalso].
    assert (Hq1 : q' + 1 <= q) by lia.
    assert (H2 : m' * (q' + 1) * m <= m' * q * m).
    { apply Z.mul_le_mono_nonneg_r; [lia|]. apply Z.mul_le_mono_nonneg_l; lia. }
    assert (0 <= r * m') by (apply Z.mul_nonneg_nonneg; lia).
    assert (r' * m < m' * m) by (apply Z.mul_lt_mono_pos_r; lia).
    lia. }
  destruct (Z.eq_dec q q') as [<- | Hne].
  - assert (Hr : r * m' <= r' * m) by lia.
    destruct (Z.ltb_spec m (2 * r)), (Z.eqb_spec m (2 * r)),
             (Z.ltb_spec m' (2 * r')), (Z.eqb_spec m' (2 * r')),
             (Z.odd q); cbn [orb andb]; try lia; exfalso; nia.
  - destruct (_ || _), (_ || _); lia.
Qed.

Lemma ldexp_shift a e k : 0 <= k -> (ldexp (a * 2 ^ k) e == ldexp a (e + k))%Q.
Proof.
  intros Hk. unfold ldexp.
  destruct (Z.leb_spec 0 e) as [He | He], (Z.leb_spec 0 (e + k)) as [Hek | Hek]; try lia.
  - rewrite Z.pow_add_r by lia. unfold Qeq, inject_Z; simpl. ring.
  - unfold Qeq, inject_Z; cbn [Qnum Qden].
    assert (0 < 2 ^ (- e)) by (apply Z.pow_pos_nonneg; lia).
    rewrite Z2Pos.id by lia.
    assert (E : 2 ^ k = 2 ^ (e + k) * 2 ^ (- e)).
    { rewrite <- Z.pow_add_r by lia. f_equal. lia. }
    rewrite E. ring.
  - unfold Qeq; cbn [Qnum Qden].
    assert (0 < 2 ^ (- e)) by (apply Z.pow_pos_nonneg; lia).
    assert (0 < 2 ^ (- (e + k))) by (apply Z.pow_pos_nonneg; lia).
    rewrite !Z2Pos.id by lia.
    assert (E : 2 ^ (- e) = 2 ^ k * 2 ^ (- (e + k))).
    { rewrite <- Z.pow_add_r by lia. f_equal. lia. }
    rewrite E. ring.
Qed.

Lemma ldexp_binade e e' : e < e' -> (ldexp (2 ^ 53) e <= ldexp (2 ^ 52) e')%Q.
Proof.
  intros Hlt. pose proof (ldexp_shift (2 ^ 52) e (e' - e) ltac:(lia)) as H.
  replace (e + (e' - e)) with e' in H by lia. rewrite <- H.
  apply ldexp_mono.
  assert (2 ^ 1 <= 2 ^ (e' - e)) by (apply Z.pow_le_mono_r; lia).
  change (2 ^ 53) with (2 ^ 52 * 2 ^ 1). apply Z.mul_le_mono_nonneg_l; [|assumption].
  apply Z.pow_nonneg; lia.
Qed.

Lemma ldexp_above_strict p d e n m :
  0 < p -> 0 < d -> scaled p d e = (n, m) ->
  (p # Z.to_pos d < ldexp (n / m + 1) e)%Q.
Proof.
  intros Hp Hd Hs. destruct (scaled_pos _ _ _ _ _ Hp Hd Hs) as [Hn Hm].
  pose proof (Z.mul_succ_div_gt n m Hm) as Hdiv. unfold Z.succ in Hdiv.
  revert Hs Hdiv. unfold scaled, ldexp.
  destruct (Z.leb_spec 0 e) as [He | He]; intros [= <- <-] Hdiv;
    unfold Qlt; simpl; rewrite ?Z2Pos.id by (try apply Z.pow_pos_nonneg; lia); nia.
Qed.

(** Two positive numbers in order have their scaled quotients in order. *)
Lemma scaled_mono p d p' d' e n m n' m' :
  0 < p -> 0 < d -> 0 < p' -> 0 < d' -> p * d' <= p' * d ->
  scaled p d e = (n, m) -> scaled p' d' e = (n', m') -> n * m' <= n' * m.
Proof.
  intros Hp Hd Hp' Hd' Hle. unfold scaled.
  destruct (Z.leb_spec 0 e) as [He | He]; intros [= <- <-] [= <- <-].
  - assert (0 < 2 ^ e) by (apply Z.pow_pos_nonneg; lia). nia.
  - assert (0 < 2 ^ (- e)) by (apply Z.pow_pos_nonneg; lia). nia.
Qed.

Lemma round_pos_mono p d p' d' :
  0 < p -> 0 < d -> 0 < p' -> 0 < d' -> p * d' <= p' * d ->
  (round_pos p d <= round_pos p' d')%Q.
Proof.
  intros Hp Hd Hp' Hd' Hle. unfold round_pos.
  set (e := ulp_exp p d). set (e' := ulp_exp p' d').
  destruct (scaled p d e) as [n m] eqn:Hs.
  destruct (scaled p' d' e') as [n' m'] eqn:Hs'.
  destruct (scaled_pos _ _ _ _ _ Hp Hd Hs) as [Hn Hm].
  destruct (scaled_pos _ _ _ _ _ Hp' Hd' Hs') as [Hn' Hm'].
  pose proof (ulp_exp_mantissa _ _ _ _ Hp Hd Hs) as Hlo.
  pose proof (ulp_exp_mantissa_upper _ _ _ _ Hp Hd Hs) as Hhi.
  pose proof (ulp_exp_mantissa _ _ _ _ Hp' Hd' Hs') as Hlo'.
  pose proof (ulp_exp_mantissa_upper _ _ _ _ Hp' Hd' Hs') as Hhi'.
  pose proof (nearest_even_bounds n m) as [Hb1 Hb2].
  pose proof (nearest_even_bounds n' m') as [Hb1' Hb2'].
  assert (Hq : 2 ^ 52 <= n / m < 2 ^ 53)
    by (split; [apply Z.div_le_lower_bound | apply Z.div_lt_upper_bound]; lia).
  assert (Hq' : 2 ^ 52 <= n' / m' < 2 ^ 53)
    by (split; [apply Z.div_le_lower_bound | apply Z.div_lt_upper_bound]; lia).
  rewrite !Qred_correct.
  destruct (Z.lt_trichotomy e e') as [Hlt | [Heq | Hgt]].
  - (* a smaller exponent: the whole binade lies below *)
    apply Qle_trans with (ldexp (2 ^ 53) e); [apply ldexp_mono; lia|].
    apply Qle_trans with (ldexp (2 ^ 52) e'); [|apply ldexp_mono; lia].
    apply ldexp_binade; exact Hlt.
  - (* the same exponent: rounding of the mantissa is monotone *)
    apply Qle_trans with (ldexp (nearest_even n' m') e);
      [|rewrite Heq; apply Qle_refl].
    apply ldexp_mono. apply nearest_even_mono; try lia.
    fold e' in Hs'. rewrite <- Heq in Hs'.
    eapply scaled_mono; [| | | | exact Hle | exact Hs | exact Hs']; assumption.
  - (* a larger exponent would put the smaller number above the larger *)
    exfalso.
    pose proof (ldexp_below _ _ _ _ _ Hp Hd Hs) as Hbelow.
    pose proof (ldexp_above_strict _ _ _ _ _ Hp' Hd' Hs') as Habove.
    assert (H1 : (ldexp (2 ^ 52) e <= p # Z.to_pos d)%Q)
      by (eapply Qle_trans; [apply ldexp_mono|exact Hbelow]; lia).
    assert (H2 : (p' # Z.to_pos d' < ldexp (2 ^ 53) e')%Q)
      by (eapply Qlt_le_trans; [exact Habove | apply ldexp_mono; lia]).
    assert (H3 : (ldexp (2 ^ 53) e' <= ldexp (2 ^ 52) e)%Q) by (apply ldexp_binade; lia).
    assert (H4 : (p # Z.to_pos d <= p' # Z.to_pos d')%Q).
    { unfold Qle; cbn [Qnum Qden]. rewrite !Z2Pos.id by lia. exact Hle. }
    lra.
Qed.

(** Rounding to the nearest double is monotone. *)
Lemma rnd_mono (x y : Q) : (x <= y)%Q -> (rnd x <= rnd y)%Q.
Proof.
  intros Hxy.
  destruct (Qlt_le_dec 0 x) as [Hx | Hx].
  - assert (Hy : (0 < y)%Q) by lra.
    destruct x as [[|p|p] d]; try (unfold Qlt in Hx; simpl in Hx; lia).
    destruct y as [[|p'|p'] d']; try (unfold Qlt in Hy; simpl in Hy; lia).
    unfold rnd; cbn [Qnum Qden]. apply round_pos_mono; try lia.
    unfold Qle in Hxy; cbn [Qnum Qden] in Hxy. exact Hxy.
  - destruct (Qlt_le_dec 0 y) as [Hy | Hy].
    + apply Qle_trans with 0%Q; [|apply Qlt_le_weak, rnd_pos; exact Hy].
      destruct (Qle_lt_or_eq _ _ Hx) as [Hlt | Heq].
      * apply Qlt_le_weak, rnd_neg; exact Hlt.
      * rewrite (rnd_zero x Heq). apply Qle_refl.
    + destruct (Qle_lt_or_eq _ _ Hy) as [Hylt | Hyeq].
      * assert (Hxlt : (x < 0)%Q) by lra.
        destruct x as [[|p|p] d]; try (unfold Qlt in Hxlt; simpl in Hxlt; lia).
        destruct y as [[|p'|p'] d']; try (unfold Qlt in Hylt; simpl in Hylt; lia).
        unfold rnd; cbn [Qnum Qden]. apply Qopp_le_compat.
        apply round_pos_mono; try lia.
        unfold Qle in Hxy; cbn [Qnum Qden] in Hxy. lia.
      * rewrite (rnd_zero y Hyeq).
        destruct (Qle_lt_or_eq _ _ Hx) as [Hlt | Heq].
        -- apply Qlt_le_weak, rnd_neg; exact Hlt.
        -- rewrite (rnd_zero x Heq). apply Qle_refl.
Qed.

(** ** The price advantage along the ranking *)

Lemma rnd_nonneg (x : Q) : (0 <= x)%Q -> (0 <= rnd x)%Q.
Proof. intros H. apply rnd_mono in H. exact H. Qed.

Lemma Qdiv_le_compat_pos (x y b : Q) : (0 < b)%Q -> (x <= y)%Q -> (x / b <= y / b)%Q.
Proof.
  intros Hb H. unfold Qdiv. apply Qmult_le_compat_r; [exact H|].
  apply Qlt_le_weak, Qinv_lt_0_compat, Hb.
Qed.

(** With the worst and the best output fixed, a larger output never has a
    smaller price advantage. *)
Lemma computePriceAdvantage_mono (w b c1 c2 : Q) :
  (0 < b)%Q -> (w <= c1)%Q -> (c1 <= c2)%Q ->
  (computePriceAdvantage w b c1 <= computePriceAdvantage w b c2)%Q.
Proof.
  intros Hb Hw1 H12. unfold computePriceAdvantage, isFinite.
  rewrite !andb_true_r.
  destruct (ltb 0 w) eqn:Hw; [|apply Qle_refl].
  apply ltb_spec in Hw.
  assert (Hd1 : (0 <= fsub c1 w)%Q) by (apply rnd_nonneg; lra).
  assert (Hd12 : (fsub c1 w <= fsub c2 w)%Q) by (apply rnd_mono; lra).
  rewrite (Qabs_nonneg_eq (fsub c1 w)) by exact Hd1.
  rewrite (Qabs_nonneg_eq (fsub c2 w)) by lra.
  assert (Hsnap : (fdiv (fsub c1 w) b <= fdiv (fsub c2 w) b)%Q)
    by (apply rnd_mono, Qdiv_le_compat_pos; assumption).
  assert (Hf : (fmul (fdiv (fsub c1 w) w) 100 <= fmul (fdiv (fsub c2 w) w) 100)%Q).
  { apply rnd_mono. apply Qmult_le_compat_r; [|discriminate].
    apply rnd_mono, Qdiv_le_compat_pos; assumption. }
  destruct (ltb (fdiv (fsub c2 w) b) (rnd (1 # 10000))) eqn:S2.
  - apply ltb_spec in S2.
    assert (S1 : ltb (fdiv (fsub c1 w) b) (rnd (1 # 10000)) = true)
      by (apply ltb_spec; lra).
    rewrite S1. apply Qle_refl.
  - destruct (ltb (fdiv (fsub c1 w) b) (rnd (1 # 10000))).
    + apply Q.le_max_l.
    + apply Q.max_le_compat_l. apply Q.min_le_compat_r. exact Hf.
Qed.

Lemma mapi_from_sorted {A B : Type} (f : A -> Z -> B) (R : A -> A -> Prop)
  (R' : B -> B -> Prop) i l :
  (forall x y j k, R x y -> R' (f x j) (f y k)) ->
  StronglySorted R l -> StronglySorted R' (mapi_from f i l).
Proof.
  intros Hf Hs. revert i. induction Hs as [|x l Hs IH Hall]; intros i; [constructor|].
  cbn [mapi_from]. constructor; [apply IH|].
  apply Forall_forall. intros r Hr.
  apply mapi_from_In in Hr as (y & k & Hy & ->).
  rewrite Forall_forall in Hall. apply Hf, Hall, Hy.
Qed.

Lemma StronglySorted_In_refine {A : Type} (R R' : A -> A -> Prop) l :
  (forall a b, In a l -> In b l -> R a b -> R' a b) ->
  StronglySorted R l -> StronglySorted R' l.
Proof.
  intros Himp Hs. induction Hs as [|x l Hs IH Hx]; [constructor|].
  constructor.
  - apply IH. intros a b Ha Hb. apply Himp; right; assumption.
  - rewrite Forall_forall in *. intros y Hy. apply Himp; [left; reflexivity | right; assumption|].
    apply Hx, Hy.
Qed.

(** X1.  Along the ranking the price advantage never increases: a pool ranked
    before another one shows at least the advantage of the other. *)
Theorem priceAdvantage_descends (quotes : list Quote) :
  StronglySorted (fun a b => (priceAdvantage b <= priceAdvantage a)%Q)
    (calculateRankings quotes).
Proof.
  destruct (calculateRankings_shape quotes) as [[-> _] | (first & rest & E & ->)];
    [constructor|].
  pose proof (ranked_sorted quotes) as Hs. rewrite E in Hs.
  set (w := key (last (first :: rest) first)).
  assert (Hb : (0 < key first)%Q).
  { apply parseFloat_pos.
    assert (In first (ranked quotes)) by (rewrite E; left; reflexivity).
    apply ranked_In in H. tauto. }
  unfold mapi.
  apply (mapi_from_sorted _ (fun x y => desc x y /\ (w <= key y)%Q)).
  - intros x y j k [Hd Hw]. cbn [priceAdvantage rankingOf].
    apply computePriceAdvantage_mono; assumption.
  - apply (StronglySorted_In_refine desc); [|exact Hs].
    intros a c _ Hc Hd. split; [exact Hd|].
    apply sorted_last_min; assumption.
Qed.

(** ** The static Fluid estimate *)

(** [1 - (0.0001 + 0.0001)] and [0.9998] are the same double. *)
Lemma fluid_stablecoin_rate :
  fsub 1 (fadd (rnd (1 # 10000)) (rnd (1 # 10000))) = rnd (9998 # 10000).
Proof. vm_compute. reflexivity. Qed.

Lemma fluidEstimate_stablecoin pool inputAmount :
  isStablecoinPair pool = true ->
  Quoters.fluidEstimate pool inputAmount
  = Ok (Quoters.fluidUltimateFallback pool inputAmount).
Proof.
  unfold isStablecoinPair, Quoters.fluidEstimate, Quoters.fluidUltimateFallback.
  intros ->. cbv zeta. rewrite fluid_stablecoin_rate. reflexivity.
Qed.

Section FluidEstimateFacts.
Context {World : Type} (env : Engine.Env World).

Lemma getFluidEstimatedQuote_stablecoin pool inputAmount w rendered :
  Engine.formatUnits env inputAmount (decimals (tokens_base pool)) = Ok rendered ->
  isStablecoinPair pool = true ->
  Engine.getFluidEstimatedQuote env pool inputAmount w
  = (Ok (Quoters.fluidUltimateFallback pool inputAmount), w).
Proof.
  intros Hin Hs. unfold Engine.getFluidEstimatedQuote, try_catch, bind, ret, lift.
  rewrite Hin, (fluidEstimate_stablecoin _ _ Hs).
  destruct (Engine.formatUnits env (Quoters.fluidUltimateFallback pool inputAmount) _);
    reflexivity.
Qed.

(** X2.  For a stablecoin pair quoted by estimation alone (any Fluid pool but
    the confirmed one) and an input that [formatUnits] renders, the quote is
    the input amount times 0.9998, floored and adjusted for the decimals,
    whether the estimate ran through or its fallback took over (as it does
    when the estimate cannot be formatted); the world is left as it was. *)
Theorem fluid_stablecoin_quote_is_fixed pool inputAmount w :
  Renders (Engine.formatUnits env) ->
  inRange pool inputAmount ->
  Engine.isEnhancedFluidPool pool = false ->
  isStablecoinPair pool = true ->
  Engine.getFluidQuote env pool inputAmount w
  = (Ok (Quoters.decimalAdjust pool
           (Qfloor (fmul (parseFloat inputAmount) (rnd (9998 # 10000))))), w).
Proof.
  intros Hrenders [Hin _] Hp Hs.
  destruct (Hrenders _ _ Hin) as (rendered & Hf).
  unfold Engine.getFluidQuote, bind, lift. rewrite Hf, Hp.
  unfold try_catch at 1.
  rewrite (getFluidEstimatedQuote_stablecoin pool inputAmount w rendered Hf Hs).
  reflexivity.
Qed.

End FluidEstimateFacts.

Lemma fluid_stablecoin_quote_is_fixed_witness :
  Engine.getFluidQuote Examples.bothTiers Examples.fluidOther 1000000000000000000 []
  = (Ok (Quoters.decimalAdjust Examples.fluidOther
           (Qfloor (fmul (parseFloat 1000000000000000000) (rnd (9998 # 10000))))), []).
Proof.
  apply (fluid_stablecoin_quote_is_fixed Examples.bothTiers Examples.fluidOther
           1000000000000000000 []).
  - exact Examples_formatUnits_renders.
  - unfold inRange, formattable. cbn. lia.
  - reflexivity.
  - reflexivity.
Defined.

Example fluid_stablecoin_quote_value :
  Engine.getFluidQuote Examples.bothTiers Examples.fluidOther 1000000000000000000 []
  = (Ok 999800, []).
Proof. vm_compute. reflexivity. Qed.

(** [BigInt(10 ** d)] is at least 1 for a non-negative exponent. *)
Lemma bigPow10_pos d : 0 <= d -> 1 <= Quoters.bigPow10 d.
Proof.
  intros Hd. unfold Quoters.bigPow10, Quoters.pow10.
  assert (H1 : (1 <= Qpower 10 d)%Q).
  { change 10%Q with (inject_Z 10). rewrite <- Zpower_Qpower by exact Hd.
    change 1%Q with (inject_Z 1). rewrite <- Zle_Qle.
    assert (0 < 10 ^ d) by (apply Z.pow_pos_nonneg; lia). lia. }
  apply rnd_mono in H1. change (rnd 1) with 1%Q in H1.
  apply Qfloor_resp_le in H1. exact H1.
Qed.

Lemma decimalAdjust_mono pool a b :
  a <= b -> Quoters.decimalAdjust pool a <= Quoters.decimalAdjust pool b.
Proof.
  intros H. unfold Quoters.decimalAdjust.
  set (d := decimals (tokens_quote pool) - decimals (tokens_base pool)).
  destruct (Z.ltb_spec 0 d); [|destruct (Z.ltb_spec d 0)].
  - apply Z.mul_le_mono_nonneg_r; [|exact H].
    pose proof (bigPow10_pos d ltac:(lia)). lia.
  - apply Z.quot_le_mono; [|exact H].
    pose proof (bigPow10_pos (Z.abs d) ltac:(lia)). lia.
  - exact H.
Qed.

Lemma decimalAdjust_nonneg pool a : 0 <= a -> 0 <= Quoters.decimalAdjust pool a.
Proof.
  intros H. unfold Quoters.decimalAdjust.
  set (d := decimals (tokens_quote pool) - decimals (tokens_base pool)).
  destruct (Z.ltb_spec 0 d); [|destruct (Z.ltb_spec d 0)].
  - pose proof (bigPow10_pos d ltac:(lia)). apply Z.mul_nonneg_nonneg; lia.
  - pose proof (bigPow10_pos (Z.abs d) ltac:(lia)). apply Z.quot_pos; lia.
  - exact H.
Qed.

(** The fee-adjusted amount: at most the amount itself. *)
Lemma fee_adjusted_below (n : Z) :
  0 <= n -> 0 <= Qfloor (fmul (parseFloat n) (rnd (9998 # 10000))) <= n.
Proof.
  intros Hn. unfold fmul.
  destruct (Z.eq_dec n 0) as [-> | Hne]; [vm_compute; split; discriminate|].
  assert (Hpos : 0 < n) by lia.
  pose proof (proj2 (parseFloat_pos n) Hpos) as Hp0.
  pose proof (parseFloat_upper n Hpos) as Hpu.
  assert (Hr : (0 < rnd (9998 # 10000) <= 9999 # 10000)%Q) by (vm_compute; split; reflexivity || discriminate).
  set (a := parseFloat n) in *. set (r := rnd (9998 # 10000)) in *.
  assert (Hprod : (0 < a * r)%Q) by (apply Qmult_lt_0_compat; tauto).
  pose proof (rnd_upper _ Hprod) as Hu. pose proof (rnd_pos _ Hprod) as Hl.
  assert (Hin : (0 < inject_Z n)%Q) by (apply inject_Z_pos; exact Hpos).
  assert (Hle : (rnd (a * r) <= inject_Z n)%Q).
  { assert (a * r <= inject_Z n * (1 + eps) * (9999 # 10000))%Q.
    { apply Qle_trans with (a * (9999 # 10000))%Q.
      - apply Qmult_le_l; tauto.
      - apply Qmult_le_compat_r; [exact Hpu | discriminate]. }
    unfold eps in *. nra. }
  split.
  - change 0 with (Qfloor 0). apply Qfloor_resp_le. lra.
  - rewrite <- (Qfloor_Z n). apply Qfloor_resp_le. exact Hle.
Qed.

(** X3.  The ultimate fallback of the Fluid estimate, and with it the estimate
    of a stablecoin pair, charges its fee: for a non-negative input it is
    never negative and never above the 1:1 conversion of the input. *)
Theorem fluid_fallback_below_par pool inputAmount :
  0 <= inputAmount ->
  0 <= Quoters.fluidUltimateFallback pool inputAmount
    <= Quoters.decimalAdjust pool inputAmount.
Proof.
  intros Hn. unfold Quoters.fluidUltimateFallback. cbv zeta.
  pose proof (fee_adjusted_below inputAmount Hn) as [H0 H1]. split.
  - apply decimalAdjust_nonneg. exact H0.
  - apply decimalAdjust_mono. exact H1.
Qed.

Lemma fluid_fallback_below_par_witness :
  0 <= Quoters.fluidUltimateFallback Examples.fluidOther 1000000000000000000
    <= Quoters.decimalAdjust Examples.fluidOther 1000000000000000000.
Proof. apply (fluid_fallback_below_par Examples.fluidOther 1000000000000000000). lia. Defined.

(** ** Every run of the retry loop settles *)

Section LimiterRuns.
Context {World T : Type} (elapse : Z -> World -> World) (fn : M World T).

Lemma retryFrom_run delays w :
  exists awaited wk o w',
    Throttled elapse fn delays awaited w wk /\
    fn wk = (o, w') /\
    match o with
    | Ok _ => True
    | Throw error => RateLimiter.isRateLimitError error = false \/ awaited = delays
    end /\
    RateLimiter.retryFrom elapse delays fn w = (o, w', awaited).
Proof.
  revert w. induction delays as [|delay rest IH]; intros w.
  - destruct (fn w) as [o w'] eqn:E. exists [], w, o, w'.
    split; [constructor|]. split; [exact E|]. split.
    + destruct o as [v|e]; [exact I | right; reflexivity].
    + cbn [RateLimiter.retryFrom]. rewrite E. destruct o as [v|e]; [reflexivity|].
      destruct (RateLimiter.isRateLimitError e); reflexivity.
  - destruct (fn w) as [[v|e] w1] eqn:E.
    + exists [], w, (Ok v), w1. split; [constructor|]. split; [exact E|]. split; [exact I|].
      cbn [RateLimiter.retryFrom]. rewrite E. reflexivity.
    + destruct (RateLimiter.isRateLimitError e) eqn:Hrl.
      * destruct (IH (elapse delay w1)) as (awaited & wk & o & w' & Hrun & Hk & Ho & Hr).
        exists (delay :: awaited), wk, o, w'.
        split; [econstructor; eauto|]. split; [exact Hk|]. split.
        -- destruct o as [v|e']; [exact I|]. destruct Ho as [Hn | ->]; [left; exact Hn | right; reflexivity].
        -- cbn [RateLimiter.retryFrom]. rewrite E, Hrl, Hr. reflexivity.
      * exists [], w, (Throw e), w1. split; [constructor|]. split; [exact E|].
        split; [left; exact Hrl|].
        cbn [RateLimiter.retryFrom]. rewrite E, Hrl. reflexivity.
Qed.

(** X4.  The executor always settles: whatever the call does, it is invoked
    again only after a rate-limit error and a wait taken from the front of the
    ladder, the outcome handed to the caller is the outcome of its last
    invocation, and there are at most five waits, 31 seconds in all. *)
Theorem execute_always_settles (w : World) :
  exists awaited wk o w',
    Throttled elapse fn RateLimiter.retryDelays awaited w wk /\
    fn wk = (o, w') /\
    settles o awaited /\
    RateLimiter.execute elapse fn w = (o, w', awaited) /\
    (List.length awaited <= 5)%nat /\
    fold_right Z.add 0 awaited <= 31000.
Proof.
  destruct (retryFrom_run RateLimiter.retryDelays w)
    as (awaited & wk & o & w' & Hrun & Hk & Ho & Hr).
  exists awaited, wk, o, w'.
  split; [exact Hrun|]. split; [exact Hk|]. split; [exact Ho|]. split; [exact Hr|]. split.
  - pose proof (Throttled_prefix _ _ _ _ _ _ Hrun) as [rest Hp].
    apply (f_equal (@List.length Z)) in Hp. rewrite length_app in Hp.
    cbn in Hp. lia.
  - pose proof (Throttled_prefix _ _ _ _ _ _ Hrun) as [rest Hp].
    assert (Hrest : 0 <= fold_right Z.add 0 rest).
    { assert (Hall : Forall (fun d => 0 <= d) rest).
      { assert (Hd : Forall (fun d => 0 <= d) RateLimiter.retryDelays)
          by (repeat constructor; discriminate).
        rewrite Hp in Hd. apply Forall_app in Hd. tauto. }
      clear Hp. induction Hall; cbn; lia. }
    assert (Hsum : fold_right Z.add 0 (awaited ++ rest)
                   = fold_right Z.add 0 awaited + fold_right Z.add 0 rest).
    { clear. induction awaited as [|a l IH]; cbn; [reflexivity | rewrite IH; lia]. }
    rewrite <- Hp in Hsum. cbn in Hsum. lia.
Qed.

End LimiterRuns.

(** ** The V4 pool configuration *)

Lemma noHyphen_app a b : noHyphen (a ++ String "-" b) = false.
Proof.
  induction a as [|c a IH]; [reflexivity|].
  cbn [append noHyphen]. rewrite IH. apply andb_false_r.
Qed.

(** A key with one hyphen splits in one way only. *)
Lemma hyphen_split (x y a b : string) :
  noHyphen x = true -> noHyphen y = true ->
  (a ++ String "-" b = x ++ String "-" y)%string -> a = x /\ b = y.
Proof.
  intros Hx Hy. revert a. induction x as [|c x IH]; intros a H.
  - destruct a as [|d a]; cbn in H.
    + injection H as H. auto.
    + injection H as -> H. rewrite <- H in Hy.
      rewrite noHyphen_app in Hy. discriminate.
  - cbn [noHyphen] in Hx. apply andb_true_iff in Hx as [Hc Hx].
    destruct a as [|d a]; cbn in H.
    + injection H as <- _. discriminate.
    + injection H as -> H. destruct (IH Hx a H) as [-> ->]. auto.
Qed.

Ltac split_key x y :=
  let E := fresh "E" in
  intros E; symmetry in E;
  apply (hyphen_split x y) in E as [-> ->]; [cbn; tauto | reflexivity | reflexivity].

Lemma lookup_tokenPairs_inv (a b : string) (config : V4.PairConfig) :
  V4.lookup V4.tokenPairs (a ++ String "-" b) = Some config -> In (a, b) configuredKeys.
Proof.
  unfold V4.tokenPairs, configuredKeys. cbn [V4.lookup].
  destruct (String.eqb_spec "WETH-USDT" (a ++ String "-" b)) as [E|_];
    [revert E; clear; split_key "WETH"%string "USDT"%string|].
  destruct (String.eqb_spec "USDT-WETH" (a ++ String "-" b)) as [E|_];
    [revert E; clear; split_key "USDT"%string "WETH"%string|].
  destruct (String.eqb_spec "UNI-WETH" (a ++ String "-" b)) as [E|_];
    [revert E; clear; split_key "UNI"%string "WETH"%string|].
  destruct (String.eqb_spec "WETH-UNI" (a ++ String "-" b)) as [E|_];
    [revert E; clear; split_key "WETH"%string "UNI"%string|].
  destruct (String.eqb_spec "WETH-USDC" (a ++ String "-" b)) as [E|_];
    [revert E; clear; split_key "WETH"%string "USDC"%string|].
  destruct (String.eqb_spec "USDC-WETH" (a ++ String "-" b)) as [E|_];
    [revert E; clear; split_key "USDC"%string "WETH"%string|].
  destruct (String.eqb_spec "USDe-USDT" (a ++ String "-" b)) as [E|_];
    [revert E; clear; split_key "USDe"%string "USDT"%string|].
  destruct (String.eqb_spec "USDT-USDe" (a ++ String "-" b)) as [E|_];
    [revert E; clear; split_key "USDT"%string "USDe"%string|].
  discriminate.
Qed.

Lemma normalizeSymbol_inv (s : string) :
  V4.normalizeSymbol s = s /\ s <> "ETH"%string \/ s = "ETH"%string.
Proof.
  unfold V4.normalizeSymbol. destruct (String.eqb_spec s "ETH"); [right | left]; auto.
Qed.

Lemma getV4PoolConfig_inv baseSymbol quoteSymbol config :
  V4.getV4PoolConfig baseSymbol quoteSymbol = Some config ->
  In (baseSymbol, quoteSymbol) configuredPairs.
Proof.
  unfold V4.getV4PoolConfig. cbv zeta.
  change (V4.normalizeSymbol baseSymbol ++ "-" ++ V4.normalizeSymbol quoteSymbol)%string
    with (V4.normalizeSymbol baseSymbol ++ String "-" (V4.normalizeSymbol quoteSymbol))%string.
  destruct (V4.lookup V4.tokenPairs _) as [c|] eqn:L; [|discriminate].
  intros _. apply lookup_tokenPairs_inv in L.
  destruct (normalizeSymbol_inv baseSymbol) as [[Eb Hb] | ->],
           (normalizeSymbol_inv quoteSymbol) as [[Eq Hq] | ->].
  - rewrite Eb, Eq in L. unfold configuredKeys in L. unfold configuredPairs.
    cbn [In] in *. repeat destruct L as [L | L]; try (injection L as <- <-); tauto.
  - rewrite Eb in L. change (V4.normalizeSymbol "ETH") with "WETH"%string in L.
    unfold configuredKeys in L. unfold configuredPairs.
    cbn [In] in *.
    repeat destruct L as [L | L]; try discriminate L; try (injection L as <-); tauto.
  - rewrite Eq in L. change (V4.normalizeSymbol "ETH") with "WETH"%string in L.
    unfold configuredKeys in L. unfold configuredPairs.
    cbn [In] in *.
    repeat destruct L as [L | L]; try discriminate L; try (injection L as <-); tauto.
  - change (V4.normalizeSymbol "ETH") with "WETH"%string in L.
    unfold configuredKeys in L. cbn [In] in L.
    repeat destruct L as [L | L]; try discriminate L; tauto.
Qed.

Lemma configuredPairs_config :
  Forall (fun '(b, q) =>
    match V4.getV4PoolConfig b q with
    | Some config =>
      In (V4.normalizeSymbol b, V4.normalizeSymbol q) configuredKeys /\
      String.ltb (toLowerCase (V4.currency0 config)) (toLowerCase (V4.currency1 config)) = true /\
      (V4.zeroForOne config = true <-> In (V4.normalizeSymbol b) ["WETH"; "USDe"]%string) /\
      V4.getV4PoolConfig q b
      = Some {| V4.currency0 := V4.currency0 config;
                V4.currency1 := V4.currency1 config;
                V4.fee := V4.fee config;
                V4.tickSpacing := V4.tickSpacing config;
                V4.zeroForOne := negb (V4.zeroForOne config) |}
    | None => False
    end) configuredPairs.
Proof.
  unfold configuredPairs.
  repeat (constructor;
          [vm_compute; repeat split; intros; try discriminate; try tauto;
           repeat match goal with H : _ \/ _ |- _ => destruct H end;
           try discriminate; try contradiction|]).
  constructor.
Qed.

(** X5.  There is a configuration exactly for the eight symbol pairs of the
    table, ETH counting as WETH. *)
Theorem getV4PoolConfig_configured (baseSymbol quoteSymbol : string) :
  V4.getV4PoolConfig baseSymbol quoteSymbol = None <->
  ~ In (V4.normalizeSymbol baseSymbol, V4.normalizeSymbol quoteSymbol)
       [("WETH", "USDT"); ("USDT", "WETH"); ("UNI", "WETH"); ("WETH", "UNI");
        ("WETH", "USDC"); ("USDC", "WETH"); ("USDe", "USDT"); ("USDT", "USDe")]%string.
Proof.
  fold configuredKeys. split.
  - intros Hnone Hin. revert Hnone. unfold V4.getV4PoolConfig. cbv zeta.
    unfold configuredKeys in Hin. cbn [In] in Hin.
    repeat destruct Hin as [Hin | Hin]; try contradiction;
      injection Hin as <- <-; discriminate.
  - intros Hn. destruct (V4.getV4PoolConfig baseSymbol quoteSymbol) as [config|] eqn:E;
      [exfalso | reflexivity].
    pose proof (getV4PoolConfig_inv _ _ _ E) as Hin.
    pose proof configuredPairs_config as Hall. rewrite Forall_forall in Hall.
    specialize (Hall _ Hin). cbv beta iota in Hall. rewrite E in Hall. tauto.
Qed.

(** X6.  The pool key and the direction. Where there is a configuration,
    [currency0] is the smaller address, the swap goes from [currency0] to
    [currency1] exactly when the base symbol is WETH (or ETH) or USDe, and the
    pair taken the other way round has the same pool key and the opposite
    direction; where there is none, there is none the other way round. *)
Theorem getV4PoolConfig_direction (baseSymbol quoteSymbol : string) :
  match V4.getV4PoolConfig baseSymbol quoteSymbol with
  | Some config =>
    String.ltb (toLowerCase (V4.currency0 config)) (toLowerCase (V4.currency1 config)) = true /\
    (V4.zeroForOne config = true <->
     In (V4.normalizeSymbol baseSymbol) ["WETH"; "USDe"]%string) /\
    V4.getV4PoolConfig quoteSymbol baseSymbol
    = Some {| V4.currency0 := V4.currency0 config;
              V4.currency1 := V4.currency1 config;
              V4.fee := V4.fee config;
              V4.tickSpacing := V4.tickSpacing config;
              V4.zeroForOne := negb (V4.zeroForOne config) |}
  | None => V4.getV4PoolConfig quoteSymbol baseSymbol = None
  end.
Proof.
  pose proof configuredPairs_config as Hall. rewrite Forall_forall in Hall.
  destruct (V4.getV4PoolConfig baseSymbol quoteSymbol) as [config|] eqn:E.
  - specialize (Hall _ (getV4PoolConfig_inv _ _ _ E)). cbv beta iota in Hall.
    rewrite E in Hall. tauto.
  - destruct (V4.getV4PoolConfig quoteSymbol baseSymbol) as [config'|] eqn:E'; [|reflexivity].
    specialize (Hall _ (getV4PoolConfig_inv _ _ _ E')). cbv beta iota in Hall.
    rewrite E' in Hall. destruct Hall as (_ & _ & _ & Hback).
    rewrite E in Hback. discriminate.
Qed.

(** ** The V4 quoter *)

Section V4Facts.
Context {World : Type} (env : V4.Env World).

(** X7.  The chain path of [getUniswapV4Quote] reads the symbols and the
    decimals of the two tokens and nothing else of the pool: two pools that
    agree in them, whatever their addresses, names and fee tiers, get the
    same outcome from the same calls, or else each falls back to its own
    estimate. *)
Theorem getUniswapV4Quote_reads_symbols_only (pool1 pool2 : PoolInfo) inputAmount w :
  symbol (tokens_base pool1) = symbol (tokens_base pool2) ->
  symbol (tokens_quote pool1) = symbol (tokens_quote pool2) ->
  decimals (tokens_base pool1) = decimals (tokens_base pool2) ->
  decimals (tokens_quote pool1) = decimals (tokens_quote pool2) ->
  V4.getUniswapV4Quote env pool1 inputAmount w = V4.getUniswapV4Quote env pool2 inputAmount w \/
  exists w',
    V4.getUniswapV4Quote env pool1 inputAmount w = (V4.estimate env pool1 inputAmount, w') /\
    V4.getUniswapV4Quote env pool2 inputAmount w = (V4.estimate env pool2 inputAmount, w').
Proof.
  intros Hb Hq Hbd Hqd. unfold V4.getUniswapV4Quote. cbv zeta.
  rewrite Hb, Hq, Hbd, Hqd, !bind_lift.
  destruct (V4.formatUnits env inputAmount (decimals (tokens_base pool2))) as [s|e];
    [|left; reflexivity].
  unfold try_catch.
  match goal with
  | |- context [match ?body w with (_, _) => _ end] => destruct (body w) as [[v|e] w']
  end.
  - left. reflexivity.
  - right. exists w'. split; reflexivity.
Qed.

(** Without a configuration for the pair nothing is asked of the chain. *)
Lemma getUniswapV4Quote_unconfigured pool inputAmount w rendered :
  V4.formatUnits env inputAmount (decimals (tokens_base pool)) = Ok rendered ->
  V4.getV4PoolConfig (symbol (tokens_base pool)) (symbol (tokens_quote pool)) = None ->
  V4.getUniswapV4Quote env pool inputAmount w = (V4.estimate env pool inputAmount, w).
Proof.
  intros Hf H. unfold V4.getUniswapV4Quote. cbv zeta.
  rewrite bind_lift, Hf. unfold try_catch, throw. rewrite H. reflexivity.
Qed.




End V4Facts.

Lemma getUniswapV4Quote_reads_symbols_only_witness :
  V4.getUniswapV4Quote (Scenarios.v4Answers 999500) Scenarios.v4USDe63 1000000000000000000 []
  = V4.getUniswapV4Quote (Scenarios.v4Answers 999500) Scenarios.v4USDe30 1000000000000000000 [] \/
  exists w',
    V4.getUniswapV4Quote (Scenarios.v4Answers 999500) Scenarios.v4USDe63 1000000000000000000 []
    = (V4.estimate (Scenarios.v4Answers 999500) Scenarios.v4USDe63 1000000000000000000, w') /\
    V4.getUniswapV4Quote (Scenarios.v4Answers 999500) Scenarios.v4USDe30 1000000000000000000 []
    = (V4.estimate (Scenarios.v4Answers 999500) Scenarios.v4USDe30 1000000000000000000, w').
Proof.
  apply (getUniswapV4Quote_reads_symbols_only (Scenarios.v4Answers 999500)
           Scenarios.v4USDe63 Scenarios.v4USDe30); reflexivity.
Defined.


(** Where the quoter fails and the estimate is beyond what [formatUnits]
    renders, the exception of [formatUnits] leaves the [catch] block. *)
Example v4_estimate_beyond_formatUnits :
  V4.getUniswapV4Quote Scenarios.v4Reverts Scenarios.v4USDTtoWETH (2 ^ 510) []
  = (Throw {| isError := true; message := "overflow";
              status := None; code := Some "NUMERIC_FAULT"%string |},
     ["getCode"; "quoteExactInputSingle"]%string).
Proof. vm_compute. reflexivity. Qed.

Example v4_quotes :
  V4.getUniswapV4Quote (Scenarios.v4Answers 999500) Scenarios.v4USDe63 1000000000000000000 []
  = (Ok 999500, ["getCode"; "quoteExactInputSingle"]%string) /\
  V4.getUniswapV4Quote (Scenarios.v4Answers 999500) Scenarios.v4USDe30 1000000000000000000 []
  = (Ok 999500, ["getCode"; "quoteExactInputSingle"]%string) /\
  V4.getUniswapV4Quote Scenarios.v4Reverts Scenarios.v4USDe63 1000000000000000000 []
  = (Ok 999937, ["getCode"; "quoteExactInputSingle"]%string) /\
  V4.getUniswapV4Quote Scenarios.v4Reverts Scenarios.v4USDe30 1000000000000000000 []
  = (Ok 999970, ["getCode"; "quoteExactInputSingle"]%string) /\
  V4.getUniswapV4Quote Scenarios.v4Reverts Scenarios.v4NoFee 1000000000000000000 []
  = (Throw notAnInteger, ["getCode"; "quoteExactInputSingle"]%string).
Proof. vm_compute. repeat split. Qed.

(** ** The Curve quoter *)

Section CurveFacts.
Context {World : Type} (env : Curve.Env World).

(** The search for the token positions never throws, and a position it
    reports is -1 or one of the positions it asked for. *)
Lemma findIndices_returns tokenIndexes pool i j w :
  exists i' j' w',
    Curve.findIndices env tokenIndexes pool i j w = (Ok (i', j'), w') /\
    (i' = i \/ In i' tokenIndexes) /\ (j' = j \/ In j' tokenIndexes).
Proof.
  revert i j w. induction tokenIndexes as [|k later IH]; intros i j w.
  - exists i, j, w. cbn. auto.
  - cbn [Curve.findIndices].
    destruct (Curve.coins env (address pool) k w) as [[tokenAddress|e] w1].
    + destruct (String.eqb (toLowerCase tokenAddress)
                           (toLowerCase (token_address (tokens_base pool))));
        destruct (String.eqb (toLowerCase tokenAddress)
                             (toLowerCase (token_address (tokens_quote pool))));
        match goal with
        | |- context [Curve.findIndices env later pool ?a ?b w1] =>
          destruct (IH a b w1) as (i' & j' & w' & -> & Hi & Hj)
        end;
        exists i', j', w'; (split; [reflexivity|]); cbn [In];
        (split; [destruct Hi as [-> | Hi] | destruct Hj as [-> | Hj]]); auto.
    + exists i, j, w1. cbn. auto.
Qed.

(** [getCurveQuote] always returns an amount. *)
Lemma getCurveQuote_never_throws (pool : PoolInfo) (inputAmount : Z) (w : World) :
  exists outputAmount w',
    Curve.getCurveQuote env pool inputAmount w = (Ok outputAmount, w').
Proof.
  unfold Curve.getCurveQuote, Curve.tokenIndices, try_catch, bind, ret, throw, lift.
  destruct (findIndices_returns [0; 1; 2] pool (-1) (-1) w) as (i & j & w1 & -> & _).
  destruct ((i =? -1) || (j =? -1)).
  - destruct (String.eqb (toLowerCase (address pool)) Curve.THREE_POOL); [|eauto].
    destruct (Curve.get_dy env (address pool) 1 0 inputAmount w1) as [[amountOut|e] w2];
      [|eauto].
    destruct (Curve.formatUnits env inputAmount _); [|eauto].
    destruct (Curve.formatUnits env amountOut _); [|eauto].
    destruct (Curve.unreasonablyHigh pool inputAmount amountOut); eauto.
  - destruct (Curve.get_dy env (address pool) i j inputAmount w1) as [[amountOut|e] w2];
      [|eauto].
    destruct (Curve.formatUnits env inputAmount _); [|eauto].
    destruct (Curve.formatUnits env amountOut _); [|eauto].
    destruct (Curve.unreasonablyHigh pool inputAmount amountOut); eauto.
Qed.


(** When the contract cannot be reached at all, the quote is the 1:1
    conversion, unless the pool is the 3Pool. *)
Lemma getCurveQuote_offline pool inputAmount w e w1 :
  Curve.coins env (address pool) 0 w = (Throw e, w1) ->
  String.eqb (toLowerCase (address pool)) Curve.THREE_POOL = false ->
  Curve.getCurveQuote env pool inputAmount w
  = (Ok (Quoters.decimalAdjust pool inputAmount), w1).
Proof.
  intros Hc Hp. unfold Curve.getCurveQuote, Curve.tokenIndices, try_catch, bind, ret, throw.
  cbn [Curve.findIndices]. rewrite Hc. cbn. rewrite Hp. reflexivity.
Qed.

End CurveFacts.

Section CurveInEngine.
Context {World : Type} (env : Engine.Env World) (curve : Curve.Env World).

(** X10.  The quote of a Curve pool fails in the formatting only.  With
    [getCurveQuote] as the Curve quoter of the engine and an input that
    [formatUnits] renders, the quoter of a pool tagged [curve] returns an
    amount whatever the contract does, and the quote of the pool is the
    successful quote of that amount as long as the amount is one that
    [formatUnits] renders. *)
Theorem curve_quote_fails_in_formatting_only pool inputAmount tokenPair w :
  Renders (Engine.formatUnits env) ->
  inRange pool inputAmount ->
  (forall p a, Engine.getCurveQuote env p a = Curve.getCurveQuote curve p a) ->
  dex pool = "curve"%string ->
  exists outputAmount w',
    Curve.getCurveQuote curve pool inputAmount w = (Ok outputAmount, w') /\
    (Z.abs outputAmount < 2 ^ 511 ->
     Engine.getQuoteForPoolWithAmount env pool inputAmount tokenPair w
     = (Ok (Engine.successQuote pool inputAmount outputAmount), w')).
Proof.
  intros Hrenders [Hin Hqd] Hq Hdex.
  destruct (getCurveQuote_never_throws curve pool inputAmount w) as (out & w' & E).
  exists out, w'. split; [exact E|]. intros Hout.
  destruct (Hrenders _ _ Hin) as (s & Hs).
  destruct (Hrenders out (decimals (tokens_quote pool)) (conj Hout Hqd)) as (s' & Hs').
  rewrite (getQuoteForPoolWithAmount_returns env pool inputAmount tokenPair w
             (Ok (inl out)) w' s).
  - unfold quoteFor. rewrite Hs, Hs'. reflexivity.
  - unfold Engine.protocolQuote, Engine.dexIs, bind, ret. rewrite Hdex.
    cbn [String.eqb Ascii.eqb Bool.eqb orb]. rewrite Hq, E. reflexivity.
  - exact Hs.
Qed.

End CurveInEngine.

Lemma curve_quote_fails_in_formatting_only_witness :
  exists outputAmount w',
    Curve.getCurveQuote Scenarios.curveDown Scenarios.curveUSDe 1000000000000000000 []
    = (Ok outputAmount, w') /\
    (Z.abs outputAmount < 2 ^ 511 ->
     Engine.getQuoteForPoolWithAmount Scenarios.engineCurveDown Scenarios.curveUSDe
       1000000000000000000 (Examples.pairOf Examples.USDe Examples.USDT) []
     = (Ok (Engine.successQuote Scenarios.curveUSDe 1000000000000000000 outputAmount), w')).
Proof.
  apply (curve_quote_fails_in_formatting_only Scenarios.engineCurveDown Scenarios.curveDown).
  - exact Examples_formatUnits_renders.
  - unfold inRange, formattable. cbn. lia.
  - intros; reflexivity.
  - reflexivity.
Defined.

(** With the contract down and an input of 2^510 units of a 6-decimal token
    for an 18-decimal one, the 1:1 conversion is beyond what [formatUnits]
    renders, and the quote of the pool is a failed quote. *)
Example curve_quote_beyond_formatUnits :
  fst (Engine.getQuoteForPoolWithAmount Scenarios.engineCurveDown Scenarios.curve3Pool
         (2 ^ 510) (Examples.pairOf Scenarios.USDC Scenarios.DAI) [])
  = Ok (Engine.failedQuote Scenarios.curve3Pool (2 ^ 510)
          {| isError := true; message := "overflow";
             status := None; code := Some "NUMERIC_FAULT"%string |}).
Proof. vm_compute. reflexivity. Qed.

Example curve_quotes :
  Curve.getCurveQuote (Scenarios.curveAnswers 999000) Scenarios.curveUSDe 1000000000000000000 []
  = (Ok 999000, ["coins"; "coins"; "coins"; "get_dy"]%string) /\
  Curve.getCurveQuote Scenarios.curveDown Scenarios.curveUSDe 1000000000000000000 []
  = (Ok 1000000, ["coins"]%string) /\
  Curve.getCurveQuote Scenarios.curveDown Scenarios.curve3Pool 1000000 []
  = (Ok 1000000000000000000, ["coins"; "get_dy"]%string) /\
  Curve.getCurveQuote (Scenarios.curveAnswers 5000000000) Scenarios.curveUSDe 1000000000000000000 []
  = (Ok 1000000000000000000, ["coins"; "coins"; "coins"; "get_dy"]%string).
Proof. vm_compute. repeat split. Qed.

(** ** The V3 quoter *)

Section V3Facts.
Context {World : Type} (env : V3.Env World).

(** X11.  A fee tier other than 100, 500, 3000 and 10000 is refused before the
    chain is asked anything: once [formatUnits] has rendered the input and
    the two SDK tokens are built, the quote throws, whatever the pool reads
    and the quoter contract would answer. *)
Theorem getUniswapV3Quote_unsupported_fee pool inputAmount rendered w w1 w2 :
  V3.formatUnits env inputAmount (decimals (tokens_base pool)) = Ok rendered ->
  V3.newToken env (tokens_base pool) w = (Ok tt, w1) ->
  V3.newToken env (tokens_quote pool) w1 = (Ok tt, w2) ->
  ~ In (JSString.parseInt (JSString.orElse (fee_tier pool) "3000"))
       [Some 100; Some 500; Some 3000; Some 10000] ->
  V3.getUniswapV3Quote env pool inputAmount w
  = (Throw (Error ("Unsupported fee tier "
                   ++ V3.showNumber env (JSString.parseInt (JSString.orElse (fee_tier pool) "3000"))
                   ++ ", pool may have custom fee")), w2).
Proof.
  intros Hr Hb Hq Hfee. unfold V3.getUniswapV3Quote. rewrite Hr, bind_lift.
  unfold try_catch, bind, throw.
  rewrite Hb, Hq.
  destruct (JSString.parseInt _) as [f|]; [|reflexivity].
  unfold V3.V3_FEE_TIERS.
  destruct (Z.eqb_spec f 100) as [->|]; [exfalso; apply Hfee; cbn; tauto|].
  destruct (Z.eqb_spec f 500) as [->|]; [exfalso; apply Hfee; cbn; tauto|].
  destruct (Z.eqb_spec f 3000) as [->|]; [exfalso; apply Hfee; cbn; tauto|].
  destruct (Z.eqb_spec f 10000) as [->|]; [exfalso; apply Hfee; cbn; tauto|].
  reflexivity.
Qed.

Lemma V3_FEE_TIERS_supported f feeAmount :
  V3.V3_FEE_TIERS f = Some feeAmount -> feeAmount = f.
Proof. unfold V3.V3_FEE_TIERS. destruct (_ || _); congruence. Qed.

(** X12.  A pool without liquidity does not fail the quote: where
    [formatUnits] renders the input, the zero liquidity ends the SDK path
    only, and the outcome is the outcome of the quoter path: the call to the
    quoter contract, made through the rate limiter, and the formatting of
    its answer. *)
Theorem zero_liquidity_asks_the_quoter
    pool inputAmount rendered fee w w1 w2 computed w3 state w4 :
  V3.formatUnits env inputAmount (decimals (tokens_base pool)) = Ok rendered ->
  V3.newToken env (tokens_base pool) w = (Ok tt, w1) ->
  V3.newToken env (tokens_quote pool) w1 = (Ok tt, w2) ->
  JSString.parseInt (JSString.orElse (fee_tier pool) "3000") = Some fee ->
  In fee [100; 500; 3000; 10000] ->
  V3.computePoolAddress env (tokens_base pool) (tokens_quote pool) fee w2 = (Ok computed, w3) ->
  toLowerCase computed = toLowerCase (address pool) ->
  V3.readPoolState env pool w3 = (Ok state, w4) ->
  V3.liquidity state = 0 ->
  V3.getUniswapV3Quote env pool inputAmount w
  = V3.quoterQuote env pool fee inputAmount w4.
Proof.
  intros Hr Hb Hq Hfee Hin Hc Hm Hs Hl.
  unfold V3.getUniswapV3Quote. rewrite Hr, bind_lift.
  unfold V3.sdkQuote, try_catch, bind, throw, ret.
  rewrite Hb, Hq, Hfee.
  assert (Hf : V3.V3_FEE_TIERS fee = Some fee).
  { cbn [In] in Hin. destruct Hin as [<- | [<- | [<- | [<- | []]]]]; reflexivity. }
  rewrite Hf, Hc, Hm, String.eqb_refl, Hs, Hl. cbn [Z.eqb].
  destruct (V3.quoterQuote env pool fee inputAmount w4) as [[v|e] w5]; reflexivity.
Qed.

(** What the quoter path returns, the quoter contract has answered. *)
Lemma quoterQuote_inv pool fee inputAmount w r w' :
  V3.quoterQuote env pool fee inputAmount w = (r, w') ->
  alchemyRateLimiter_execute (V3.elapse env)
    (V3.quoter_quoteExactInputSingle env
       (token_address (tokens_base pool)) (token_address (tokens_quote pool))
       fee inputAmount 0) w = (r, w') \/
  exists e, r = Throw e.
Proof.
  unfold V3.quoterQuote, bind, ret, lift.
  destruct (alchemyRateLimiter_execute _ _ w) as [[v|e] w1]; [|auto].
  destruct (V3.formatUnits env v _); intros [= <- <-]; eauto.
Qed.

(** Whatever happens, the quote is the output of the SDK trade or the
    outcome of the quoter contract, or the error of a token that the SDK
    refuses or of an unsupported fee tier; there is no estimate. *)
Lemma getUniswapV3Quote_outcomes pool inputAmount w r w' :
  V3.getUniswapV3Quote env pool inputAmount w = (r, w') ->
  (exists feeAmount state validTick w0,
     V3.tradeExactIn env pool feeAmount state validTick inputAmount w0 = (r, w') /\
     validTick = TickAlign.validTick TickAlign.nearestUsableTick (V3.tick state)
                   (V3.TICK_SPACINGS feeAmount)) \/
  (exists feeAmount w0,
     alchemyRateLimiter_execute (V3.elapse env)
       (V3.quoter_quoteExactInputSingle env
          (token_address (tokens_base pool)) (token_address (tokens_quote pool))
          feeAmount inputAmount 0) w0 = (r, w')) \/
  (exists e, r = Throw e).
Proof.
  assert (Hquoter : forall feeAmount w0,
            (let (r0, w1) := V3.quoterQuote env pool feeAmount inputAmount w0 in
             match r0 with Ok v => (Ok v, w1) | Throw e => (Throw e, w1) end) = (r, w') ->
            (exists feeAmount w0,
               alchemyRateLimiter_execute (V3.elapse env)
                 (V3.quoter_quoteExactInputSingle env
                    (token_address (tokens_base pool)) (token_address (tokens_quote pool))
                    feeAmount inputAmount 0) w0 = (r, w')) \/
            (exists e, r = Throw e)).
  { intros feeAmount w0.
    destruct (V3.quoterQuote env pool feeAmount inputAmount w0) as [r0 w1] eqn:E.
    intros H. assert (H' : (r0, w1) = (r, w')) by (destruct r0; exact H).
    injection H' as <- <-.
    apply quoterQuote_inv in E as [E | E]; eauto. }
  unfold V3.getUniswapV3Quote, lift. unfold bind at 1.
  destruct (V3.formatUnits env inputAmount _); [|intros [= <- <-]; right; right; eauto].
  unfold V3.sdkQuote, try_catch, bind, throw, ret, lift.
  destruct (V3.newToken env (tokens_base pool) w) as [[[]|e] w1];
    [|intros [= <- <-]; right; right; eauto].
  destruct (V3.newToken env (tokens_quote pool) w1) as [[[]|e] w2];
    [|intros [= <- <-]; right; right; eauto].
  destruct (match JSString.parseInt _ with Some f => V3.V3_FEE_TIERS f | None => None end)
    as [feeAmount|]; [|intros [= <- <-]; right; right; eauto].
  destruct (V3.computePoolAddress env _ _ feeAmount w2) as [[computed|e] w3].
  - destruct (String.eqb _ _).
    + destruct (V3.readPoolState env pool w3) as [[state|e] w4].
      * destruct (V3.liquidity state =? 0).
        -- intros H. right. exact (Hquoter _ _ H).
        -- destruct (V3.tradeExactIn env pool feeAmount state _ inputAmount w4)
             as [[v|e] w5] eqn:E.
           ++ destruct (V3.formatUnits env v _).
              ** intros [= <- <-]. left. eauto 10.
              ** intros H. right. exact (Hquoter _ _ H).
           ++ intros H. right. exact (Hquoter _ _ H).
      * intros H. right. exact (Hquoter _ _ H).
    + intros H. right. exact (Hquoter _ _ H).
  - intros H. right. exact (Hquoter _ _ H).
Qed.

(** X13.  A V3 quote that succeeds is the output of the SDK trade, computed on
    the pool state at the tick that the alignment gives, or the answer of the
    quoter contract for a supported fee tier; it is never an estimate. *)
Theorem getUniswapV3Quote_success_source pool inputAmount w outputAmount w' :
  V3.getUniswapV3Quote env pool inputAmount w = (Ok outputAmount, w') ->
  (exists feeAmount state w0,
     V3.tradeExactIn env pool feeAmount state
       (TickAlign.validTick TickAlign.nearestUsableTick (V3.tick state)
          (V3.TICK_SPACINGS feeAmount))
       inputAmount w0 = (Ok outputAmount, w')) \/
  (exists feeAmount w0,
     alchemyRateLimiter_execute (V3.elapse env)
       (V3.quoter_quoteExactInputSingle env
          (token_address (tokens_base pool)) (token_address (tokens_quote pool))
          feeAmount inputAmount 0) w0 = (Ok outputAmount, w')).
Proof.
  intros H. apply getUniswapV3Quote_outcomes in H
    as [(feeAmount & state & validTick & w0 & E & ->) | [H | (e & [=])]].
  - left. eauto.
  - right. exact H.
Qed.

End V3Facts.

Lemma getUniswapV3Quote_unsupported_fee_witness :
  V3.getUniswapV3Quote (Scenarios.v3Chain 5 7) Scenarios.v3CustomFee 1000 []
  = (Throw (Error ("Unsupported fee tier "
                   ++ V3.showNumber (Scenarios.v3Chain 5 7)
                        (JSString.parseInt
                           (JSString.orElse (fee_tier Scenarios.v3CustomFee) "3000"))
                   ++ ", pool may have custom fee")), []).
Proof.
  apply (getUniswapV3Quote_unsupported_fee (Scenarios.v3Chain 5 7) Scenarios.v3CustomFee
           1000 "1000" [] [] []); [reflexivity | reflexivity | reflexivity |].
  cbn. intros [H | [H | [H | [H | []]]]]; discriminate.
Defined.

Lemma zero_liquidity_asks_the_quoter_witness :
  V3.getUniswapV3Quote (Scenarios.v3Chain 0 7) Scenarios.v3Pool 1000 []
  = V3.quoterQuote (Scenarios.v3Chain 0 7) Scenarios.v3Pool 3000 1000
      ["slot0"; "liquidity"]%string.
Proof.
  apply (zero_liquidity_asks_the_quoter (Scenarios.v3Chain 0 7) Scenarios.v3Pool 1000 "1000"
           3000 [] [] [] (address Scenarios.v3Pool) []
           {| V3.sqrtPriceX96 := 4295128739; V3.tick := 200999; V3.liquidity := 0 |});
    try reflexivity.
  cbn. tauto.
Defined.

Lemma getUniswapV3Quote_success_source_witness :
  (exists feeAmount state w0,
     V3.tradeExactIn (Scenarios.v3Chain 5 7) Scenarios.v3Pool feeAmount state
       (TickAlign.validTick TickAlign.nearestUsableTick (V3.tick state)
          (V3.TICK_SPACINGS feeAmount))
       1000 w0 = (Ok 201000, ["slot0"; "liquidity"; "Trade.exactIn"]%string)) \/
  (exists feeAmount w0,
     alchemyRateLimiter_execute (V3.elapse (Scenarios.v3Chain 5 7))
       (V3.quoter_quoteExactInputSingle (Scenarios.v3Chain 5 7)
          (token_address (tokens_base Scenarios.v3Pool))
          (token_address (tokens_quote Scenarios.v3Pool))
          feeAmount 1000 0) w0 = (Ok 201000, ["slot0"; "liquidity"; "Trade.exactIn"]%string)).
Proof.
  apply (getUniswapV3Quote_success_source (Scenarios.v3Chain 5 7) Scenarios.v3Pool 1000 []).
  vm_compute. reflexivity.
Defined.

Example v3_quotes :
  V3.getUniswapV3Quote (Scenarios.v3Chain 0 7) Scenarios.v3Pool 1000 []
  = (Ok 7, ["slot0"; "liquidity"; "quoteExactInputSingle"]%string) /\
  V3.getUniswapV3Quote (Scenarios.v3Chain 5 7) Scenarios.v3Pool 1000 []
  = (Ok 201000, ["slot0"; "liquidity"; "Trade.exactIn"]%string) /\
  V3.getUniswapV3Quote (Scenarios.v3Chain 5 7) Scenarios.v3CustomFee 1000 []
  = (Throw (Error "Unsupported fee tier 250, pool may have custom fee"), []).
Proof. vm_compute. repeat split. Qed.

(** ** Maps *)

Section MapFacts.
Context {V : Type}.
Implicit Types m : list (string * V).

Lemma get_set_same m k v : JSMap.get (JSMap.set m k v) k = Some v.
Proof.
  induction m as [|[k' v'] m IH]; cbn.
  - rewrite String.eqb_refl. reflexivity.
  - destruct (String.eqb_spec k' k) as [-> | Hne]; cbn.
    + rewrite String.eqb_refl. reflexivity.
    + destruct (String.eqb_spec k' k); [contradiction | exact IH].
Qed.

Lemma get_set_other m k v k' : k <> k' -> JSMap.get (JSMap.set m k v) k' = JSMap.get m k'.
Proof.
  intros Hne. induction m as [|[k0 v0] m IH]; cbn.
  - destruct (String.eqb_spec k k'); [contradiction | reflexivity].
  - destruct (String.eqb_spec k0 k) as [-> | Hk]; cbn.
    + destruct (String.eqb_spec k k'); [contradiction | reflexivity].
    + destruct (String.eqb_spec k0 k'); [reflexivity | exact IH].
Qed.

(** Setting a key keeps the order of the keys, a new key going last. *)
Lemma keys_set m k v :
  map fst (JSMap.set m k v)
  = if JSMap.has m k then map fst m else map fst m ++ [k].
Proof.
  unfold JSMap.has. induction m as [|[k0 v0] m IH]; cbn; [reflexivity|].
  destruct (String.eqb_spec k0 k) as [-> | Hk]; cbn; [reflexivity|].
  rewrite IH. destruct (JSMap.get m k); reflexivity.
Qed.

Lemma get_In m k : JSMap.get m k <> None <-> In k (map fst m).
Proof.
  induction m as [|[k0 v0] m IH]; cbn; [tauto|].
  destruct (String.eqb_spec k0 k) as [-> | Hk].
  - split; [auto | discriminate].
  - rewrite IH. tauto.
Qed.

Lemma has_In m k : JSMap.has m k = true <-> In k (map fst m).
Proof.
  rewrite <- get_In. unfold JSMap.has. destruct (JSMap.get m k); split; congruence.
Qed.

Lemma keys_set_NoDup m k v : NoDup (map fst m) -> NoDup (map fst (JSMap.set m k v)).
Proof.
  intros Hnd. rewrite keys_set. destruct (JSMap.has m k) eqn:E; [exact Hnd|].
  apply NoDup_app; [exact Hnd | repeat constructor; intros [] |].
  intros x Hx [<- | []]. apply has_In in Hx. congruence.
Qed.

Lemma keys_set_In m k v x : In x (map fst (JSMap.set m k v)) <-> x = k \/ In x (map fst m).
Proof.
  rewrite keys_set. destruct (JSMap.has m k) eqn:E.
  - apply has_In in E. split; [tauto | intros [-> | H]; assumption].
  - rewrite in_app_iff. cbn. intuition.
Qed.

Lemma get_In_pair m k v : NoDup (map fst m) -> In (k, v) m -> JSMap.get m k = Some v.
Proof.
  induction m as [|[k0 v0] m IH]; cbn; [tauto|].
  intros Hnd [[= -> ->] | Hin].
  - rewrite String.eqb_refl. reflexivity.
  - apply NoDup_cons_iff in Hnd as [Hnot Hnd].
    destruct (String.eqb_spec k0 k) as [-> | Hk].
    + exfalso. apply Hnot. apply (in_map fst) in Hin. exact Hin.
    + apply IH; assumption.
Qed.

End MapFacts.

(** ** Sorting by a key *)

Section SortByKey.
Context {A : Type} (compareFn : A -> A -> Q) (key : A -> Z).
Hypothesis compare_key : forall x y, ltb 0 (compareFn x y) = true <-> key x < key y.

Lemma insertBy_sorted_by_key x l :
  StronglySorted (fun a b => key b <= key a) l ->
  StronglySorted (fun a b => key b <= key a) (Ranking.insertBy compareFn x l).
Proof.
  induction 1 as [|y l Hs IH Hall]; cbn [Ranking.insertBy].
  - repeat constructor.
  - destruct (ltb 0 (compareFn x y)) eqn:E.
    + apply compare_key in E. constructor; [exact IH|].
      eapply Permutation_Forall; [symmetry; apply insertBy_perm|].
      constructor; [lia | exact Hall].
    + assert (Hle : key y <= key x).
      { destruct (Z_lt_le_dec (key x) (key y)) as [Hlt|]; [|assumption].
        apply compare_key in Hlt. congruence. }
      constructor; [constructor; assumption|].
      constructor; [exact Hle|].
      eapply Forall_impl; [|exact Hall]. cbn. intros z Hz. lia.
Qed.

Lemma sort_sorted_by_key l :
  StronglySorted (fun a b => key b <= key a) (Ranking.sort compareFn l).
Proof.
  induction l as [|x l IH]; cbn; [constructor|].
  apply insertBy_sorted_by_key. exact IH.
Qed.

(** A list that is already in order is left as it is. *)
Lemma insertBy_head x l :
  Forall (fun y => key y <= key x) l -> Ranking.insertBy compareFn x l = x :: l.
Proof.
  intros H. destruct l as [|y l]; [reflexivity|].
  cbn [Ranking.insertBy]. apply Forall_inv in H.
  destruct (ltb 0 (compareFn x y)) eqn:E; [|reflexivity].
  apply compare_key in E. lia.
Qed.

Lemma sort_sorted_id l :
  StronglySorted (fun a b => key b <= key a) l -> Ranking.sort compareFn l = l.
Proof.
  induction 1 as [|x l Hs IH Hall]; [reflexivity|].
  cbn [Ranking.sort fold_right]. fold (Ranking.sort compareFn l). rewrite IH.
  apply insertBy_head. exact Hall.
Qed.

End SortByKey.

Lemma fsub_sign_Z (a b : Z) : ltb 0 (fsub (inject_Z b) (inject_Z a)) = true <-> a < b.
Proof.
  unfold fsub. rewrite ltb_spec, rnd_sign_pos.
  rewrite (Zlt_Qlt a b). split; intros H; lra.
Qed.

(** ** The protocols of a route *)

Lemma fillStep_other source total fill :
  countsFor source fill = false -> fillStep source total fill = total.
Proof. intros H. unfold fillStep. rewrite H. reflexivity. Qed.

Lemma addFill_counts m fill source :
  countsFor source fill = true ->
  NoDup (map fst m) ->
  JSMap.get (ZeroXQuoteService.addFill m fill) source
  = Some (fillStep source (match JSMap.get m source with Some t => t | None => 0%Q end) fill) /\
  (forall s, In s (map fst (ZeroXQuoteService.addFill m fill)) <-> s = source \/ In s (map fst m)).
Proof.
  intros Hc Hnd. unfold fillStep. rewrite Hc. revert Hc.
  unfold countsFor, ZeroXQuoteService.addFill, JSString.truthy.
  destruct (ZeroX.source fill) as [s|]; [|discriminate].
  destruct (ZeroX.proportionBps fill) as [b|]; [|discriminate].
  intros H. apply andb_true_iff in H as [H Hpos]. apply andb_true_iff in H as [H Hb].
  apply andb_true_iff in H as [Hs Hne]. apply String.eqb_eq in Hs. subst s.
  rewrite Hne, Hb, Hpos. cbn [andb]. split.
  - apply get_set_same.
  - intros s. apply keys_set_In.
Qed.

Lemma addFill_other m fill source :
  countsFor source fill = false ->
  JSMap.get (ZeroXQuoteService.addFill m fill) source = JSMap.get m source.
Proof.
  unfold countsFor, ZeroXQuoteService.addFill, JSString.truthy.
  destruct (ZeroX.source fill) as [s|]; [|reflexivity].
  destruct (ZeroX.proportionBps fill) as [b|]; [|reflexivity].
  intros H.
  destruct (negb (String.eqb s EmptyString)); [|reflexivity].
  destruct (negb (String.eqb b EmptyString)); [|reflexivity].
  cbn [andb]. destruct (ltb 0 (ZeroXQuoteService.bpsOf b)); [|reflexivity].
  rewrite !andb_true_r in H. apply String.eqb_neq in H.
  apply get_set_other. exact H.
Qed.

Lemma addFill_NoDup m fill :
  NoDup (map fst m) -> NoDup (map fst (ZeroXQuoteService.addFill m fill)).
Proof.
  intros Hnd. unfold ZeroXQuoteService.addFill.
  destruct (ZeroX.source fill) as [s|]; [|exact Hnd].
  destruct (ZeroX.proportionBps fill) as [b|]; [|exact Hnd].
  destruct (_ && _); [|exact Hnd].
  destruct (ltb 0 _); [|exact Hnd].
  apply keys_set_NoDup. exact Hnd.
Qed.

Lemma fold_addFill_NoDup fills m :
  NoDup (map fst m) -> NoDup (map fst (fold_left ZeroXQuoteService.addFill fills m)).
Proof.
  revert m. induction fills as [|f fills IH]; intros m H; [exact H|].
  cbn [fold_left]. apply IH, addFill_NoDup, H.
Qed.

Lemma fold_addFill_get fills m source :
  NoDup (map fst m) ->
  JSMap.get (fold_left ZeroXQuoteService.addFill fills m) source
  = match JSMap.get m source with
    | Some t => Some (fold_left (fillStep source) fills t)
    | None => if existsb (countsFor source) fills
              then Some (fold_left (fillStep source) fills 0%Q)
              else None
    end.
Proof.
  revert m. induction fills as [|f fills IH]; intros m Hnd.
  - cbn. destruct (JSMap.get m source); reflexivity.
  - cbn [fold_left existsb]. rewrite IH by (apply addFill_NoDup; exact Hnd).
    destruct (countsFor source f) eqn:Hc.
    + destruct (addFill_counts m f source Hc Hnd) as [-> _]. cbn [orb].
      destruct (JSMap.get m source); reflexivity.
    + rewrite (addFill_other m f source Hc). cbn [orb].
      destruct (JSMap.get m source) as [t|];
        [rewrite (fillStep_other source t f Hc)
        |rewrite (fillStep_other source 0%Q f Hc)]; reflexivity.
Qed.

Lemma extractProtocolInfo_eq fills :
  ZeroXQuoteService.extractProtocolInfo fills
  = Ranking.sort ZeroXQuoteService.byPercentageDesc
      (map toInfo (fold_left ZeroXQuoteService.addFill fills [])).
Proof.
  unfold ZeroXQuoteService.extractProtocolInfo.
  destruct fills as [|f fills]; [reflexivity|].
  destruct (fold_left _ (f :: fills) []) as [|e m]; reflexivity.
Qed.

Lemma byPercentageDesc_key x y :
  ltb 0 (ZeroXQuoteService.byPercentageDesc x y) = true
  <-> ZeroX.percentage x < ZeroX.percentage y.
Proof. apply fsub_sign_Z. Qed.

Lemma extractProtocolInfo_names fills :
  Permutation (map ZeroX.protocol_name (ZeroXQuoteService.extractProtocolInfo fills))
              (map fst (fold_left ZeroXQuoteService.addFill fills [])).
Proof.
  rewrite extractProtocolInfo_eq.
  rewrite (Permutation_map _ (sort_perm _ _)).
  rewrite map_map. erewrite map_ext; [reflexivity|]. intros [s t]. reflexivity.
Qed.

Lemma existsb_countsFor fills source :
  existsb (countsFor source) fills = true
  <-> exists fill, In fill fills /\ countsFor source fill = true.
Proof. apply existsb_exists. Qed.

Lemma extractProtocolInfo_In fills source :
  In source (map ZeroX.protocol_name (ZeroXQuoteService.extractProtocolInfo fills))
  <-> existsb (countsFor source) fills = true.
Proof.
  transitivity (In source (map fst (fold_left ZeroXQuoteService.addFill fills []))).
  - split; apply Permutation_in; [|symmetry]; apply extractProtocolInfo_names.
  - rewrite <- get_In, (fold_addFill_get fills [] source (NoDup_nil _)). cbn.
    destruct (existsb (countsFor source) fills); split; congruence.
Qed.

(** X14.  The protocols of a route: one entry for every source that has a fill
    with a source, a share and a positive number read from the share, and no
    other entry; no source twice; the larger percentage first. *)
Theorem extractProtocolInfo_protocols (fills : list ZeroX.Fill) :
  NoDup (map ZeroX.protocol_name (ZeroXQuoteService.extractProtocolInfo fills)) /\
  (forall source,
     In source (map ZeroX.protocol_name (ZeroXQuoteService.extractProtocolInfo fills))
     <-> exists fill, In fill fills /\ countsFor source fill = true) /\
  StronglySorted (fun a b => ZeroX.percentage b <= ZeroX.percentage a)
    (ZeroXQuoteService.extractProtocolInfo fills).
Proof.
  pose proof (fold_addFill_NoDup fills [] (NoDup_nil _)) as Hnd.
  split; [|split].
  - eapply Permutation_NoDup; [symmetry; apply extractProtocolInfo_names | exact Hnd].
  - intros source. rewrite <- existsb_countsFor. apply extractProtocolInfo_In.
  - rewrite extractProtocolInfo_eq.
    apply (sort_sorted_by_key _ ZeroX.percentage byPercentageDesc_key).
Qed.

(** X15.  The percentage of a protocol is its total share in basis points, the
    shares of its fills added up as numbers in the order of the route, divided
    by 100 and rounded to the nearest integer. *)
Theorem extractProtocolInfo_percentage (fills : list ZeroX.Fill) :
  Forall (fun p =>
            ZeroX.percentage p
            = TickAlign.Math_round (fdiv (totalBps fills (ZeroX.protocol_name p)) 100))
         (ZeroXQuoteService.extractProtocolInfo fills).
Proof.
  pose proof (fold_addFill_NoDup fills [] (NoDup_nil _)) as Hnd.
  apply Forall_forall. intros p Hp. rewrite extractProtocolInfo_eq in Hp.
  apply (Permutation_in _ (sort_perm _ _)) in Hp.
  apply in_map_iff in Hp as ([s t] & <- & Hin). cbn.
  pose proof (get_In_pair _ _ _ Hnd Hin) as Hget.
  rewrite (fold_addFill_get fills [] s (NoDup_nil _)) in Hget. cbn in Hget.
  destruct (existsb (countsFor s) fills); [|discriminate].
  injection Hget as <-. reflexivity.
Qed.

(** ** The ranking of the protocols of a route *)

Lemma byRateDesc_key x y :
  ltb 0 (ZeroXApiService.byRateDesc x y) = true
  <-> ZeroXApiService.effectiveRate x < ZeroXApiService.effectiveRate y.
Proof. apply fsub_sign_Z. Qed.

Lemma StronglySorted_map {A B : Type} (R : B -> B -> Prop) (f : A -> B) l :
  StronglySorted (fun a b => R (f a) (f b)) l -> StronglySorted R (map f l).
Proof.
  induction 1 as [|x l Hs IH Hall]; cbn; constructor; [exact IH|].
  apply Forall_map. exact Hall.
Qed.

(** X16.  The ranking of a route lists the protocols in the order of
    [extractProtocolInfo], each with its percentage as rate, and numbers them
    1, 2, 3, ...: the second sort changes nothing, and protocols of equal
    percentage get different ranks. *)
Theorem calculateProtocolRanking_ranks (allFills : list ZeroX.Fill) :
  let rankings := ZeroXApiService.calculateProtocolRanking allFills in
  let protocols := ZeroXQuoteService.extractProtocolInfo allFills in
  map ZeroXApiService.protocol rankings = map ZeroX.protocol_name protocols /\
  map ZeroXApiService.effectiveRate rankings = map ZeroX.percentage protocols /\
  map ZeroXApiService.rank rankings
  = map Z.of_nat (seq 1 (List.length protocols)).
Proof.
  cbv zeta. unfold ZeroXApiService.calculateProtocolRanking.
  set (protocols := ZeroXQuoteService.extractProtocolInfo allFills).
  set (toRanking := fun p : ZeroX.ZeroXProtocolInfo => _).
  assert (Hsorted : StronglySorted
                      (fun a b => ZeroXApiService.effectiveRate b <= ZeroXApiService.effectiveRate a)
                      (map toRanking protocols)).
  { apply (StronglySorted_map
             (fun a b => ZeroXApiService.effectiveRate b <= ZeroXApiService.effectiveRate a)).
    subst toRanking. cbn. subst protocols. rewrite extractProtocolInfo_eq.
    apply (sort_sorted_by_key _ ZeroX.percentage byPercentageDesc_key). }
  rewrite (sort_sorted_id _ ZeroXApiService.effectiveRate byRateDesc_key _ Hsorted).
  unfold Ranking.mapi. split; [|split].
  - rewrite (mapi_from_map _ ZeroXApiService.protocol ZeroXApiService.protocol)
      by reflexivity.
    rewrite map_map. reflexivity.
  - rewrite (mapi_from_map _ ZeroXApiService.effectiveRate ZeroXApiService.effectiveRate)
      by reflexivity.
    rewrite map_map. reflexivity.
  - rewrite (mapi_from_index _ ZeroXApiService.rank) by reflexivity.
    rewrite length_map. apply map_ext. intros n. lia.
Qed.

(** ** The aggregator pool *)

Lemma extractProtocolInfo_nil fills :
  ZeroXQuoteService.extractProtocolInfo fills = [] <->
  ~ exists fill source, In fill fills /\ countsFor source fill = true.
Proof.
  split.
  - intros E (fill & source & Hin & Hc).
    assert (H : In source (map ZeroX.protocol_name
                             (ZeroXQuoteService.extractProtocolInfo fills))).
    { apply extractProtocolInfo_In, existsb_exists. eauto. }
    rewrite E in H. exact H.
  - intros Hno.
    destruct (ZeroXQuoteService.extractProtocolInfo fills) as [|p ps] eqn:E; [reflexivity|].
    exfalso. apply Hno.
    assert (H : In (ZeroX.protocol_name p)
                   (map ZeroX.protocol_name (ZeroXQuoteService.extractProtocolInfo fills))).
    { rewrite E. left. reflexivity. }
    apply extractProtocolInfo_In, existsb_exists in H as (fill & Hin & Hc). eauto.
Qed.

(** X17.  Where [formatUnits] renders the input amount, the quote of the
    aggregator pool is successful exactly when the request is answered, the
    answer has liquidity, and at least one fill of the route has a source
    and a share that reads as a positive number; in every other case, a
    failed request included, it is the failed quote with the message
    "ZeroX quote failed". No exception leaves the call. *)
Theorem zerox_quote_needs_a_counted_fill {World : Type} (env : Engine.Env World)
  (pool : PoolInfo) (inputAmount : Z) (tokenPair : TokenPair) (w : World)
  (rendered : string) :
  Engine.formatUnits env inputAmount (decimals (tokens_base pool)) = Ok rendered ->
  dex pool = "zerox"%string ->
  ZeroX.extractProtocolInfo (Engine.zeroX env) = ZeroXQuoteService.extractProtocolInfo ->
  exists q w',
    Engine.getQuoteForPoolWithAmount env pool inputAmount tokenPair w = (Ok q, w') /\
    (success q = true <->
     exists r,
       fst (ZeroX.zeroXApi_getQuote (Engine.zeroX env) tokenPair w) = Ok (Some r) /\
       ZeroX.liquidityAvailable r = true /\
       exists fill source, In fill (ZeroX.fills r) /\ countsFor source fill = true) /\
    (success q = false ->
     q = Engine.failedQuote pool inputAmount (Error "ZeroX quote failed")).
Proof.
  intros Hr Hdex Hextract.
  unfold Engine.getQuoteForPoolWithAmount, Engine.protocolQuote, Engine.dexIs.
  rewrite Hdex. cbn [String.eqb Ascii.eqb Bool.eqb orb andb].
  unfold try_catch, bind, ZeroX.getZeroXQuote, try_catch, bind, ret, throw, lift.
  rewrite Hextract, Hr.
  destruct (ZeroX.zeroXApi_getQuote (Engine.zeroX env) tokenPair w) as [[[r|]|e] w1];
    cbn [fst].
  - destruct (ZeroX.liquidityAvailable r) eqn:L; cbn [negb].
    + destruct (ZeroXQuoteService.extractProtocolInfo (ZeroX.fills r)) as [|p ps] eqn:E.
      * do 2 eexists. split; [reflexivity|]. cbn. split; [|reflexivity].
        split; [discriminate|]. intros (r' & [= <-] & _ & H).
        apply extractProtocolInfo_nil in E. contradiction.
      * do 2 eexists. split; [reflexivity|]. cbn. split; [|discriminate].
        split; [|reflexivity]. intros _. exists r. split; [reflexivity|]. split; [exact L|].
        assert (H : In (ZeroX.protocol_name p)
                       (map ZeroX.protocol_name
                          (ZeroXQuoteService.extractProtocolInfo (ZeroX.fills r)))).
        { rewrite E. left. reflexivity. }
        apply extractProtocolInfo_In, existsb_exists in H as (fill & Hin & Hc). eauto.
    + do 2 eexists. split; [reflexivity|]. cbn. split; [|reflexivity].
      split; [discriminate|]. intros (r' & [= <-] & L' & _). congruence.
  - do 2 eexists. split; [reflexivity|]. cbn. split; [|reflexivity].
    split; [discriminate|]. intros (r' & [=] & _).
  - do 2 eexists. split; [reflexivity|]. cbn. split; [|reflexivity].
    split; [discriminate|]. intros (r' & [=] & _).
Qed.

Lemma zerox_quote_needs_a_counted_fill_witness :
  exists q w',
    Engine.getQuoteForPoolWithAmount Scenarios.aggregatorDown Scenarios.zeroxPool 1000
      (Examples.pairOf Examples.WETH Examples.USDT) [] = (Ok q, w') /\
    (success q = true <->
     exists r,
       fst (ZeroX.zeroXApi_getQuote (Engine.zeroX Scenarios.aggregatorDown)
              (Examples.pairOf Examples.WETH Examples.USDT) []) = Ok (Some r) /\
       ZeroX.liquidityAvailable r = true /\
       exists fill source, In fill (ZeroX.fills r) /\ countsFor source fill = true) /\
    (success q = false ->
     q = Engine.failedQuote Scenarios.zeroxPool 1000 (Error "ZeroX quote failed")).
Proof.
  apply (zerox_quote_needs_a_counted_fill Scenarios.aggregatorDown Scenarios.zeroxPool 1000
           (Examples.pairOf Examples.WETH Examples.USDT) [] "1000"); reflexivity.
Defined.

(** ** The quote log *)

Lemma storeQuoteLog_eq logEntry logs :
  QuoteLog.storeQuoteLog logEntry logs = firstn 500 (logEntry :: logs).
Proof.
  unfold QuoteLog.storeQuoteLog.
  destruct (Nat.ltb_spec 500 (List.length (logEntry :: logs))) as [H|H]; [reflexivity|].
  symmetry. apply firstn_all2. exact H.
Qed.

Lemma firstn_app_firstn {A : Type} (n : nat) (a b : list A) :
  firstn n (a ++ firstn n b) = firstn n (a ++ b).
Proof.
  rewrite !firstn_app, firstn_firstn. do 2 f_equal. lia.
Qed.

Lemma storeQuoteLog_fold entries logs :
  (List.length logs <= 500)%nat ->
  fold_left (fun logs logEntry => QuoteLog.storeQuoteLog logEntry logs) entries logs
  = firstn 500 (rev entries ++ logs).
Proof.
  revert logs. induction entries as [|e entries IH]; intros logs Hlen.
  - cbn [fold_left rev app]. symmetry. apply firstn_all2. exact Hlen.
  - cbn [fold_left rev]. rewrite IH.
    + rewrite storeQuoteLog_eq, <- app_assoc. cbn [app]. apply firstn_app_firstn.
    + rewrite storeQuoteLog_eq. apply firstn_le_length.
Qed.

(** X18.  The log keeps the 500 newest entries, the newest first: after any
    number of quotes have been logged, the log is the first 500 of the new
    entries in reverse order of arrival followed by the old log. *)
Theorem quote_log_keeps_newest (entries logs : list QuoteLog.LogEntry) :
  (List.length logs <= 500)%nat ->
  fold_left (fun logs logEntry => QuoteLog.storeQuoteLog logEntry logs) entries logs
  = firstn 500 (rev entries ++ logs) /\
  (List.length
     (fold_left (fun logs logEntry => QuoteLog.storeQuoteLog logEntry logs) entries logs)
   <= 500)%nat.
Proof.
  intros Hlen. rewrite storeQuoteLog_fold by exact Hlen.
  split; [reflexivity | apply firstn_le_length].
Qed.

Lemma quote_log_keeps_newest_witness :
  fold_left (fun logs logEntry => QuoteLog.storeQuoteLog logEntry logs)
    [Scenarios.logOf "second"; Scenarios.logOf "third"] [Scenarios.logOf "first"]
  = firstn 500 (rev [Scenarios.logOf "second"; Scenarios.logOf "third"]
                  ++ [Scenarios.logOf "first"]) /\
  (List.length
     (fold_left (fun logs logEntry => QuoteLog.storeQuoteLog logEntry logs)
        [Scenarios.logOf "second"; Scenarios.logOf "third"] [Scenarios.logOf "first"])
   <= 500)%nat.
Proof.
  apply (quote_log_keeps_newest [Scenarios.logOf "second"; Scenarios.logOf "third"]
           [Scenarios.logOf "first"]).
  cbn. lia.
Defined.

(** X19.  Once a quote has been logged, the log asked without arguments
    answers with the 50 newest entries, and asked for a pool type with the 50
    newest of that type among the entries kept; the empty pool type asks for
    all types. *)
Theorem getQuoteLogs_newest (entries : list QuoteLog.LogEntry) (poolType : string) :
  entries <> [] ->
  let logs := fold_left (fun logs logEntry => QuoteLog.storeQuoteLog logEntry logs)
                entries [] in
  QuoteLog.getQuoteLogs logs None None = firstn 50 (rev entries) /\
  QuoteLog.getQuoteLogs logs (Some EmptyString) None = firstn 50 (rev entries) /\
  (poolType <> EmptyString ->
   QuoteLog.getQuoteLogs logs (Some poolType) None
   = firstn 50 (filter (fun log => String.eqb (QuoteLog.poolType log) poolType)
                       (firstn 500 (rev entries)))).
Proof.
  intros _ logs. subst logs. rewrite storeQuoteLog_fold by (cbn; lia). rewrite app_nil_r.
  assert (Hslice : forall l : list QuoteLog.LogEntry, QuoteLog.slice0 l 50 = firstn 50 l).
  { intros l. unfold QuoteLog.slice0. cbn [Z.ltb Z.compare].
    destruct (Z.min_spec 50 (Z.of_nat (List.length l))) as [[H ->] | [H ->]].
    - reflexivity.
    - rewrite Nat2Z.id. rewrite firstn_all. symmetry. apply firstn_all2. lia. }
  unfold QuoteLog.getQuoteLogs. cbn [JSString.truthy]. rewrite !Hslice.
  rewrite String.eqb_refl. cbn [negb].
  split; [|split].
  - rewrite firstn_firstn. reflexivity.
  - rewrite firstn_firstn. reflexivity.
  - intros Hne. apply String.eqb_neq in Hne. rewrite Hne. reflexivity.
Qed.

Lemma getQuoteLogs_newest_witness :
  QuoteLog.getQuoteLogs
    (fold_left (fun logs logEntry => QuoteLog.storeQuoteLog logEntry logs)
       [Scenarios.logOf "first"; Scenarios.logOf "second"] []) None None
  = firstn 50 (rev [Scenarios.logOf "first"; Scenarios.logOf "second"]) /\
  QuoteLog.getQuoteLogs
    (fold_left (fun logs logEntry => QuoteLog.storeQuoteLog logEntry logs)
       [Scenarios.logOf "first"; Scenarios.logOf "second"] []) (Some EmptyString) None
  = firstn 50 (rev [Scenarios.logOf "first"; Scenarios.logOf "second"]) /\
  ("fluid"%string <> EmptyString ->
   QuoteLog.getQuoteLogs
     (fold_left (fun logs logEntry => QuoteLog.storeQuoteLog logEntry logs)
        [Scenarios.logOf "first"; Scenarios.logOf "second"] []) (Some "fluid"%string) None
   = firstn 50 (filter (fun log => String.eqb (QuoteLog.poolType log) "fluid")
                       (firstn 500 (rev [Scenarios.logOf "first";
                                         Scenarios.logOf "second"])))).
Proof.
  apply (getQuoteLogs_newest [Scenarios.logOf "first"; Scenarios.logOf "second"] "fluid").
  discriminate.
Defined.

(** ** The summary of a comparison *)

Lemma poolsTotal_set m k v :
  poolsTotal (JSMap.set m k v)
  = poolsTotal m
    - match JSMap.get m k with
      | Some d => Z.of_nat (List.length (Comparison.pools d))
      | None => 0
      end
    + Z.of_nat (List.length (Comparison.pools v)).
Proof.
  unfold poolsTotal. induction m as [|[k0 v0] m IH]; cbn [JSMap.set JSMap.get].
  - cbn. lia.
  - destruct (String.eqb k0 k); cbn [map fold_right snd] in *; lia.
Qed.

Lemma addQuote_eq m q :
  Comparison.addQuote m q
  = JSMap.set m (dex (pool q))
      {| Comparison.pools :=
           match JSMap.get m (dex (pool q)) with
           | Some d => Comparison.pools d ++ [q]
           | None => [q]
           end;
         Comparison.data_bestQuote :=
           match JSMap.get m (dex (pool q)) with
           | Some d => Comparison.data_bestQuote d
           | None => None
           end;
         Comparison.data_rankings :=
           match JSMap.get m (dex (pool q)) with
           | Some d => Comparison.data_rankings d
           | None => []
           end |}.
Proof.
  unfold Comparison.addQuote, JSMap.has.
  destruct (JSMap.get m (dex (pool q))) as [d|] eqn:E; cbn [negb].
  - rewrite E. reflexivity.
  - rewrite get_set_same. cbn.
    clear E. induction m as [|[k0 v0] m IH]; cbn [JSMap.set].
    + rewrite String.eqb_refl. reflexivity.
    + destruct (String.eqb k0 (dex (pool q))) eqn:Ek; cbn [JSMap.set]; rewrite Ek.
      * reflexivity.
      * rewrite IH. reflexivity.
Qed.

Lemma addQuote_poolsTotal m q : poolsTotal (Comparison.addQuote m q) = poolsTotal m + 1.
Proof.
  rewrite addQuote_eq, poolsTotal_set. cbn [Comparison.pools].
  destruct (JSMap.get m (dex (pool q))); [rewrite length_app|]; cbn [List.length]; lia.
Qed.

Lemma addQuote_keys m q k :
  In k (map fst (Comparison.addQuote m q)) <-> k = dex (pool q) \/ In k (map fst m).
Proof. rewrite addQuote_eq. apply keys_set_In. Qed.

Lemma addQuote_NoDup m q :
  NoDup (map fst m) -> NoDup (map fst (Comparison.addQuote m q)).
Proof. rewrite addQuote_eq. apply keys_set_NoDup. Qed.

Lemma addQuote_rankings m q k :
  option_map Comparison.data_rankings (JSMap.get m k) = Some [] \/ JSMap.get m k = None ->
  option_map Comparison.data_rankings (JSMap.get (Comparison.addQuote m q) k) = Some [] \/
  JSMap.get (Comparison.addQuote m q) k = None.
Proof.
  rewrite addQuote_eq. destruct (String.eqb_spec (dex (pool q)) k) as [<- | Hne].
  - rewrite get_set_same. cbn [option_map Comparison.data_rankings].
    destruct (JSMap.get m (dex (pool q))); cbn; intros [H|H]; auto; discriminate.
  - rewrite get_set_other by exact Hne. auto.
Qed.

Lemma fold_addQuote quotes m :
  NoDup (map fst m) ->
  let m' := fold_left Comparison.addQuote quotes m in
  NoDup (map fst m') /\
  poolsTotal m' = poolsTotal m + Z.of_nat (List.length quotes) /\
  (forall k, In k (map fst m') <->
             In k (map (fun q => dex (pool q)) quotes) \/ In k (map fst m)) /\
  (forall k,
     option_map Comparison.data_rankings (JSMap.get m k) = Some [] \/ JSMap.get m k = None ->
     option_map Comparison.data_rankings (JSMap.get m' k) = Some [] \/ JSMap.get m' k = None).
Proof.
  revert m. induction quotes as [|q quotes IH]; intros m Hnd; cbn zeta.
  - cbn [fold_left map List.length In]. split; [exact Hnd|]. split; [lia|].
    split; [intros k; tauto | auto].
  - cbn [fold_left]. specialize (IH _ (addQuote_NoDup m q Hnd)). cbn zeta in IH.
    destruct IH as (H1 & H2 & H3 & H4). split; [exact H1|]. split; [|split].
    + rewrite H2, addQuote_poolsTotal. cbn [List.length]. lia.
    + intros k. rewrite H3, addQuote_keys. cbn [map In]. intuition.
    + intros k Hk. apply H4, addQuote_rankings, Hk.
Qed.

(** The second pass. *)
Lemma addRanking_get m r k :
  option_map Comparison.data_rankings (JSMap.get (Comparison.addRanking m r) k)
  = option_map
      (fun d => Comparison.data_rankings d
                ++ (if String.eqb (dex (ranking_pool r)) k then [rank r] else []))
      (JSMap.get m k).
Proof.
  unfold Comparison.addRanking.
  destruct (String.eqb_spec (dex (ranking_pool r)) k) as [<- | Hne].
  - destruct (JSMap.get m (dex (ranking_pool r))) as [d|] eqn:E.
    + rewrite get_set_same. reflexivity.
    + rewrite E. reflexivity.
  - destruct (JSMap.get m (dex (ranking_pool r))) as [d|] eqn:E.
    + rewrite get_set_other by exact Hne.
      destruct (JSMap.get m k); cbn; [rewrite app_nil_r|]; reflexivity.
    + destruct (JSMap.get m k); cbn; [rewrite app_nil_r|]; reflexivity.
Qed.

Lemma addRanking_keys m r :
  map fst (Comparison.addRanking m r) = map fst m.
Proof.
  unfold Comparison.addRanking.
  destruct (JSMap.get m (dex (ranking_pool r))) as [d|] eqn:E; [|reflexivity].
  rewrite keys_set. unfold JSMap.has. rewrite E. reflexivity.
Qed.

Lemma addRanking_poolsTotal m r : poolsTotal (Comparison.addRanking m r) = poolsTotal m.
Proof.
  unfold Comparison.addRanking.
  destruct (JSMap.get m (dex (ranking_pool r))) as [d|] eqn:E; [|reflexivity].
  rewrite poolsTotal_set, E. cbn [Comparison.pools]. lia.
Qed.

Lemma fold_addRanking rankings m :
  let m' := fold_left Comparison.addRanking rankings m in
  map fst m' = map fst m /\
  poolsTotal m' = poolsTotal m /\
  forall k,
    option_map Comparison.data_rankings (JSMap.get m' k)
    = option_map (fun d => Comparison.data_rankings d ++ map rank (rankingsOf k rankings))
        (JSMap.get m k).
Proof.
  revert m. induction rankings as [|r rankings IH]; intros m; cbn zeta.
  - cbn. repeat split. intros k. destruct (JSMap.get m k); cbn; [rewrite app_nil_r|]; reflexivity.
  - cbn [fold_left]. specialize (IH (Comparison.addRanking m r)). cbn zeta in IH.
    destruct IH as (H1 & H2 & H3). split; [|split].
    + rewrite H1. apply addRanking_keys.
    + rewrite H2. apply addRanking_poolsTotal.
    + intros k. rewrite H3.
      pose proof (addRanking_get m r k) as Hg.
      unfold rankingsOf. cbn [filter].
      destruct (JSMap.get (Comparison.addRanking m r) k) as [d'|];
        destruct (JSMap.get m k) as [d|]; cbn in Hg |- *; try discriminate; [|reflexivity].
      injection Hg as ->.
      destruct (String.eqb (dex (ranking_pool r)) k); cbn [map app];
        rewrite <- app_assoc; reflexivity.
Qed.

Lemma sum_perm (l l' : list Z) :
  Permutation l l' -> fold_right Z.add 0 l = fold_right Z.add 0 l'.
Proof. induction 1; cbn; lia. Qed.

Lemma poolCount_total m :
  fold_right Z.add 0 (map Comparison.poolCount (map Comparison.summaryOf m)) = poolsTotal m.
Proof.
  unfold poolsTotal. rewrite map_map. f_equal.
  apply map_ext. intros [k d]. reflexivity.
Qed.

Lemma summaryOf_protocol m :
  map Comparison.summary_protocol (map Comparison.summaryOf m) = map fst m.
Proof. rewrite map_map. apply map_ext. intros [k d]. reflexivity. Qed.

(** The simulation that [simulateSwapsWithAmount] builds from its quotes. *)
Lemma generateProtocolSummary_facts (sim : SwapSimulation) :
  let successful := filter success (quotes sim) in
  let summary := Comparison.generateProtocolSummary sim in
  NoDup (map Comparison.summary_protocol summary) /\
  (forall protocol,
     In protocol (map Comparison.summary_protocol summary)
     <-> exists q, In q (quotes sim) /\ success q = true /\ dex (pool q) = protocol) /\
  fold_right Z.add 0 (map Comparison.poolCount summary)
  = Z.of_nat (List.length successful).
Proof.
  cbv zeta. unfold Comparison.generateProtocolSummary.
  set (successful := filter success (quotes sim)).
  destruct (fold_addQuote successful [] (NoDup_nil _)) as (Hnd & Htot & Hkeys & _).
  destruct (fold_addRanking (rankings sim) (fold_left Comparison.addQuote successful []))
    as (Hk2 & Htot2 & _).
  set (m2 := fold_left Comparison.addRanking (rankings sim)
               (fold_left Comparison.addQuote successful [])) in *.
  assert (Hperm : Permutation (Ranking.binaryInsertionSort Comparison.byBestRank
                                 (map Comparison.summaryOf m2))
                              (map Comparison.summaryOf m2))
    by apply binaryInsertionSort_perm.
  split; [|split].
  - eapply Permutation_NoDup; [symmetry; apply Permutation_map; exact Hperm|].
    rewrite summaryOf_protocol, Hk2. exact Hnd.
  - intros protocol.
    transitivity (In protocol (map fst m2)).
    + rewrite <- summaryOf_protocol.
      split; apply Permutation_in; [|symmetry]; apply Permutation_map; exact Hperm.
    + rewrite Hk2, Hkeys. cbn [map In]. rewrite in_map_iff. subst successful.
      split.
      * intros [(q & <- & Hq) | []]. apply filter_In in Hq. exists q. tauto.
      * intros (q & Hq & Hs & <-). left. exists q. split; [reflexivity|].
        apply filter_In. tauto.
  - rewrite (sum_perm _ _ (Permutation_map _ Hperm)), poolCount_total, Htot2, Htot.
    cbn. reflexivity.
Qed.

(** Two protocols whose only quotes are successful with the output 0 have
    no rank; their summaries stay in the order in which the protocols
    entered the map. *)
Example summaries_without_rank_keep_their_order :
  map (fun s => (Comparison.summary_protocol s, Comparison.bestRank s))
    (Comparison.generateProtocolSummary
       (simulationOf [Engine.successQuote Examples.poolA 1000 0;
                      Engine.successQuote Examples.poolB 1000 0]))
  = [("uniswap_v2"%string, None); ("uniswap_v3"%string, None)].
Proof. vm_compute. reflexivity. Qed.

Section ComparisonFacts.
Context {World : Type} (env : Comparison.Env World).

(** The two ways in which a comparison ends. *)
Lemma compareTokenPairDirect_cases pair w :
  (exists w', Comparison.compareTokenPairDirect env pair w
              = (Ok (Comparison.createEmptyResult pair), w')) \/
  (exists (pools : list PoolInfo) qs w',
     let sim := {| quotes := qs;
                   bestQuote := match calculateRankings (filter success qs) with
                                | first :: _ => Some (quote first)
                                | [] => None
                                end;
                   rankings := calculateRankings (filter success qs) |} in
     Comparison.compareTokenPairDirect env pair w
     = (Ok {| Comparison.pair := pair;
              Comparison.totalPoolsFound := Z.of_nat (List.length pools);
              Comparison.successfulQuotes := Z.of_nat (List.length (filter success qs));
              Comparison.simulation := sim;
              Comparison.bestProtocol :=
                match Comparison.generateProtocolSummary sim with
                | first :: _ => Some (Comparison.summary_protocol first)
                | [] => None
                end;
              Comparison.protocolSummary := Comparison.generateProtocolSummary sim |}, w') /\
     List.length qs = List.length pools).
Proof.
  unfold Comparison.compareTokenPairDirect, try_catch, bind, ret, throw.
  set (found := Comparison.getPoolsForPair env pair).
  destruct found as [|p0 found0] eqn:Ef; cbn [Comparison.isEmpty].
  - destruct (Comparison.findPoolsForPair env pair w) as [[[|p1 pools1]|e] w1];
      cbn [Comparison.isEmpty]; eauto.
    destruct (Comparison.BigInt env (sellAmount pair)) as [amount|]; eauto.
    destruct (Engine.simulateSwapsWithAmount _ _ _ _ _) as [[sim|e] w2] eqn:E; eauto.
    apply simulate_inv in E as (qs & -> & Hc).
    right. exists (p1 :: pools1), qs, w2. cbv zeta.
    split; [reflexivity | exact (Collected_length _ _ _ _ _ _ _ Hc)].
  - destruct (Comparison.BigInt env (sellAmount pair)) as [amount|]; eauto.
    destruct (Engine.simulateSwapsWithAmount _ _ _ _ _) as [[sim|e] w2] eqn:E; eauto.
    apply simulate_inv in E as (qs & -> & Hc).
    right. exists (p0 :: found0), qs, w2. cbv zeta.
    split; [reflexivity | exact (Collected_length _ _ _ _ _ _ _ Hc)].
Qed.

End ComparisonFacts.

(** X20.  A comparison always returns a result, in which the pools found are
    as many as the quotes of the simulation, the successful quotes are those
    flagged successful, the summary has exactly one entry for every protocol
    with a successful quote, and the pool counts of the summary add up to the
    number of successful quotes. *)
Theorem compareTokenPair_counts {World : Type} (env : Comparison.Env World)
  (tokenPair : TokenPair) (w : World) :
  exists result w',
    Comparison.compareTokenPair env tokenPair w = (Ok result, w') /\
    let quotes := quotes (Comparison.simulation result) in
    let summary := Comparison.protocolSummary result in
    Comparison.totalPoolsFound result = Z.of_nat (List.length quotes) /\
    Comparison.successfulQuotes result = Z.of_nat (List.length (filter success quotes)) /\
    Comparison.successfulQuotes result <= Comparison.totalPoolsFound result /\
    NoDup (map Comparison.summary_protocol summary) /\
    (forall protocol,
       In protocol (map Comparison.summary_protocol summary)
       <-> exists q, In q quotes /\ success q = true /\ dex (pool q) = protocol) /\
    fold_right Z.add 0 (map Comparison.poolCount summary)
    = Comparison.successfulQuotes result.
Proof.
  unfold Comparison.compareTokenPair.
  destruct (compareTokenPairDirect_cases env tokenPair w)
    as [(w' & E) | (pools & qs & w' & E & Hlen)].
  - exists (Comparison.createEmptyResult tokenPair), w'. split; [exact E|].
    cbn. split; [reflexivity|]. split; [reflexivity|]. split; [lia|].
    split; [constructor|]. split; [|reflexivity].
    intros protocol. split; [intros [] | intros (q & [] & _)].
  - cbv zeta in E. eexists _, w'. split; [exact E|].
    cbn [Comparison.simulation Comparison.protocolSummary Comparison.totalPoolsFound
         Comparison.successfulQuotes quotes].
    match goal with
    | |- context [Comparison.generateProtocolSummary ?s] =>
      destruct (generateProtocolSummary_facts s) as (H1 & H2 & H3)
    end.
    cbn [quotes] in H1, H2, H3.
    split; [rewrite Hlen; reflexivity|]. split; [reflexivity|]. split.
    { rewrite <- Hlen. apply inj_le, filter_length_le. }
    split; [exact H1|]. split; [exact H2 | exact H3].
Qed.

(** ** The best protocol *)

Lemma Math_min_le first others : Comparison.Math_min first others <= first.
Proof.
  unfold Comparison.Math_min. revert first.
  induction others as [|x others IH]; intros first; cbn [fold_left]; [lia|].
  specialize (IH (Z.min first x)). lia.
Qed.

Lemma Math_min_ge c first others :
  c <= first -> Forall (fun x => c <= x) others -> c <= Comparison.Math_min first others.
Proof.
  unfold Comparison.Math_min. revert first.
  induction others as [|x others IH]; intros first Hf Ho; cbn [fold_left]; [exact Hf|].
  apply IH; [|exact (Forall_inv_tail Ho)]. apply Forall_inv in Ho. lia.
Qed.

Lemma fsub_sign_neg_Z (a b : Z) : ltb (fsub (inject_Z a) (inject_Z b)) 0 = true <-> a < b.
Proof.
  unfold fsub. rewrite ltb_spec, (Zlt_Qlt a b). split; intros H.
  - destruct (Qlt_le_dec (inject_Z a) (inject_Z b)) as [Hlt | Hge]; [exact Hlt|].
    exfalso. assert (0 <= rnd (inject_Z a - inject_Z b))%Q by (apply rnd_nonneg; lra).
    lra.
  - apply rnd_neg. lra.
Qed.

(** The summary with the rank 1 goes to the front of summaries that do not
    hold it, and stays in front of those that come after it. *)
Lemma insertPivot_best x l :
  Comparison.bestRank x = Some 1 -> Forall behindTheBest l ->
  insertPivot Comparison.byBestRank x l = x :: l.
Proof.
  intros Hx Hl. destruct l as [|y l]; [reflexivity|]. cbn [insertPivot].
  apply Forall_inv in Hl. unfold behindTheBest in Hl. unfold Comparison.byBestRank.
  rewrite Hx. destruct (Comparison.bestRank y) as [r|]; [|reflexivity].
  assert (E : ltb (fsub (inject_Z 1) (inject_Z r)) 0 = true)
    by (apply fsub_sign_neg_Z; lia).
  rewrite E. reflexivity.
Qed.

Lemma insertPivot_behind a x rest :
  Comparison.bestRank x = Some 1 -> behindTheBest a ->
  insertPivot Comparison.byBestRank a (x :: rest)
  = x :: insertPivot Comparison.byBestRank a rest.
Proof.
  intros Hx Ha. cbn [insertPivot]. unfold behindTheBest in Ha. unfold Comparison.byBestRank.
  rewrite Hx. destruct (Comparison.bestRank a) as [r|]; [|reflexivity].
  destruct (ltb (fsub (inject_Z r) (inject_Z 1)) 0) eqn:E; [|reflexivity].
  apply fsub_sign_neg_Z in E. lia.
Qed.

Lemma fold_insertPivot_behind l x rest :
  Comparison.bestRank x = Some 1 -> Forall behindTheBest l ->
  exists rest',
    fold_left (fun sorted pivot => insertPivot Comparison.byBestRank pivot sorted) l (x :: rest)
    = x :: rest'.
Proof.
  intros Hx. revert rest. induction l as [|a l IH]; intros rest Hl; cbn [fold_left]; [eauto|].
  rewrite (insertPivot_behind a x rest Hx (Forall_inv Hl)).
  apply IH. exact (Forall_inv_tail Hl).
Qed.

Lemma sort_best_first l1 x l2 :
  Comparison.bestRank x = Some 1 -> Forall behindTheBest l1 -> Forall behindTheBest l2 ->
  exists rest, binaryInsertionSort Comparison.byBestRank (l1 ++ x :: l2) = x :: rest.
Proof.
  intros Hx H1 H2. unfold binaryInsertionSort. rewrite fold_left_app. cbn [fold_left].
  rewrite insertPivot_best; [apply fold_insertPivot_behind; assumption | exact Hx |].
  eapply Permutation_Forall; [symmetry; apply fold_insertPivot_perm | exact H1].
Qed.

Lemma mapi_from_ranks (w b : Q) i l :
  Forall (fun r => i + 1 <= rank r) (mapi_from (rankingOf w b) i l).
Proof.
  revert i. induction l as [|x l IH]; intros i; cbn [mapi_from]; constructor.
  - cbn. lia.
  - eapply Forall_impl; [|apply IH]. cbn. intros r Hr. lia.
Qed.

(** The ranking starts with the rank 1 for the first of the ranked quotes,
    and every later rank is 2 or more. *)
Lemma calculateRankings_head quotes first rest :
  calculateRankings quotes = first :: rest ->
  rank first = 1 /\ ranking_pool first = pool (quote first) /\
  In (quote first) (filter rankable quotes) /\
  Forall (fun r => 2 <= rank r) rest.
Proof.
  intros E.
  destruct (calculateRankings_shape quotes) as [[E0 _] | (q0 & qs & Hr & Hc)];
    [rewrite E0 in E; discriminate|].
  rewrite Hc in E. unfold mapi in E. cbn [mapi_from] in E. injection E as <- <-.
  cbn [rank ranking_pool quote rankingOf]. split; [reflexivity|]. split; [reflexivity|].
  split.
  - apply (Permutation_in _ (ranked_perm quotes)). rewrite Hr. left. reflexivity.
  - eapply Forall_impl; [|apply mapi_from_ranks]. cbn. intros r Hr'. lia.
Qed.

Lemma rankingsOf_ranks k rankings c :
  Forall (fun r => c <= rank r) rankings ->
  Forall (fun x => c <= x) (map rank (rankingsOf k rankings)).
Proof.
  intros H. apply Forall_map. unfold rankingsOf.
  apply Forall_forall. intros r Hr. apply filter_In in Hr as [Hr _].
  rewrite Forall_forall in H. apply H, Hr.
Qed.

(** The summary of a simulation whose successful quotes all have a positive
    output starts with the protocol of the best quote. *)
Lemma generateProtocolSummary_head (qs : list Quote) :
  (forall q, In q qs -> success q = true -> 0 < outputAmount q) ->
  let sim := {| quotes := qs;
                bestQuote := match calculateRankings (filter success qs) with
                             | first :: _ => Some (quote first)
                             | [] => None
                             end;
                rankings := calculateRankings (filter success qs) |} in
  match Comparison.generateProtocolSummary sim with
  | first :: _ => Some (Comparison.summary_protocol first)
  | [] => None
  end
  = option_map (fun q => dex (pool q)) (bestQuote sim).
Proof.
  intros Hpos. cbv zeta. unfold Comparison.generateProtocolSummary. cbn [quotes rankings bestQuote].
  set (successful := filter success qs).
  destruct (fold_addQuote successful [] (NoDup_nil _)) as (Hnd & _ & Hkeys & Hrk).
  destruct (fold_addRanking (calculateRankings successful)
              (fold_left Comparison.addQuote successful []))
    as (Hk2 & _ & Hget).
  set (m1 := fold_left Comparison.addQuote successful []) in *.
  set (m2 := fold_left Comparison.addRanking (calculateRankings successful) m1) in *.
  assert (Hrankable : filter rankable successful = successful).
  { apply forallb_filter_id. apply forallb_forall. intros q Hq. subst successful.
    apply filter_In in Hq as [Hq Hs]. rewrite rankable_eq, Hs. cbn [andb].
    apply Z.ltb_lt. auto. }
  destruct (calculateRankings successful) as [|r1 rest] eqn:ER.
  - (* no ranking: no successful quote, no protocol *)
    destruct (calculateRankings_shape successful) as [[_ E0] | (q0 & qs0 & _ & Hc)];
      [|rewrite ER in Hc; discriminate].
    assert (Hempty : successful = []).
    { pose proof (ranked_perm successful) as Hp. rewrite E0, Hrankable in Hp.
      apply Permutation_nil in Hp. exact Hp. }
    subst m2 m1. rewrite Hempty. reflexivity.
  - destruct (calculateRankings_head successful r1 rest ER) as (Hr1 & Hp1 & Hin1 & Hrest).
    rewrite Hrankable in Hin1.
    set (k1 := dex (pool (quote r1))).
    assert (Hk1 : In k1 (map fst m2)).
    { rewrite Hk2. apply Hkeys. left. apply in_map_iff. exists (quote r1). auto. }
    assert (Hnd2 : NoDup (map fst m2)) by (rewrite Hk2; exact Hnd).
    assert (Hdata : forall k d, In (k, d) m2 ->
              Comparison.data_rankings d = map rank (rankingsOf k (r1 :: rest))).
    { intros k d Hin. pose proof (get_In_pair _ _ _ Hnd2 Hin) as Hg.
      specialize (Hget k). rewrite Hg in Hget. cbn [option_map] in Hget.
      specialize (Hrk k (or_intror eq_refl)).
      destruct (JSMap.get m1 k) as [d0|]; [|discriminate].
      cbn [option_map] in Hget, Hrk. destruct Hrk as [[= Hrk] | ?]; [|discriminate].
      rewrite Hrk in Hget. injection Hget as ->. reflexivity. }
    apply in_map_iff in Hk1 as ([k d1] & Hkd & Hin). cbn [fst] in Hkd. subst k.
    destruct (in_split _ _ Hin) as (p1 & p2 & Hsplit).
    assert (Hbest : Comparison.bestRank (Comparison.summaryOf (k1, d1)) = Some 1).
    { cbn [Comparison.summaryOf Comparison.bestRank].
      rewrite (Hdata k1 d1 Hin). unfold rankingsOf. cbn [filter].
      rewrite Hp1. fold k1. rewrite String.eqb_refl. cbn [map]. rewrite Hr1. f_equal.
      apply Z.le_antisymm; [apply Math_min_le|].
      apply Math_min_ge; [lia|].
      eapply Forall_impl; [|apply (rankingsOf_ranks k1 rest 2 Hrest)]. cbn. intros; lia. }
    assert (Hothers : forall k d, In (k, d) m2 -> k <> k1 ->
              behindTheBest (Comparison.summaryOf (k, d))).
    { intros k d Hkd Hne. unfold behindTheBest.
      cbn [Comparison.summaryOf Comparison.bestRank].
      rewrite (Hdata k d Hkd). unfold rankingsOf. cbn [filter].
      rewrite Hp1. fold k1.
      destruct (String.eqb_spec k1 k) as [-> | _]; [contradiction|].
      pose proof (rankingsOf_ranks k rest 2 Hrest) as Hall. unfold rankingsOf in Hall.
      destruct (map rank (filter _ rest)) as [|x xs]; [exact I|].
      apply Math_min_ge; [exact (Forall_inv Hall) | exact (Forall_inv_tail Hall)]. }
    rewrite Hsplit in Hnd2, Hothers. rewrite map_app in Hnd2. cbn [map fst] in Hnd2.
    apply NoDup_remove_2 in Hnd2. rewrite in_app_iff in Hnd2.
    destruct (sort_best_first (map Comparison.summaryOf p1) (Comparison.summaryOf (k1, d1))
                (map Comparison.summaryOf p2) Hbest) as (tail & Hsort).
    + apply Forall_map, Forall_forall. intros [k d] Hkd.
      apply Hothers; [apply in_or_app; left; exact Hkd|].
      intros ->. apply Hnd2. left. apply (in_map fst) in Hkd. exact Hkd.
    + apply Forall_map, Forall_forall. intros [k d] Hkd.
      apply Hothers; [apply in_or_app; right; right; exact Hkd|].
      intros ->. apply Hnd2. right. apply (in_map fst) in Hkd. exact Hkd.
    + rewrite Hsplit, map_app. cbn [map]. rewrite Hsort. reflexivity.
Qed.

(** X21.  When every successful quote of a comparison has a positive output,
    the best protocol is the protocol of the pool of the best quote, and there
    is no best protocol exactly when there is no best quote. *)
Theorem bestProtocol_is_protocol_of_bestQuote {World : Type} (env : Comparison.Env World)
  (tokenPair : TokenPair) (w w' : World) (result : Comparison.ComparisonResult) :
  Comparison.compareTokenPair env tokenPair w = (Ok result, w') ->
  (forall q, In q (quotes (Comparison.simulation result)) ->
             success q = true -> 0 < outputAmount q) ->
  Comparison.bestProtocol result
  = option_map (fun q => dex (pool q)) (bestQuote (Comparison.simulation result)).
Proof.
  unfold Comparison.compareTokenPair. intros Hrun Hpos.
  destruct (compareTokenPairDirect_cases env tokenPair w)
    as [(w1 & E) | (pools & qs & w1 & E & _)].
  - rewrite E in Hrun. injection Hrun as <- _. reflexivity.
  - cbv zeta in E. rewrite E in Hrun. injection Hrun as <- _.
    cbn [Comparison.bestProtocol Comparison.simulation quotes] in *.
    apply (generateProtocolSummary_head qs Hpos).
Qed.

Lemma bestProtocol_is_protocol_of_bestQuote_witness :
  Comparison.bestProtocol
    (Scenarios.resultOf (Scenarios.pairWith "1000")
       (Comparison.compareTokenPair Scenarios.twoPools (Scenarios.pairWith "1000") []))
  = option_map (fun q => dex (pool q))
      (bestQuote
         (Comparison.simulation
            (Scenarios.resultOf (Scenarios.pairWith "1000")
               (Comparison.compareTokenPair Scenarios.twoPools
                  (Scenarios.pairWith "1000") [])))).
Proof.
  apply (bestProtocol_is_protocol_of_bestQuote Scenarios.twoPools
           (Scenarios.pairWith "1000") []
           (snd (Comparison.compareTokenPair Scenarios.twoPools
                   (Scenarios.pairWith "1000") []))).
  - vm_compute. reflexivity.
  - vm_compute. intros q [<- | [<- | []]] _; reflexivity.
Defined.

Example best_protocol_of_two_pools :
  Comparison.bestProtocol
    (Scenarios.resultOf (Scenarios.pairWith "1000")
       (Comparison.compareTokenPair Scenarios.twoPools (Scenarios.pairWith "1000") []))
  = Some "uniswap_v3"%string /\
  map Comparison.summary_protocol
    (Comparison.protocolSummary
       (Scenarios.resultOf (Scenarios.pairWith "1000")
          (Comparison.compareTokenPair Scenarios.twoPools (Scenarios.pairWith "1000") [])))
  = ["uniswap_v3"; "uniswap_v2"]%string.
Proof. vm_compute. split; reflexivity. Qed.

(** X22.  A sell amount that [BigInt] cannot read ends the comparison in the
    empty result: no exception leaves the call, and the result reports no pool
    although pools may have been found. *)
Theorem compareTokenPair_unreadable_amount {World : Type} (env : Comparison.Env World)
  (tokenPair : TokenPair) (w : World) :
  Comparison.BigInt env (sellAmount tokenPair) = None ->
  exists w',
    Comparison.compareTokenPair env tokenPair w
    = (Ok (Comparison.createEmptyResult tokenPair), w').
Proof.
  intros Hbig.
  unfold Comparison.compareTokenPair, Comparison.compareTokenPairDirect,
    try_catch, bind, ret, throw.
  destruct (Comparison.getPoolsForPair env tokenPair) as [|p0 found];
    cbn [Comparison.isEmpty].
  - destruct (Comparison.findPoolsForPair env tokenPair w) as [[[|p1 pools1]|e] w1];
      cbn [Comparison.isEmpty]; [eauto | | eauto].
    rewrite Hbig. eauto.
  - rewrite Hbig. eauto.
Qed.

Lemma compareTokenPair_unreadable_amount_witness :
  exists w',
    Comparison.compareTokenPair Scenarios.twoPools (Scenarios.pairWith "1.5") []
    = (Ok (Comparison.createEmptyResult (Scenarios.pairWith "1.5")), w').
Proof.
  apply (compareTokenPair_unreadable_amount Scenarios.twoPools (Scenarios.pairWith "1.5") []).
  reflexivity.
Defined.
